(** * The netopeer agent: session dispatch loop, request dispatch, shutdown

    A shallow embedding of [server/src/agent.c]: the signal handler, the
    request dispatcher [process_message], the detached notification thread
    and [main] with its handshake, its poll-driven loop and its clean-up.

    The agent is a single process with one global ([done]), a handful of
    heap objects it allocates and frees by hand (replies, the duplicated
    subscribe request, the thread configuration) and a stream of calls to
    its collaborators (libnetconf, the backend channel of [comm.h], the
    operating system).  The process state below keeps the global, the heap
    and the trace of collaborator calls; what the collaborators answer is
    supplied from outside, one answer sheet per request and one per pass
    of the loop, and so are the signals that arrive and the moments at
    which they do.  [process_message] is given twice: as one command, which
    is what it does when no signal arrives, and command by command, as
    [main] runs it under signals.  Two functions of the handshake,
    [get_tls_username] and [get_server_capabilities] with its list in
    memory, have modules of their own ([Tls], [Caps]). *)

From stdpp Require Import gmap strings list.
From Stdlib Require Import ZArith Lia.

Local Open Scope string_scope.
Local Open Scope list_scope.
Local Open Scope Z_scope.

(** ** Platform constants

    [<stdlib.h>], [<signal.h>], [<errno.h>] and [<poll.h>] are not part of
    the repository; the values are the ones of Linux. *)

Definition EXIT_SUCCESS : Z := 0.
Definition EXIT_FAILURE : Z := 1.

Definition SIGINT : Z := 2.
Definition SIGQUIT : Z := 3.
Definition SIGABRT : Z := 6.
Definition SIGKILL : Z := 9.
Definition SIGTERM : Z := 15.
Definition SIGCHLD : Z := 17.
Definition SIGCONT : Z := 18.
Definition SIGSTOP : Z := 19.
Definition SIGTSTP : Z := 20.
Definition SIGTTIN : Z := 21.
Definition SIGTTOU : Z := 22.
Definition SIGURG : Z := 23.
Definition SIGWINCH : Z := 28.
(** The signals are numbered from 1 to [NSIG]. *)
Definition NSIG : Z := 64.

Definition EINTR : Z := 4.

Definition POLLIN : Z := 1.
Definition POLLERR : Z := 8.
Definition POLLHUP : Z := 16.

(** ** libnetconf's vocabulary

    The enumerations of [libnetconf_xml.h] that the agent switches on. *)

Inductive NC_VERB_LEVEL :=
| NC_VERB_ERROR | NC_VERB_WARNING | NC_VERB_VERBOSE | NC_VERB_DEBUG.

Inductive NC_OP :=
| NC_OP_UNKNOWN | NC_OP_GETCONFIG | NC_OP_GET | NC_OP_GETSCHEMA
| NC_OP_EDITCONFIG | NC_OP_CLOSESESSION | NC_OP_KILLSESSION
| NC_OP_COPYCONFIG | NC_OP_DELETECONFIG | NC_OP_LOCK | NC_OP_UNLOCK
| NC_OP_COMMIT | NC_OP_DISCARDCHANGES | NC_OP_CREATESUBSCRIPTION
| NC_OP_VALIDATE.

Inductive NC_ERR :=
| NC_ERR_EMPTY | NC_ERR_IN_USE | NC_ERR_INVALID_VALUE | NC_ERR_TOO_BIG
| NC_ERR_MISSING_ATTR | NC_ERR_BAD_ATTR | NC_ERR_UNKNOWN_ATTR
| NC_ERR_MISSING_ELEM | NC_ERR_BAD_ELEM | NC_ERR_UNKNOWN_ELEM
| NC_ERR_UNKNOWN_NS | NC_ERR_ACCESS_DENIED | NC_ERR_LOCK_DENIED
| NC_ERR_RES_DENIED | NC_ERR_ROLLBACK_FAILED | NC_ERR_DATA_EXISTS
| NC_ERR_DATA_MISSING | NC_ERR_OP_NOT_SUPPORTED | NC_ERR_OP_FAILED
| NC_ERR_MALFORMED_MSG.

Inductive NC_ERR_PARAM :=
| NC_ERR_PARAM_TYPE | NC_ERR_PARAM_TAG | NC_ERR_PARAM_SEVERITY
| NC_ERR_PARAM_APPTAG | NC_ERR_PARAM_PATH | NC_ERR_PARAM_MSG
| NC_ERR_PARAM_INFO_BADATTR | NC_ERR_PARAM_INFO_BADELEM
| NC_ERR_PARAM_INFO_BADNS | NC_ERR_PARAM_INFO_SID.

Inductive NC_REPLY_TYPE :=
| NC_REPLY_UNKNOWN | NC_REPLY_HELLO | NC_REPLY_OK | NC_REPLY_ERROR
| NC_REPLY_DATA.

Inductive NC_MSG_TYPE :=
| NC_MSG_UNKNOWN | NC_MSG_NONE | NC_MSG_HELLO | NC_MSG_RPC | NC_MSG_REPLY
| NC_MSG_NOTIFICATION.

Inductive NC_SESSION_STATUS :=
| NC_SESSION_STATUS_ERROR | NC_SESSION_STATUS_STARTUP
| NC_SESSION_STATUS_WORKING | NC_SESSION_STATUS_CLOSING
| NC_SESSION_STATUS_CLOSED | NC_SESSION_STATUS_DUMMY.

#[global] Instance NC_ERR_PARAM_eq_dec : EqDecision NC_ERR_PARAM.
Proof. solve_decision. Defined.
#[global] Instance NC_REPLY_TYPE_eq_dec : EqDecision NC_REPLY_TYPE.
Proof. solve_decision. Defined.
#[global] Instance NC_MSG_TYPE_eq_dec : EqDecision NC_MSG_TYPE.
Proof. solve_decision. Defined.
#[global] Instance NC_SESSION_STATUS_eq_dec : EqDecision NC_SESSION_STATUS.
Proof. solve_decision. Defined.

(** ** Data *)

(** An error under construction: the tag given to [nc_err_new] and the
    parameters written by [nc_err_set], the latest first. *)
Record nc_err := NcErr {
  err_tag : NC_ERR;
  err_params : list (NC_ERR_PARAM * string)
}.

Definition nc_err_new (tag : NC_ERR) : nc_err := NcErr tag [].

Definition nc_err_set (e : nc_err) (p : NC_ERR_PARAM) (v : string) : nc_err :=
  NcErr (err_tag e) ((p, v) :: err_params e).

Fixpoint lookup_param (p : NC_ERR_PARAM) (ps : list (NC_ERR_PARAM * string))
  : option string :=
  match ps with
  | [] => None
  | (q, v) :: rest => if decide (q = p) then Some v else lookup_param p rest
  end.

Definition nc_err_get (e : nc_err) (p : NC_ERR_PARAM) : option string :=
  lookup_param p (err_params e).

(** A reply: [<ok/>], an [<rpc-error>] or data. *)
Inductive nc_reply :=
| ReplyOk
| ReplyError (e : nc_err)
| ReplyData (data : string)
| ReplyUnknown.

Definition reply_type (r : nc_reply) : NC_REPLY_TYPE :=
  match r with
  | ReplyOk => NC_REPLY_OK
  | ReplyError _ => NC_REPLY_ERROR
  | ReplyData _ => NC_REPLY_DATA
  | ReplyUnknown => NC_REPLY_UNKNOWN
  end.

(** The part of a libxml2 node the agent looks at: [name] (may be NULL),
    the list behind [children] and the text [xmlNodeGetContent] returns. *)
#[warnings="-register-all"] Inductive xmlNode :=
| XmlNode (name : option string) (children : list xmlNode)
          (content : option string).

Definition name (n : xmlNode) : option string :=
  match n with XmlNode nm _ _ => nm end.
Definition children (n : xmlNode) : list xmlNode :=
  match n with XmlNode _ cs _ => cs end.
Definition xmlNodeGetContent (n : xmlNode) : option string :=
  match n with XmlNode _ _ c => c end.

(** [xmlStrEqual]: 1 when both strings are equal, 0 otherwise, and 0 when
    one of them is NULL (the second argument is a literal here). *)
Definition xmlStrEqual (s1 : option string) (s2 : string) : Z :=
  match s1 with
  | None => 0
  | Some s => if decide (s = s2) then 1 else 0
  end.

Record nc_rpc := NcRpc {
  rpc_msgid : string;
  rpc_op : NC_OP;
  rpc_op_content : option xmlNode
}.

Definition nc_rpc_get_op (rpc : nc_rpc) : NC_OP := rpc_op rpc.
Definition ncxml_rpc_get_op_content (rpc : nc_rpc) : option xmlNode :=
  rpc_op_content rpc.

Record nc_session := NcSession {
  session_id : string;
  capabilities : list string;
  ntf_allowed : Z;
  status : NC_SESSION_STATUS
}.

Definition nc_cpblts_enabled (session : nc_session) (uri : string) : Z :=
  if decide (uri ∈ capabilities session) then 1 else 0.
Definition nc_session_notif_allowed (session : nc_session) : Z :=
  ntf_allowed session.
Definition nc_session_get_status (session : nc_session) : NC_SESSION_STATUS :=
  status session.

Definition conn_t := nat.

Record ntf_thread_config := NtfThreadConfig {
  session : nc_session;
  subscribe_rpc : nat
}.

(** ** Process state

    The global [done], the objects the process has allocated and not yet
    freed, and the calls it has made to its collaborators, oldest first. *)

Inductive object :=
| ObjUninit
| ObjReply (r : nc_reply)
| ObjRpc (r : nc_rpc)
| ObjNtfConfig (c : ntf_thread_config).

Inductive event :=
| ClbPrint (level : NC_VERB_LEVEL) (msg : string)
| NcVerbError (msg : string)
| StderrSignal (sig : Z)
| CommClose (conn : conn_t)
| CommKillSession (conn : conn_t) (sid : option string)
| CommOperation (conn : conn_t) (rpc : nc_rpc)
| SendReply (rpc : nc_rpc) (reply : nat) (r : nc_reply)
| ReplyFree (reply : nat)
| PthreadCreate (arg : nat)
| PthreadDetach
| NtfDispatchSend (rpc : nat)
| Setuid (uid : Z)
| SessionFree
| NcClose.

Record process := Process {
  done : Z;
  heap : gmap nat object;
  trace : list event
}.

Definition boot : process := Process 0 ∅ [].

Definition emit (e : event) (p : process) : process :=
  Process (done p) (heap p) (trace p ++ [e]).

(** ** The signal handler *)

Inductive handled :=
| Resumed (p : process)
| Terminated (status : Z) (p : process).

Definition signal_handler (sig : Z) (p : process) : handled :=
  let p := emit (ClbPrint NC_VERB_VERBOSE "Signal received.") p in
  let p := emit (StderrSignal sig) p in
  if (sig =? SIGINT) || (sig =? SIGTERM) || (sig =? SIGQUIT)
     || (sig =? SIGABRT) || (sig =? SIGKILL)
  then
    if done p =? 0 then
      (* first attempt *)
      Resumed (Process 1 (heap p) (trace p))
    else
      (* second attempt *)
      Terminated EXIT_FAILURE
        (emit (ClbPrint NC_VERB_ERROR
                 "Hey! I need some time to stop, be patient next time!") p)
  else
    Terminated EXIT_FAILURE
      (emit (ClbPrint NC_VERB_ERROR "exiting on signal.") p).

(** The handler called for one signal after the other; the calls stop with
    the process.  Which signals reach the handler is a matter of
    [sigaction], below. *)
Fixpoint deliver (sigs : list Z) (p : process) : handled :=
  match sigs with
  | [] => Resumed p
  | sig :: rest =>
      match signal_handler sig p with
      | Resumed p' => deliver rest p'
      | Terminated s p' => Terminated s p'
      end
  end.

(** The signals the handler knows, which are those [main] calls
    [sigaction] for. *)
Definition termination_signals : list Z :=
  [SIGINT; SIGQUIT; SIGABRT; SIGTERM; SIGKILL].

(** ** Commands

    A command runs on the process state and either fails (a memory error:
    an object used or freed that is not live, or not of the expected kind)
    or returns a value and the new state. *)

Definition M (A : Type) : Type := process → option (A * process).

#[global] Instance M_ret : MRet M := λ A a p, Some (a, p).
#[global] Instance M_bind : MBind M := λ A B k m p,
  match m p with
  | Some (a, p') => k a p'
  | None => None
  end.

Definition say (e : event) : M unit := λ p, Some (tt, emit e p).
Definition set_done (v : Z) : M unit :=
  λ p, Some (tt, Process v (heap p) (trace p)).

Definition new_object (o : object) : M nat := λ p,
  let a := fresh (dom (heap p)) in
  Some (a, Process (done p) (<[a:=o]> (heap p)) (trace p)).

Definition store (a : nat) (o : object) : M unit := λ p,
  match heap p !! a with
  | Some _ => Some (tt, Process (done p) (<[a:=o]> (heap p)) (trace p))
  | None => None
  end.

Definition free (a : nat) : M unit := λ p,
  match heap p !! a with
  | Some _ => Some (tt, Process (done p) (delete a (heap p)) (trace p))
  | None => None
  end.

Definition load_reply (a : nat) : M nc_reply := λ p,
  match heap p !! a with
  | Some (ObjReply r) => Some (r, p)
  | _ => None
  end.

Definition load_config (a : nat) : M ntf_thread_config := λ p,
  match heap p !! a with
  | Some (ObjNtfConfig c) => Some (c, p)
  | _ => None
  end.

Definition clb_print (level : NC_VERB_LEVEL) (msg : string) : M unit :=
  say (ClbPrint level msg).
Definition nc_verb_error (msg : string) : M unit := say (NcVerbError msg).

(** *** libnetconf calls that touch the heap or the session *)

Definition nc_reply_ok : M nat := new_object (ObjReply ReplyOk).
Definition nc_reply_error (e : nc_err) : M nat :=
  new_object (ObjReply (ReplyError e)).
Definition nc_reply_get_type (reply : nat) : M NC_REPLY_TYPE :=
  r ← load_reply reply; mret (reply_type r).
Definition nc_reply_free (reply : nat) : M unit :=
  _ ← load_reply reply; free reply;; say (ReplyFree reply).
Definition nc_rpc_dup (rpc : nc_rpc) : M nat := new_object (ObjRpc rpc).
Definition nc_rpc_free (rpc : nat) : M unit := λ p,
  match heap p !! rpc with
  | Some (ObjRpc _) => free rpc p
  | _ => None
  end.
Definition nc_session_send_reply (session : nc_session) (rpc : nc_rpc)
    (reply : nat) : M unit :=
  r ← load_reply reply; say (SendReply rpc reply r).
Definition ncntf_dispatch_send (session : nc_session) (subscribe_rpc : nat)
  : M unit := λ p,
  match heap p !! subscribe_rpc with
  | Some (ObjRpc _) => say (NtfDispatchSend subscribe_rpc) p
  | _ => None
  end.

(** *** What the collaborators answer while one request is processed

    The backend channel ([comm.h]), the subscription check of libnetconf
    and the two system calls that may fail. *)
Record answers := Answers {
  ans_comm_close : Z;
  ans_comm_kill_session : option string → nc_reply;
  ans_comm_operation : nc_rpc → nc_reply;
  ans_ncntf_subscription_check : nc_rpc → nc_reply;
  ans_malloc : bool;
  ans_pthread_create : Z
}.

Definition comm_close (a : answers) (conn : conn_t) : M Z :=
  say (CommClose conn);; mret (ans_comm_close a).
Definition comm_kill_session (a : answers) (conn : conn_t)
    (sid : option string) : M nat :=
  say (CommKillSession conn sid);;
  new_object (ObjReply (ans_comm_kill_session a sid)).
Definition comm_operation (a : answers) (conn : conn_t) (rpc : nc_rpc)
  : M nat :=
  say (CommOperation conn rpc);;
  new_object (ObjReply (ans_comm_operation a rpc)).
Definition ncntf_subscription_check (a : answers) (rpc : nc_rpc) : M nat :=
  new_object (ObjReply (ans_ncntf_subscription_check a rpc)).
Definition malloc (a : answers) : M (option nat) :=
  if ans_malloc a then h ← new_object ObjUninit; mret (Some h)
  else mret None.
Definition pthread_create (a : answers) (arg : nat) : M Z :=
  if ans_pthread_create a =? 0 then say (PthreadCreate arg);; mret 0
  else mret (ans_pthread_create a).
Definition pthread_detach : M unit := say PthreadDetach.

(** ** The notification thread *)

Definition notification_thread (arg : nat) : M unit :=
  config ← load_config arg;
  ncntf_dispatch_send (session config) (subscribe_rpc config);;
  nc_rpc_free (subscribe_rpc config);;
  free arg.

(** ** Dispatch of one request *)

Definition NOTIFICATION_CAPABILITY : string :=
  "urn:ietf:params:netconf:capability:notification:1.0".

(** The [switch] of [process_message]: every branch leaves with the reply
    to send, by [break] or by [goto send_reply]. *)
Definition build_reply (a : answers) (session : nc_session) (conn : conn_t)
    (rpc : nc_rpc) : M nat :=
  match nc_rpc_get_op rpc with
  | NC_OP_CLOSESESSION =>
      r ← comm_close a conn;
      reply ← (if negb (r =? EXIT_SUCCESS)
               then nc_reply_error (nc_err_new NC_ERR_OP_FAILED)
               else nc_reply_ok);
      set_done 1;;
      mret reply
  | NC_OP_KILLSESSION =>
      let corrupted :=
        clb_print NC_VERB_ERROR "Corrupted RPC message.";;
        nc_reply_error (nc_err_new NC_ERR_OP_FAILED) in
      let no_session_id :=
        clb_print NC_VERB_ERROR "No session id found.";;
        nc_reply_error
          (nc_err_set (nc_err_new NC_ERR_MISSING_ELEM)
                      NC_ERR_PARAM_INFO_BADELEM "session-id") in
      match ncxml_rpc_get_op_content rpc with
      | None => corrupted
      | Some op =>
          match name op with
          | None => corrupted
          | Some _ =>
              if xmlStrEqual (name op) "kill-session" =? 0 then corrupted
              else
                match children op with
                | [] => no_session_id
                | child :: _ =>
                    if xmlStrEqual (name child) "session-id" =? 0
                    then no_session_id
                    else
                      let sid := xmlNodeGetContent child in
                      comm_kill_session a conn sid
                end
          end
      end
  | NC_OP_CREATESUBSCRIPTION =>
      if nc_cpblts_enabled session NOTIFICATION_CAPABILITY =? 0 then
        nc_reply_error (nc_err_new NC_ERR_OP_NOT_SUPPORTED)
      else if nc_session_notif_allowed session =? 0 then
        clb_print NC_VERB_ERROR
          "Notification subscription is not allowed on this session.";;
        let err := nc_err_new NC_ERR_OP_FAILED in
        let err := nc_err_set err NC_ERR_PARAM_TYPE "protocol" in
        let err := nc_err_set err NC_ERR_PARAM_MSG
          "Another notification subscription is currently active on this session." in
        nc_reply_error err
      else
        reply ← ncntf_subscription_check a rpc;
        ty ← nc_reply_get_type reply;
        if negb (bool_decide (ty = NC_REPLY_OK)) then mret reply
        else
          ntf_config ← malloc a;
          match ntf_config with
          | None =>
              clb_print NC_VERB_ERROR "Memory allocation failed.";;
              let err := nc_err_new NC_ERR_OP_FAILED in
              let err := nc_err_set err NC_ERR_PARAM_MSG
                           "Memory allocation failed." in
              nc_reply_error err
          | Some ntf_config =>
              dup ← nc_rpc_dup rpc;
              store ntf_config (ObjNtfConfig (NtfThreadConfig session dup));;
              r ← pthread_create a ntf_config;
              if negb (r =? 0) then
                nc_reply_free reply;;
                let err := nc_err_new NC_ERR_OP_FAILED in
                let err := nc_err_set err NC_ERR_PARAM_MSG
                  "Creating thread for sending Notifications failed." in
                nc_reply_error err
              else
                pthread_detach;;
                mret reply
          end
  | _ =>
      comm_operation a conn rpc
  end.

Definition process_message (a : answers) (session : nc_session)
    (conn : conn_t) (rpc : option nc_rpc) : M Z :=
  match rpc with
  | None =>
      nc_verb_error "Invalid RPC to process.";;
      mret EXIT_FAILURE
  | Some rpc =>
      reply ← build_reply a session conn rpc;
      (* send_reply: *)
      nc_session_send_reply session rpc reply;;
      nc_reply_free reply;;
      mret EXIT_SUCCESS
  end.

(** ** The user name of a TLS client

    [get_tls_username], as compiled without [PATCHED_STUNNEL].  A C string
    is a [string] (it holds no NUL, and its length fits an [int]); a
    pointer into a string is the suffix it points at, so that the
    difference of two pointers into one string is the difference of the
    lengths.  The block [malloc] returns is the list of its bytes, not yet
    written; a store outside the block is reported, not performed. *)

Module Tls.

(** The character ['/'], 0x2F. *)
Definition slash : Ascii.ascii :=
  Ascii.Ascii true true true true false true false false.

Fixpoint strstr (haystack needle : string) : option string :=
  if String.prefix needle haystack then Some haystack
  else
    match haystack with
    | EmptyString => None
    | String _ rest => strstr rest needle
    end.

Fixpoint strchr (s : string) (c : Ascii.ascii) : option string :=
  match s with
  | EmptyString => None
  | String c' rest => if decide (c' = c) then Some s else strchr rest c
  end.

(** [s + n], for [n] no more than the length of [s]. *)
Fixpoint advance (n : nat) (s : string) : string :=
  match n, s with
  | S n', String _ rest => advance n' rest
  | _, _ => s
  end.

Definition malloc (ok : bool) (size : nat)
  : option (list (option Ascii.ascii)) :=
  if ok then Some (replicate size None) else None.

(** [strncpy]: exactly [n] bytes are written, those of [src] and then
    NULs; [None] when the destination is shorter than [n]. *)
Fixpoint strncpy (dest : list (option Ascii.ascii)) (src : string) (n : nat)
  : option (list (option Ascii.ascii)) :=
  match n with
  | O => Some dest
  | S n' =>
      match dest with
      | [] => None
      | _ :: dest' =>
          match src with
          | EmptyString =>
              cons (Some Ascii.zero) <$> strncpy dest' EmptyString n'
          | String c src' => cons (Some c) <$> strncpy dest' src' n'
          end
      end
  end.

(** [b[i] = c], inside the block. *)
Definition store (b : list (option Ascii.ascii)) (i : nat) (c : Ascii.ascii)
  : option (list (option Ascii.ascii)) :=
  if decide (i < length b)%nat then Some (<[i:=Some c]> b) else None.

Inductive result :=
| Returns (username : option (list (option Ascii.ascii)))
| NullDereference
| OutOfBounds (aux : list (option Ascii.ascii)) (index : nat).

Definition get_tls_username (getenv : string → option string)
    (malloc_ok : bool) : M result :=
  (* try to get information from environment variable commonly provided by
     stunnel(1) *)
  match getenv "SSL_CLIENT_DN" with
  | None =>
      clb_print NC_VERB_ERROR
        "Missing 'SSL_CLIENT_DN' enviornment variable, unable to get username.";;
      mret (Returns None)
  | Some subj =>
      (* parse subject to get CN *)
      match strstr subj "CN=" with
      | None =>
          clb_print NC_VERB_ERROR
            "Client certificate does not include commonName, unable to get username.";;
          mret (Returns None)
      | Some cn =>
          let cn := advance 3 cn in
          (* detect if the CN is followed by another item *)
          let aux := strchr cn slash in
          (* get the length of the CN value *)
          let len :=
            match aux with
            | Some aux => (String.length cn - String.length aux)%nat
            | None => String.length cn
            end in
          (* store (only) the CN value into the resulting string *)
          match malloc malloc_ok len with
          | None => mret NullDereference
          | Some aux =>
              match strncpy aux cn len with
              | None => mret (OutOfBounds aux len)
              | Some aux =>
                  match store aux len Ascii.zero with
                  | None => mret (OutOfBounds aux len)
                  | Some aux => mret (Returns (Some aux))
                  end
              end
          end
      end
  end.

(** The bytes of a string, written. *)
Definition written (s : string) : list (option Ascii.ascii) :=
  Some <$> String.list_ascii_of_string s.

End Tls.

(** ** The capability list in memory

    [get_server_capabilities] once more, with the list it gets from the
    backend held in memory: a NULL-terminated table of pointers to strings,
    each of them allocated.  A block is a string or a table (its entries
    before the NULL); [None] is a memory error. *)

Module Caps.

Inductive block :=
| Text (s : string)
| Table (entries : list nat).

Definition free (a : nat) (m : gmap nat block) : option (gmap nat block) :=
  match m !! a with
  | Some _ => Some (delete a m)
  | None => None
  end.

Definition read_text (m : gmap nat block) (a : nat) : option string :=
  match m !! a with
  | Some (Text s) => Some s
  | _ => None
  end.

(** [for (i = 0; cpblts_list[i] != NULL; i++) free(cpblts_list[i]);] *)
Fixpoint free_entries (entries : list nat) (m : gmap nat block)
  : option (gmap nat block) :=
  match entries with
  | [] => Some m
  | a :: rest =>
      match free a m with
      | Some m => free_entries rest m
      | None => None
      end
  end.

(** The result, the memory left and what is logged. *)
Definition get_server_capabilities (cpblts_list : option nat)
    (nc_cpblts_new : list string → option (list string))
    (m : gmap nat block)
  : option (option (list string) * gmap nat block * list event) :=
  match cpblts_list with
  | None =>
      Some (None, m,
            [ClbPrint NC_VERB_ERROR "Cannot get server capabilities!"])
  | Some cpblts_list =>
      match m !! cpblts_list with
      | Some (Table entries) =>
          (* Fill server capabilities structure *)
          match mapM (read_text m) entries with
          | Some strings =>
              let srv_cpblts := nc_cpblts_new strings in
              (* cleanup *)
              match free_entries entries m with
              | Some m =>
                  match free cpblts_list m with
                  | Some m => Some (srv_cpblts, m, [])
                  | None => None
                  end
              | None => None
              end
          | None => None
          end
      | _ => None
      end
  end.

End Caps.

(** ** Signals while the program runs

    [main] installs [signal_handler] with [sigaction] and blocks no signal
    outside the handler, so that a signal may arrive between any two
    commands of the program, those of [process_message] and of the clean-up
    included.  What arrives, and when, is decided outside the program. *)

(** How a run of the agent ends: [main] returns, the handler calls [exit],
    a signal without handler ends the process, nothing more happens while
    the process waits in [poll], or the program leaves defined behaviour (a
    memory error). *)
Inductive outcome :=
| Returned (status : Z) (p : process)
| Exited (status : Z) (p : process)
| Killed (sig : Z) (p : process)
| Waiting (p : process)
| Crashed.

(** [sigaction(sig, &action, NULL)], on the table of the signals that have a
    handler.  The call fails for [SIGKILL] and [SIGSTOP], which cannot be
    caught, and for a number that is no signal; [main] does not look at what
    it returns. *)
Definition sigaction (sig : Z) (handlers : list Z) : list Z :=
  if (sig <? 1) || (NSIG <? sig) || (sig =? SIGKILL) || (sig =? SIGSTOP)
  then handlers
  else sig :: handlers.

(** What the system does with a signal that has no handler, after
    [signal(7)]: it is discarded, or it stops or continues the process,
    which is then taken up where it was, or it ends the process. *)
Definition default_action_ends (sig : Z) : bool :=
  negb (bool_decide (sig ∈ [SIGCHLD; SIGCONT; SIGSTOP; SIGTSTP; SIGTTIN;
                            SIGTTOU; SIGURG; SIGWINCH])).

Inductive fate :=
| Survived (p : process)
| Exits (status : Z) (p : process)
| Dies (sig : Z) (p : process).

(** One signal arrives. *)
Definition arrive (handlers : list Z) (sig : Z) (p : process) : fate :=
  if bool_decide (sig ∈ handlers) then
    match signal_handler sig p with
    | Resumed p => Survived p
    | Terminated status p => Exits status p
    end
  else if (1 <=? sig) && (sig <=? NSIG) && default_action_ends sig
  then Dies sig p
  else Survived p.

(** Signals arrive one after the other, as long as the process lives.  The
    handler runs with all signals blocked ([sigfillset]), so that no handler
    interrupts another. *)
Fixpoint arrive_all (handlers : list Z) (sigs : list Z) (p : process)
  : fate :=
  match sigs with
  | [] => Survived p
  | sig :: rest =>
      match arrive handlers sig p with
      | Survived p => arrive_all handlers rest p
      | Exits status p => Exits status p
      | Dies sig p => Dies sig p
      end
  end.

(** The signals to come: each with the number of commands the program runs
    between the arrival before it and its own. *)
Definition schedule := list (nat * Z).

(** The signals that arrive before the next command, and the schedule
    after it. *)
Fixpoint due (σ : schedule) : list Z * schedule :=
  match σ with
  | [] => ([], [])
  | (O, sig) :: rest => let '(now, later) := due rest in (sig :: now, later)
  | (S n, sig) :: rest => ([], (n, sig) :: rest)
  end.

(** Around the process: the handlers installed and the signals to come. *)
Record world := World {
  handlers : list Z;
  coming : schedule
}.

(** ** Commands run one at a time

    A program whose commands are run one at a time, the signals that are
    due arriving before each of them.  It yields a value, or the process
    has ended. *)

Inductive result (A : Type) : Type :=
| Value (a : A) (w : world) (p : process)
| Ended (o : outcome).

Arguments Value {A} a w p.
Arguments Ended {A} o.

Definition Steps (A : Type) : Type := world → process → result A.

#[global] Instance Steps_ret : MRet Steps := λ A a w p, Value a w p.
#[global] Instance Steps_bind : MBind Steps := λ A B k c w p,
  match c w p with
  | Value a w p => k a w p
  | Ended o => Ended o
  end.

(** One command: the signals due arrive, then the command runs to its
    end. *)
Definition step {A} (m : M A) : Steps A := λ w p,
  let '(now, later) := due (coming w) in
  match arrive_all (handlers w) now p with
  | Survived p =>
      match m p with
      | Some (a, p) => Value a (World (handlers w) later) p
      | None => Ended Crashed
      end
  | Exits status p => Ended (Exited status p)
  | Dies sig p => Ended (Killed sig p)
  end.

(** A use of memory that is not defined. *)
Definition undefined {A} : M A := λ _, None.

(** ** Dispatch of one request, command by command

    [process_message] once more, as a program of steps: the same text, each
    command of it a step of its own, so that a signal can arrive between
    any two of them. *)

Module Stepwise.

Definition clb_print (level : NC_VERB_LEVEL) (msg : string) : Steps unit :=
  step (clb_print level msg).
Definition nc_verb_error (msg : string) : Steps unit :=
  step (nc_verb_error msg).
Definition set_done (v : Z) : Steps unit := step (set_done v).
Definition store (a : nat) (o : object) : Steps unit := step (store a o).
Definition nc_reply_ok : Steps nat := step nc_reply_ok.
Definition nc_reply_error (e : nc_err) : Steps nat :=
  step (nc_reply_error e).
Definition nc_reply_get_type (reply : nat) : Steps NC_REPLY_TYPE :=
  step (nc_reply_get_type reply).
Definition nc_reply_free (reply : nat) : Steps unit :=
  step (nc_reply_free reply).
Definition nc_rpc_dup (rpc : nc_rpc) : Steps nat := step (nc_rpc_dup rpc).
Definition nc_session_send_reply (session : nc_session) (rpc : nc_rpc)
    (reply : nat) : Steps unit :=
  step (nc_session_send_reply session rpc reply).
Definition comm_close (a : answers) (conn : conn_t) : Steps Z :=
  step (comm_close a conn).
Definition comm_kill_session (a : answers) (conn : conn_t)
    (sid : option string) : Steps nat :=
  step (comm_kill_session a conn sid).
Definition comm_operation (a : answers) (conn : conn_t) (rpc : nc_rpc)
  : Steps nat :=
  step (comm_operation a conn rpc).
Definition ncntf_subscription_check (a : answers) (rpc : nc_rpc)
  : Steps nat :=
  step (ncntf_subscription_check a rpc).
Definition malloc (a : answers) : Steps (option nat) := step (malloc a).
Definition pthread_create (a : answers) (arg : nat) : Steps Z :=
  step (pthread_create a arg).
Definition pthread_detach : Steps unit := step pthread_detach.

Definition build_reply (a : answers) (session : nc_session) (conn : conn_t)
    (rpc : nc_rpc) : Steps nat :=
  match nc_rpc_get_op rpc with
  | NC_OP_CLOSESESSION =>
      r ← comm_close a conn;
      reply ← (if negb (r =? EXIT_SUCCESS)
               then nc_reply_error (nc_err_new NC_ERR_OP_FAILED)
               else nc_reply_ok);
      set_done 1;;
      mret reply
  | NC_OP_KILLSESSION =>
      let corrupted :=
        clb_print NC_VERB_ERROR "Corrupted RPC message.";;
        nc_reply_error (nc_err_new NC_ERR_OP_FAILED) in
      let no_session_id :=
        clb_print NC_VERB_ERROR "No session id found.";;
        nc_reply_error
          (nc_err_set (nc_err_new NC_ERR_MISSING_ELEM)
                      NC_ERR_PARAM_INFO_BADELEM "session-id") in
      match ncxml_rpc_get_op_content rpc with
      | None => corrupted
      | Some op =>
          match name op with
          | None => corrupted
          | Some _ =>
              if xmlStrEqual (name op) "kill-session" =? 0 then corrupted
              else
                match children op with
                | [] => no_session_id
                | child :: _ =>
                    if xmlStrEqual (name child) "session-id" =? 0
                    then no_session_id
                    else
                      let sid := xmlNodeGetContent child in
                      comm_kill_session a conn sid
                end
          end
      end
  | NC_OP_CREATESUBSCRIPTION =>
      if nc_cpblts_enabled session NOTIFICATION_CAPABILITY =? 0 then
        nc_reply_error (nc_err_new NC_ERR_OP_NOT_SUPPORTED)
      else if nc_session_notif_allowed session =? 0 then
        clb_print NC_VERB_ERROR
          "Notification subscription is not allowed on this session.";;
        let err := nc_err_new NC_ERR_OP_FAILED in
        let err := nc_err_set err NC_ERR_PARAM_TYPE "protocol" in
        let err := nc_err_set err NC_ERR_PARAM_MSG
          "Another notification subscription is currently active on this session." in
        nc_reply_error err
      else
        reply ← ncntf_subscription_check a rpc;
        ty ← nc_reply_get_type reply;
        if negb (bool_decide (ty = NC_REPLY_OK)) then mret reply
        else
          ntf_config ← malloc a;
          match ntf_config with
          | None =>
              clb_print NC_VERB_ERROR "Memory allocation failed.";;
              let err := nc_err_new NC_ERR_OP_FAILED in
              let err := nc_err_set err NC_ERR_PARAM_MSG
                           "Memory allocation failed." in
              nc_reply_error err
          | Some ntf_config =>
              dup ← nc_rpc_dup rpc;
              store ntf_config (ObjNtfConfig (NtfThreadConfig session dup));;
              r ← pthread_create a ntf_config;
              if negb (r =? 0) then
                nc_reply_free reply;;
                let err := nc_err_new NC_ERR_OP_FAILED in
                let err := nc_err_set err NC_ERR_PARAM_MSG
                  "Creating thread for sending Notifications failed." in
                nc_reply_error err
              else
                pthread_detach;;
                mret reply
          end
  | _ =>
      comm_operation a conn rpc
  end.

Definition process_message (a : answers) (session : nc_session)
    (conn : conn_t) (rpc : option nc_rpc) : Steps Z :=
  match rpc with
  | None =>
      nc_verb_error "Invalid RPC to process.";;
      mret EXIT_FAILURE
  | Some rpc =>
      reply ← build_reply a session conn rpc;
      (* send_reply: *)
      nc_session_send_reply session rpc reply;;
      nc_reply_free reply;;
      mret EXIT_SUCCESS
  end.

(** [sigaction(sig, &action, NULL)] with [action.sa_handler] set to
    [signal_handler]. *)
Definition sigaction (sig : Z) : Steps unit := λ w p,
  match step (mret tt) w p with
  | Value _ w p => Value tt (World (sigaction sig (handlers w)) (coming w)) p
  | Ended o => Ended o
  end.

Definition nc_session_free : Steps unit := step (say SessionFree).
Definition nc_close : Steps unit := step (say NcClose).

End Stepwise.

(** ** Start-up and the session loop *)

(** What the collaborators answer during the handshake, and the signals
    that arrive during it.  [su_enable_tls] says that the agent was built
    with [ENABLE_TLS]; [su_getenv] is the environment, [su_malloc] says
    whether the [malloc] of [get_tls_username] succeeds. *)
Record startup := Startup {
  su_signals : schedule;
  su_nc_init : Z;
  su_comm_connect : option conn_t;
  su_comm_get_srv_cpblts : option (list string);
  su_nc_cpblts_new : list string → option (list string);
  su_enable_tls : bool;
  su_getenv : string → option string;
  su_malloc : bool;
  su_nc_session_accept_username :
    list string → option (list (option Ascii.ascii)) → option nc_session;
  su_getuid : Z;
  su_getpwnam : list (option Ascii.ascii) → option Z;
  su_nc_session_accept : list string → option nc_session;
  su_comm_session_info : Z
}.

(** What happens during one pass of the loop: the signals that arrive
    while the process waits in [poll], what [poll] returns, what
    [nc_session_recv_rpc] returns and the state it leaves the session in,
    the answers for the request, and the signals that arrive later in the
    pass, after [poll] has returned. *)
Record pass := Pass {
  signals : list Z;
  poll_ret : Z;
  errno : Z;
  revents : Z;
  recv_type : NC_MSG_TYPE;
  recv_rpc : option nc_rpc;
  recv_session : nc_session;
  sheet : answers;
  interrupts : schedule
}.

(** How a pass of the loop ends. *)
Inductive flow :=
| Continue (netconf_con : nc_session) (p : process)
| Cleanup (netconf_con : nc_session) (p : process)
| Exit (status : Z) (p : process)
| Kill (sig : Z) (p : process)
| Fault.

(** Where the body of the loop goes on: back to the test of [done], or to
    the label [cleanup]. *)
Inductive branch :=
| Again (netconf_con : nc_session)
| Leave (netconf_con : nc_session).

Definition get_server_capabilities (su : startup) (conn : conn_t)
  : M (option (list string)) :=
  match su_comm_get_srv_cpblts su with
  | None =>
      clb_print NC_VERB_ERROR "Cannot get server capabilities!";;
      mret None
  | Some cpblts_list => mret (su_nc_cpblts_new su cpblts_list)
  end.

Definition nc_session_recv_rpc (e : pass) (netconf_con : nc_session)
  : NC_MSG_TYPE * option nc_rpc * nc_session :=
  (recv_type e, recv_rpc e, recv_session e).

(** The handlers in place once [main] has made its five calls of
    [sigaction]: the one for [SIGKILL] fails. *)
Definition installed : list Z :=
  sigaction SIGKILL
    (sigaction SIGTERM
       (sigaction SIGABRT (sigaction SIGQUIT (sigaction SIGINT [])))).

(** [continue], or the end of the body: the next command is the test of
    [done]. *)
Definition again (netconf_con : nc_session) : Steps branch :=
  step (mret (Again netconf_con)).

(** The body of [while (!done)] once [poll] has returned. *)
Definition after_poll (e : pass) (con : conn_t) (netconf_con : nc_session)
  : Steps branch :=
  let ret := poll_ret e in
  if (ret <? 0) && negb (errno e =? EINTR) then
    (* poll error *)
    Stepwise.clb_print NC_VERB_ERROR "poll failed.";;
    mret (Leave netconf_con)
  else if ret =? 0 then
    (* timeout *)
    again netconf_con
  else if ret >? 0 then
    (* event occured *)
    if negb (Z.land (revents e) POLLHUP =? 0) then
      (* client hung up *)
      Stepwise.clb_print NC_VERB_VERBOSE "Connection closed by client";;
      Stepwise.comm_close (sheet e) con;;
      mret (Leave netconf_con)
    else if negb (Z.land (revents e) POLLERR =? 0) then
      (* I/O error *)
      Stepwise.clb_print NC_VERB_ERROR "I/O error.";;
      mret (Leave netconf_con)
    else if negb (Z.land (revents e) POLLIN =? 0) then
      (* data ready *)
      r ← step (mret (nc_session_recv_rpc e netconf_con));
      let '(rpc_type, rpc, netconf_con) := r in
      if negb (bool_decide (rpc_type = NC_MSG_RPC)) then
        match rpc_type with
        | NC_MSG_NONE => again netconf_con
        | NC_MSG_UNKNOWN =>
            if negb (bool_decide (nc_session_get_status netconf_con
                                  = NC_SESSION_STATUS_WORKING))
            then
              Stepwise.clb_print NC_VERB_ERROR
                "Failed to receive clinets message";;
              mret (Leave netconf_con)
            else again netconf_con
        | _ => again netconf_con
        end
      else
        Stepwise.clb_print NC_VERB_VERBOSE "Processing client message";;
        r ← Stepwise.process_message (sheet e) netconf_con con rpc;
        (if negb (r =? EXIT_SUCCESS)
         then Stepwise.clb_print NC_VERB_WARNING "Message processing failed"
         else mret tt);;
        (* nc_rpc_free(rpc); rpc = NULL; *)
        again netconf_con
    else again netconf_con
  else again netconf_con.

(** One pass: the wait in [poll], during which [signals e] arrive, and
    the body. *)
Definition loop_body (e : pass) (con : conn_t) (netconf_con : nc_session)
    (p : process) : flow :=
  match arrive_all installed (signals e) p with
  | Survived p =>
      match after_poll e con netconf_con (World installed (interrupts e)) p
      with
      | Value (Again netconf_con) _ p => Continue netconf_con p
      | Value (Leave netconf_con) _ p => Cleanup netconf_con p
      | Ended (Exited status p) => Exit status p
      | Ended (Killed sig p) => Kill sig p
      | Ended _ => Fault
      end
  | Exits status p => Exit status p
  | Dies sig p => Kill sig p
  end.

(** The label [cleanup] of [main]; [rpc] is NULL there.  The signals of
    [fin] arrive while it runs. *)
Definition cleanup (fin : schedule) (p : process) : outcome :=
  match (Stepwise.nc_session_free;;
         Stepwise.nc_close;;
         step (mret EXIT_SUCCESS)) (World installed fin) p
  with
  | Value status _ p => Returned status p
  | Ended o => o
  end.

(** [while (!done) { ... }] over the passes that happen; when nothing more
    happens the process is left waiting in [poll]. *)
Fixpoint session_loop (script : list pass) (fin : schedule) (con : conn_t)
    (netconf_con : nc_session) (p : process) : outcome :=
  if negb (done p =? 0) then cleanup fin p
  else
    match script with
    | [] => Waiting p
    | e :: rest =>
        match loop_body e con netconf_con p with
        | Continue netconf_con p => session_loop rest fin con netconf_con p
        | Cleanup _ p => cleanup fin p
        | Exit status p => Exited status p
        | Kill sig p => Killed sig p
        | Fault => Crashed
        end
    end.

(** [clb_print(NC_VERB_ERROR, msg); return EXIT_FAILURE;] *)
Definition fail_with (msg : string) : Steps (Z + conn_t * nc_session) :=
  Stepwise.clb_print NC_VERB_ERROR msg;;
  step (mret (inl EXIT_FAILURE)).

(** The accept of the client session.  Under [ENABLE_TLS] and with
    [SSL_CLIENT_DN] set the user name comes from [get_tls_username] (as
    compiled without [PATCHED_STUNNEL]), whose memory errors are those of
    the process; [getpwnam] is then called on it when the agent runs as
    root, also when it is NULL. *)
Definition accept_session (su : startup) (capabilities : list string)
  : Steps (option nc_session) :=
  if su_enable_tls su && bool_decide (is_Some (su_getenv su "SSL_CLIENT_DN"))
  then
    (* try to get client certificate from stunnel *)
    username ← step (r ← Tls.get_tls_username (su_getenv su) (su_malloc su);
                     match r with
                     | Tls.Returns username => mret username
                     | Tls.NullDereference | Tls.OutOfBounds _ _ => undefined
                     end);
    (* accept client session and handle capabilities *)
    netconf_con ←
      step (mret (su_nc_session_accept_username su capabilities username));
    (* switch user if possible/needed *)
    (if su_getuid su =? 0 then
       (* we are going to drop privileges forever *)
       pw ← step (match username with
                  | Some name => mret (su_getpwnam su name)
                  | None => undefined
                  end);
       match pw with
       | Some pw_uid => step (say (Setuid pw_uid))
       | None => mret tt
       end
     else mret tt);;
    (* free(username); *)
    mret netconf_con
  else
    (* there is probably SSH transport *)
    step (mret (su_nc_session_accept su capabilities)).

(** [main] up to the loop: the status it returns with, or the connection
    and the session it enters the loop with.  [openlog], the statistics of
    [nc_session_monitor] and the release of the capabilities change nothing
    that is modelled. *)
Definition handshake (su : startup) : Steps (Z + conn_t * nc_session) :=
  (* set signal handler *)
  Stepwise.sigaction SIGINT;;
  Stepwise.sigaction SIGQUIT;;
  Stepwise.sigaction SIGABRT;;
  Stepwise.sigaction SIGTERM;;
  Stepwise.sigaction SIGKILL;;
  (* initialize library *)
  r ← step (mret (su_nc_init su));
  if r <? 0 then fail_with "Library initialization failed"
  else
    (* connect to server *)
    con ← step (mret (su_comm_connect su));
    match con with
    | None => fail_with "Cannot connect to Netopeer server."
    | Some con =>
        Stepwise.clb_print NC_VERB_VERBOSE "Connected with Netopeer server";;
        (* get server capabilities *)
        capabilities ← step (get_server_capabilities su con);
        match capabilities with
        | None => fail_with "Cannot get server capabilities."
        | Some capabilities =>
            netconf_con ← accept_session su capabilities;
            match netconf_con with
            | None => fail_with "Failed to connect agent."
            | Some netconf_con =>
                (* monitor this session and build statistics *)
                r ← step (mret (su_comm_session_info su));
                if negb (r =? 0) then
                  fail_with "Failed to comunicate with server."
                else
                  Stepwise.clb_print NC_VERB_VERBOSE "Handshake finished";;
                  step (mret (inr (con, netconf_con)))
            end
        end
    end.

(** [main]: the handshake under the signals of [su], starting with no
    handler in place, the loop over [script], the clean-up under the
    signals of [fin].  The handshake leaves the handlers of [installed],
    under which the loop and the clean-up run. *)
Definition main (su : startup) (script : list pass) (fin : schedule)
  : outcome :=
  match handshake su (World [] (su_signals su)) boot with
  | Value (inl status) _ p => Returned status p
  | Value (inr (con, netconf_con)) _ p =>
      session_loop script fin con netconf_con p
  | Ended o => o
  end.

(** ** Reading the trace *)

(** The replies sent, oldest first. *)
Definition sent_reply (e : event) : option (nc_rpc * nat * nc_reply) :=
  match e with
  | SendReply rpc reply r => Some (rpc, reply, r)
  | _ => None
  end.

Definition sent (tr : list event) : list (nc_rpc * nat * nc_reply) :=
  omap sent_reply tr.

(** The threads started. *)
Definition thread_arg (e : event) : option nat :=
  match e with
  | PthreadCreate arg => Some arg
  | _ => None
  end.

Definition threads (tr : list event) : list nat := omap thread_arg tr.

(** * Specifications

    The vocabulary of the properties: what the specification calls things,
    defined over the program above. *)

(** ** The shutdown controller *)

Inductive controller_state := running | stopping.

Inductive controller_step :=
| Stay (s : controller_state)
| Abort (status : Z).

(** The shutdown controller as the specification words it: a recognized
    signal moves [running] to [stopping]; a recognized signal in
    [stopping], or any other signal, ends the process with failure. *)
Definition controller (s : controller_state) (recognized : bool)
  : controller_step :=
  match recognized, s with
  | true, running => Stay stopping
  | true, stopping => Abort EXIT_FAILURE
  | false, _ => Abort EXIT_FAILURE
  end.

Definition state_of (p : process) : controller_state :=
  if done p =? 0 then running else stopping.

Definition abstract (h : handled) : controller_step :=
  match h with
  | Resumed p => Stay (state_of p)
  | Terminated s _ => Abort s
  end.

(** ** Commands and what they leave in the trace *)

(** [wp m p Q]: command [m] runs on [p] without a memory error and its
    result satisfies [Q]. *)
Definition wp {A} (m : M A) (p : process) (Q : A → process → Prop) : Prop :=
  ∃ a p', m p = Some (a, p') ∧ Q a p'.

(** [quiet p p']: from [p] to [p'] the trace only grew, and by no reply. *)
Definition quiet (p p' : process) : Prop :=
  ∃ pre, trace p' = trace p ++ pre ∧ sent pre = [].

(** What the caller holds stays live. *)
Definition keeps (p p' : process) : Prop :=
  ∀ h o, heap p !! h = Some o → heap p' !! h = Some o.

(** [dispatch_sends a s conn rpc p r p']: on request [rpc] the dispatcher
    returns success in state [p'], having sent the reply [r] and no other. *)
Definition dispatch_sends (a : answers) (s : nc_session) (conn : conn_t)
    (rpc : nc_rpc) (p : process) (r : nc_reply) (p' : process) : Prop :=
  process_message a s conn (Some rpc) p = Some (EXIT_SUCCESS, p') ∧
  ∃ reply, sent (trace p') = sent (trace p) ++ [(rpc, reply, r)].

(** ** kill-session payloads *)

(** The payload is structurally corrupt: there is no operation element, or
    it is not named [kill-session] (or has no name). *)
Definition corrupted (rpc : nc_rpc) : Prop :=
  match ncxml_rpc_get_op_content rpc with
  | None => True
  | Some op => name op ≠ Some "kill-session"
  end.

(** The child element expected to hold the target session identifier: the
    first child of the operation element, when it is named [session-id]. *)
Definition session_id_child (rpc : nc_rpc) : option xmlNode :=
  match ncxml_rpc_get_op_content rpc with
  | None => None
  | Some op =>
      match children op with
      | [] => None
      | child :: _ =>
          if decide (name child = Some "session-id") then Some child
          else None
      end
  end.

Definition missing_session_id : nc_reply :=
  ReplyError (nc_err_set (nc_err_new NC_ERR_MISSING_ELEM)
                NC_ERR_PARAM_INFO_BADELEM "session-id").

(** The child element named [session-id], wherever it stands among the
    children of the operation element. *)
Definition session_id_element (rpc : nc_rpc) : option xmlNode :=
  match ncxml_rpc_get_op_content rpc with
  | None => None
  | Some op =>
      head (filter (λ child, name child = Some "session-id") (children op))
  end.

(** The replies to a kill-session request, with the element taken to hold
    the identifier left open: operation-failed for a corrupt payload,
    missing-element naming [session-id] when the element is absent, and
    otherwise what the backend returns for the text of the element. *)
Definition kill_session_policy (expected : nc_rpc → option xmlNode)
    (a : answers) (s : nc_session) (conn : conn_t) (rpc : nc_rpc)
    (p : process) : Prop :=
  ∃ r p',
    dispatch_sends a s conn rpc p r p' ∧
    (corrupted rpc → r = ReplyError (nc_err_new NC_ERR_OP_FAILED)) ∧
    (¬ corrupted rpc → expected rpc = None → r = missing_session_id) ∧
    (¬ corrupted rpc → ∀ child, expected rpc = Some child →
     r = ans_comm_kill_session a (xmlNodeGetContent child) ∧
     CommKillSession conn (xmlNodeGetContent child) ∈ trace p').

(** ** The policy for create-subscription *)

(** The reply is an operation-not-supported error. *)
Definition not_supported (r : nc_reply) : Prop :=
  ∃ e, r = ReplyError e ∧ err_tag e = NC_ERR_OP_NOT_SUPPORTED.

(** The reply is an operation-failed error of type [protocol] carrying the
    message [msg]. *)
Definition already_active (msg : string) (r : nc_reply) : Prop :=
  ∃ e, r = ReplyError e ∧ err_tag e = NC_ERR_OP_FAILED ∧
       nc_err_get e NC_ERR_PARAM_TYPE = Some "protocol" ∧
       nc_err_get e NC_ERR_PARAM_MSG = Some msg.

(** The policy for a create-subscription request, with the message of the
    second rejection left open: without the notification capability the
    reply is operation-not-supported, whether or not the session is
    eligible; with it, on a session that is not eligible, the reply is the
    operation-failed error with [msg]. *)
Definition subscription_gate (msg : string) (a : answers) (s : nc_session)
    (conn : conn_t) (rpc : nc_rpc) (p : process) : Prop :=
  (NOTIFICATION_CAPABILITY ∉ capabilities s →
   ∃ r p', dispatch_sends a s conn rpc p r p' ∧ not_supported r) ∧
  (NOTIFICATION_CAPABILITY ∈ capabilities s →
   nc_session_notif_allowed s = 0 →
   ∃ r p', dispatch_sends a s conn rpc p r p' ∧ already_active msg r).

Definition ANOTHER_SUBSCRIPTION : string :=
  "Another notification subscription is currently active on this session.".

(** A create-subscription request that passes the capability check, the
    eligibility check and the subscription check. *)
Definition accepted (a : answers) (s : nc_session) (rpc : nc_rpc) : Prop :=
  nc_rpc_get_op rpc = NC_OP_CREATESUBSCRIPTION ∧
  NOTIFICATION_CAPABILITY ∈ capabilities s ∧
  nc_session_notif_allowed s ≠ 0 ∧
  reply_type (ans_ncntf_subscription_check a rpc) = NC_REPLY_OK.

Definition thread_failed : nc_reply :=
  ReplyError (nc_err_set (nc_err_new NC_ERR_OP_FAILED) NC_ERR_PARAM_MSG
                "Creating thread for sending Notifications failed.").

Definition allocation_failed : nc_reply :=
  ReplyError (nc_err_set (nc_err_new NC_ERR_OP_FAILED) NC_ERR_PARAM_MSG
                "Memory allocation failed.").

(** ** Signals, passes of the loop and start-up *)

(** [poll] reports data to read, and neither a hang-up nor an error. *)
Definition data_ready (e : pass) : Prop :=
  0 < poll_ret e ∧
  Z.land (revents e) POLLHUP = 0 ∧
  Z.land (revents e) POLLERR = 0 ∧
  Z.land (revents e) POLLIN ≠ 0.

(** The receive that follows yields no request. *)
Definition no_request (e : pass) : Prop :=
  data_ready e ∧ recv_type e ≠ NC_MSG_RPC.

(** No signal arrives during the pass, neither during the wait nor
    later. *)
Definition undisturbed (e : pass) : Prop :=
  signals e = [] ∧ interrupts e = [].

(** A malformed frame received on a session that stays in working order,
    with no signal around. *)
Definition malformed_frame (e : pass) : Prop :=
  undisturbed e ∧ data_ready e ∧ recv_type e = NC_MSG_UNKNOWN ∧
  nc_session_get_status (recv_session e) = NC_SESSION_STATUS_WORKING.

(** [poll] was interrupted by a signal. *)
Definition interrupted (e : pass) : Prop :=
  poll_ret e < 0 ∧ errno e = EINTR.

(** The capabilities [get_server_capabilities] hands to [main]. *)
Definition server_capabilities (su : startup) : option (list string) :=
  match su_comm_get_srv_cpblts su with
  | None => None
  | Some cpblts_list => su_nc_cpblts_new su cpblts_list
  end.

(** The agent was built with [ENABLE_TLS] and finds [SSL_CLIENT_DN] in its
    environment. *)
Definition tls_transport (su : startup) : bool :=
  su_enable_tls su && bool_decide (is_Some (su_getenv su "SSL_CLIENT_DN")).

(** The user name [get_tls_username] returns, when it does return. *)
Definition tls_username (su : startup)
  : option (option (list (option Ascii.ascii))) :=
  match Tls.get_tls_username (su_getenv su) (su_malloc su) boot with
  | Some (Tls.Returns username, _) => Some username
  | _ => None
  end.

(** The session [main] gets from the accept call it makes. *)
Definition accepted_session (su : startup) : option nc_session :=
  match server_capabilities su with
  | None => None
  | Some capabilities =>
      if tls_transport su then
        match tls_username su with
        | Some username =>
            su_nc_session_accept_username su capabilities username
        | None => None
        end
      else su_nc_session_accept su capabilities
  end.

(** One of the steps before the loop fails: library initialisation, the
    connection to the backend, the fetch of the capabilities, the accept of
    the session, its registration with the backend. *)
Definition startup_fails (su : startup) : Prop :=
  su_nc_init su < 0 ∨
  su_comm_connect su = None ∨
  server_capabilities su = None ∨
  accepted_session su = None ∨
  su_comm_session_info su ≠ 0.

(** The handshake reaches the TLS branch and leaves defined behaviour
    there: in [get_tls_username], or in [getpwnam] called on NULL when the
    agent runs as root. *)
Definition tls_fault (su : startup) : Prop :=
  0 ≤ su_nc_init su ∧ su_comm_connect su ≠ None ∧
  server_capabilities su ≠ None ∧ tls_transport su = true ∧
  (tls_username su = None ∨ tls_username su = Some None ∧ su_getuid su = 0).

(** ** Sessions, requests and passes to run the agent on *)

Definition quiet_backend : answers :=
  Answers EXIT_SUCCESS (λ _, ReplyOk) (λ _, ReplyData "<data/>")
          (λ _, ReplyOk) true 0.

(** The backend refuses to close. *)
Definition stubborn_backend : answers :=
  Answers EXIT_FAILURE (λ _, ReplyOk) (λ _, ReplyData "<data/>")
          (λ _, ReplyOk) true 0.

(** [pthread_create] returns [EAGAIN]. *)
Definition exhausted_system : answers :=
  Answers EXIT_SUCCESS (λ _, ReplyOk) (λ _, ReplyData "<data/>")
          (λ _, ReplyOk) true 11.

(** [malloc] returns NULL. *)
Definition no_memory : answers :=
  Answers EXIT_SUCCESS (λ _, ReplyOk) (λ _, ReplyData "<data/>")
          (λ _, ReplyOk) false 0.

Definition free_session : nc_session :=
  NcSession "7" ["urn:ietf:params:netconf:base:1.0"; NOTIFICATION_CAPABILITY]
            1 NC_SESSION_STATUS_WORKING.

Definition busy_session : nc_session :=
  NcSession "7" ["urn:ietf:params:netconf:base:1.0"; NOTIFICATION_CAPABILITY]
            0 NC_SESSION_STATUS_WORKING.

Definition subscribe_request : nc_rpc :=
  NcRpc "101" NC_OP_CREATESUBSCRIPTION
        (Some (XmlNode (Some "create-subscription") [] None)).

Definition close_request : nc_rpc :=
  NcRpc "102" NC_OP_CLOSESESSION
        (Some (XmlNode (Some "close-session") [] None)).

Definition kill_request : nc_rpc :=
  NcRpc "103" NC_OP_KILLSESSION
        (Some (XmlNode (Some "kill-session")
                 [XmlNode (Some "session-id") [] (Some "12")] None)).

(** A kill-session payload whose [session-id] comes second. *)
Definition kill_request_padded : nc_rpc :=
  NcRpc "104" NC_OP_KILLSESSION
        (Some (XmlNode (Some "kill-session")
                 [XmlNode (Some "comment") [] None;
                  XmlNode (Some "session-id") [] (Some "12")] None)).

Definition get_request : nc_rpc :=
  NcRpc "105" NC_OP_GET (Some (XmlNode (Some "get") [] None)).

(** An agent built without [ENABLE_TLS], started by [sshd]. *)
Definition good_startup : startup :=
  Startup [] 0 (Some 1%nat)
          (Some ["urn:ietf:params:netconf:base:1.0"; NOTIFICATION_CAPABILITY])
          (λ l, Some l) false (λ _, None) true (λ _ _, None) 1000
          (λ _, None)
          (λ capabilities,
             Some (NcSession "7" capabilities 1 NC_SESSION_STATUS_WORKING))
          0.

Definition no_backend : startup :=
  Startup [] 0 None None (λ l, Some l) false (λ _, None) true (λ _ _, None)
          1000 (λ _, None) (λ _, None) 0.

Definition malformed_pass : pass :=
  Pass [] 1 0 POLLIN NC_MSG_UNKNOWN None free_session quiet_backend [].

Definition hangup_pass : pass :=
  Pass [] 1 0 (Z.lor POLLIN POLLHUP) NC_MSG_NONE None free_session
       quiet_backend [].

Definition sigterm_pass : pass :=
  Pass [SIGTERM] (-1) EINTR 0 NC_MSG_NONE None free_session quiet_backend [].

Definition eintr_pass : pass :=
  Pass [] (-1) EINTR 0 NC_MSG_NONE None free_session quiet_backend [].

Definition request_pass (rpc : nc_rpc) : pass :=
  Pass [] 1 0 POLLIN NC_MSG_RPC (Some rpc) free_session quiet_backend [].

(** ** More vocabulary for the dispatcher *)

(** An operation the agent does not handle itself. *)
Definition delegated (op : NC_OP) : Prop :=
  op ≠ NC_OP_CLOSESESSION ∧ op ≠ NC_OP_KILLSESSION ∧
  op ≠ NC_OP_CREATESUBSCRIPTION.

(** A create-subscription request that passes the capability check and the
    eligibility check and is turned down by the subscription check. *)
Definition turned_down (a : answers) (s : nc_session) (rpc : nc_rpc) : Prop :=
  nc_rpc_get_op rpc = NC_OP_CREATESUBSCRIPTION ∧
  NOTIFICATION_CAPABILITY ∈ capabilities s ∧
  nc_session_notif_allowed s ≠ 0 ∧
  reply_type (ans_ncntf_subscription_check a rpc) ≠ NC_REPLY_OK.

(** The operation of a request, if there is a request. *)
Definition requested_op (rpc : option nc_rpc) : option NC_OP :=
  nc_rpc_get_op <$> rpc.

(** ** More vocabulary for the loop *)

(** A pass in which nothing is to be done: a timeout, an interrupted wait,
    an event with none of the three flags the loop looks at, or a receive
    that yields no request on a session still in working order; and no
    signal. *)
Definition idle_pass (e : pass) : Prop :=
  undisturbed e ∧
  (poll_ret e = 0 ∨ interrupted e ∨
   (0 < poll_ret e ∧ Z.land (revents e) POLLHUP = 0 ∧
    Z.land (revents e) POLLERR = 0 ∧ Z.land (revents e) POLLIN = 0) ∨
   (no_request e ∧
    (recv_type e = NC_MSG_UNKNOWN →
     nc_session_get_status (recv_session e) = NC_SESSION_STATUS_WORKING))).

(** A pass in which the request [rpc] is received, and no signal. *)
Definition request_of (e : pass) (rpc : nc_rpc) : Prop :=
  undisturbed e ∧ data_ready e ∧ recv_type e = NC_MSG_RPC ∧
  recv_rpc e = Some rpc.

(** A pass in which a request other than close-session is received. *)
Definition ordinary_pass (e : pass) : Prop :=
  ∃ rpc, request_of e rpc ∧ nc_rpc_get_op rpc ≠ NC_OP_CLOSESESSION.

(** The requests received during a script. *)
Definition requests (script : list pass) : list nc_rpc :=
  omap recv_rpc script.

(** The state a run ends in. *)
Definition last_state (o : outcome) : option process :=
  match o with
  | Returned _ p | Exited _ p | Killed _ p | Waiting p => Some p
  | Crashed => None
  end.

(** The releases of the session and of the library, oldest first. *)
Definition release_of (e : event) : option event :=
  match e with
  | SessionFree => Some SessionFree
  | NcClose => Some NcClose
  | _ => None
  end.

Definition releases (tr : list event) : list event := omap release_of tr.

(** The calls to the backend's [comm_close]. *)
Definition close_of (e : event) : option conn_t :=
  match e with
  | CommClose conn => Some conn
  | _ => None
  end.

Definition closes (tr : list event) : list conn_t := omap close_of tr.

(** ** Runs under signals *)

(** The calls in a trace: what is left of it without the log lines.  The
    signal handler only writes log lines. *)
Definition call_of (e : event) : option event :=
  match e with
  | ClbPrint _ _ | NcVerbError _ | StderrSignal _ => None
  | _ => Some e
  end.

Definition calls (tr : list event) : list event := omap call_of tr.

(** [follows p q]: [q] is [p] up to what signal handlers do, log lines and
    the flag set. *)
Definition follows (p q : process) : Prop :=
  heap q = heap p ∧ calls (trace q) = calls (trace p) ∧
  (done q = done p ∨ done q = 1).

(** A command that looks at the heap only, adds to the trace and leaves the
    flag alone or sets it. *)
Definition oblivious {A} (m : M A) : Prop :=
  ∀ p q, heap q = heap p →
    match m p with
    | Some (a, p') =>
        ∃ l q', trace p' = trace p ++ l ∧
                m q = Some (a, q') ∧ heap q' = heap p' ∧
                trace q' = trace q ++ l ∧
                (done p' = done p ∧ done q' = done q ∨
                 done p' = 1 ∧ done q' = 1)
    | None => m q = None
    end.

(** The command only adds to the trace. *)
Definition grows {A} (m : M A) : Prop :=
  ∀ p a p', m p = Some (a, p') → ∃ l, trace p' = trace p ++ l.

(** [cut_short m p q']: [q'] has the calls of a run of [m] from [p] that
    was cut short. *)
Definition cut_short {A} (m : M A) (p q' : process) : Prop :=
  ∃ l, calls (trace q') = calls (trace p) ++ calls l ∧
       ∀ a p', m p = Some (a, p') → ∃ l', trace p' = trace p ++ l ++ l'.

(** [tracks c m]: the program of steps [c] is the command [m] under
    signals.  With no signal to come it does what [m] does; under signals
    it yields what [m] yields, in a state that follows the one [m] ends in,
    unless the process is ended first, by the handler with failure status
    or by a signal without handler, with [m] cut short; and it runs into a
    memory error only where [m] does. *)
Definition tracks {A} (c : Steps A) (m : M A) : Prop :=
  grows m ∧
  (∀ h p, c (World h []) p =
          match m p with
          | Some (a, p') => Value a (World h []) p'
          | None => Ended Crashed
          end) ∧
  ∀ w p q, follows p q →
    match c w q with
    | Value a _ q' => ∃ p', m p = Some (a, p') ∧ follows p' q'
    | Ended (Exited st q') => st = EXIT_FAILURE ∧ cut_short m p q'
    | Ended (Killed _ q') => cut_short m p q'
    | Ended Crashed => m p = None
    | Ended (Returned _ _) | Ended (Waiting _) => False
    end.

(** How a program of steps may end the process: in the handler with
    failure status or by a signal without handler, in a state that
    satisfies [R], or by a memory error when [C] holds. *)
Definition ends (R : process → Prop) (C : Prop) (o : outcome) : Prop :=
  match o with
  | Exited st p => st = EXIT_FAILURE ∧ R p
  | Killed _ p => R p
  | Crashed => C
  | Returned _ _ | Waiting _ => False
  end.

(** [always c p Q R C]: whatever the handlers and the signals to come, [c]
    run from [p] yields a value and a state that satisfy [Q], or ends the
    process as [ends R C] says. *)
Definition always {A} (c : Steps A) (p : process)
    (Q : A → process → Prop) (R : process → Prop) (C : Prop) : Prop :=
  ∀ w, match c w p with
       | Value a _ p' => Q a p'
       | Ended o => ends R C o
       end.

(** ** Accounts of a run *)

(** The calls a run may add to the trace before the clean-up: no release,
    at most [n] replies, at most one call of [comm_close]. *)
Definition accounts (con : conn_t) (n : nat) (l : list event) : Prop :=
  releases l = [] ∧ (length (sent l) ≤ n)%nat ∧
  (closes l = [] ∨ closes l = [con]).

(** What one pass adds to the accounts. *)
Definition pass_accounts (con : conn_t) (p : process) (f : flow) : Prop :=
  match f with
  | Continue _ p' =>
      ∃ l, calls (trace p') = calls (trace p) ++ l ∧ accounts con 1 l ∧
           (closes l = [] ∨ done p' = 1)
  | Cleanup _ p' =>
      ∃ l, calls (trace p') = calls (trace p) ++ l ∧ accounts con 0 l
  | Exit st p' =>
      st = EXIT_FAILURE ∧
      ∃ l, calls (trace p') = calls (trace p) ++ l ∧ accounts con 1 l
  | Kill _ p' =>
      ∃ l, calls (trace p') = calls (trace p) ++ l ∧ accounts con 1 l
  | Fault => False
  end.

(** The accounts of the loop and the clean-up, from the state the loop
    starts in to the state the run ends in: the calls of the passes, and
    then the two releases, of which a process ended by a signal may have
    made none or the first only. *)
Definition run_accounts (con : conn_t) (n : nat) (p : process) (o : outcome)
  : Prop :=
  match o with
  | Returned st p' =>
      st = EXIT_SUCCESS ∧
      ∃ l, calls (trace p') = calls (trace p) ++ l ++ [SessionFree; NcClose] ∧
           accounts con n l
  | Exited st p' =>
      st = EXIT_FAILURE ∧
      ∃ l r, calls (trace p') = calls (trace p) ++ l ++ r ∧
             accounts con n l ∧ r `prefix_of` [SessionFree; NcClose]
  | Killed _ p' =>
      ∃ l r, calls (trace p') = calls (trace p) ++ l ++ r ∧
             accounts con n l ∧ r `prefix_of` [SessionFree; NcClose]
  | Waiting p' =>
      ∃ l, calls (trace p') = calls (trace p) ++ l ∧ accounts con n l
  | Crashed => False
  end.

(** Nothing was sent, closed or released so far. *)
Definition nothing_yet (p : process) : Prop :=
  sent (trace p) = [] ∧ closes (trace p) = [] ∧ releases (trace p) = [].

(** With no signal to come, a program of steps yields its value or runs
    into a memory error. *)
Definition undisturbed_run {A} (c : Steps A) : Prop :=
  ∀ w p, coming w = [] →
    match c w p with
    | Value _ w' _ => coming w' = []
    | Ended Crashed => True
    | Ended _ => False
    end.

(** A program of steps that leaves the table of handlers as it is. *)
Definition keeps_handlers {A} (c : Steps A) : Prop :=
  ∀ w p, match c w p with
         | Value _ w' _ => handlers w' = handlers w
         | Ended _ => True
         end.

(** The accounts of a whole run before the clean-up: no release, at most
    [n] replies, at most one call of [comm_close], on the connection made at
    start-up. *)
Definition whole_accounts (su : startup) (n : nat) (l : list event) : Prop :=
  releases l = [] ∧ (length (sent l) ≤ n)%nat ∧
  (closes l = [] ∨ ∃ con, su_comm_connect su = Some con ∧ closes l = [con]).

(** The signals the handler was run for, oldest first. *)
Definition handled_signal (e : event) : option Z :=
  match e with
  | StderrSignal sig => Some sig
  | _ => None
  end.

Definition signals_handled (tr : list event) : list Z :=
  omap handled_signal tr.

(** ** The causes of a failure exit *)

(** A close-session request is among what the passes bring. *)
Definition close_session_received (script : list pass) : Prop :=
  ∃ e rpc, e ∈ script ∧ recv_type e = NC_MSG_RPC ∧ recv_rpc e = Some rpc ∧
           nc_rpc_get_op rpc = NC_OP_CLOSESESSION.

(** The flag and the handler are accounted for: the handler has run for
    signals of [installed] only, and the flag is set for a cause, which is
    that the handler has run, or [K]. *)
Definition accounted (K : Prop) (p : process) : Prop :=
  Forall (λ sig, sig ∈ installed) (signals_handled (trace p)) ∧
  (done p ≠ 0 → signals_handled (trace p) ≠ [] ∨ K).

(** The handler has run twice, or once under [K]. *)
Definition impatient (K : Prop) (p : process) : Prop :=
  (2 ≤ length (signals_handled (trace p)))%nat ∨
  K ∧ signals_handled (trace p) ≠ [].

(** A command that only adds to the trace, nothing of the handler's, and
    sets the flag under [K] only. *)
Definition steady (K : Prop) {A} (m : M A) : Prop :=
  ∀ p a p', m p = Some (a, p') →
    (∃ l, trace p' = trace p ++ l ∧ signals_handled l = []) ∧
    (done p' = done p ∨ K).

(** A program of steps that keeps [accounted K] under the handlers of
    [installed], and in which the handler ends the process for a cause
    only. *)
Definition accountable (K : Prop) {A} (c : Steps A) : Prop :=
  ∀ w p, handlers w ⊆ installed → accounted K p →
    match c w p with
    | Value _ w' p' => handlers w' ⊆ installed ∧ accounted K p'
    | Ended (Exited st p') =>
        st = EXIT_FAILURE ∧ accounted K p' ∧ impatient K p'
    | Ended (Killed _ p') => accounted K p'
    | Ended Crashed => True
    | Ended (Returned _ _) | Ended (Waiting _) => False
    end.

(** What the handshake leaves: the status [main] returns with when a step
    fails, or the connection and the session for the loop. *)
Definition handshake_result (su : startup) (r : Z + conn_t * nc_session)
  : Prop :=
  match r with
  | inl st => st = EXIT_FAILURE ∧ startup_fails su
  | inr (con, _) => su_comm_connect su = Some con ∧ ¬ startup_fails su
  end.

(** ** More sessions, passes and memories to run the agent on *)

(** The subscription check turns the request down. *)
Definition strict_check : answers :=
  Answers EXIT_SUCCESS (λ _, ReplyOk) (λ _, ReplyData "<data/>")
          (λ _, ReplyError (nc_err_new NC_ERR_BAD_ELEM)) true 0.

Definition timeout_pass : pass :=
  Pass [] 0 0 0 NC_MSG_NONE None free_session quiet_backend [].

Definition poll_error_pass : pass :=
  Pass [] (-1) 9 0 NC_MSG_NONE None free_session quiet_backend [].

Definition io_error_pass : pass :=
  Pass [] 1 0 (Z.lor POLLIN POLLERR) NC_MSG_NONE None free_session
       quiet_backend [].

(** The receive announces a request and hands over none. *)
Definition null_pass : pass :=
  Pass [] 1 0 POLLIN NC_MSG_RPC None free_session quiet_backend [].

(** A request arrives while a termination signal is delivered. *)
Definition last_request_pass : pass :=
  Pass [SIGTERM] 1 0 POLLIN NC_MSG_RPC (Some get_request) free_session
       quiet_backend [].

(** A process whose heap holds a thread configuration and the copy of the
    request it points to. *)
Definition subscribed : process :=
  Process 0
    (<[1%nat:=ObjNtfConfig (NtfThreadConfig free_session 2)]>
       (<[2%nat:=ObjRpc subscribe_request]> ∅))
    [].

Definition stunnel_env (name : string) : option string :=
  if decide (name = "SSL_CLIENT_DN")
  then Some "/C=CZ/O=CESNET/CN=john/emailAddress=john@example.org"
  else None.

(** A list of two capabilities, as the backend hands it over. *)
Definition two_capabilities : gmap nat Caps.block :=
  <[10%nat:=Caps.Table [11%nat; 12%nat]]>
    (<[11%nat:=Caps.Text "urn:ietf:params:netconf:base:1.0"]>
       (<[12%nat:=Caps.Text NOTIFICATION_CAPABILITY]> ∅)).

(** * Proofs *)

(** ** Reasoning about commands *)

Lemma wp_ret {A} (a : A) p Q : Q a p → wp (mret a) p Q.
Proof. intros H. exists a, p. split; [reflexivity | exact H]. Qed.

Lemma wp_bind {A B} (m : M A) (k : A → M B) p Q :
  wp m p (λ a p', wp (k a) p' Q) → wp (m ≫= k) p Q.
Proof.
  intros (a & p' & Hm & b & p'' & Hk & HQ). exists b, p''.
  split; [| exact HQ]. unfold mbind, M_bind. rewrite Hm. exact Hk.
Qed.

Lemma wp_mono {A} (m : M A) p (Q Q' : A → process → Prop) :
  wp m p Q → (∀ a p', Q a p' → Q' a p') → wp m p Q'.
Proof. intros (a & p' & Hm & HQ) H. exists a, p'. eauto. Qed.

Lemma wp_say e p Q : Q tt (emit e p) → wp (say e) p Q.
Proof. intros H. exists tt, (emit e p). split; [reflexivity | exact H]. Qed.

Lemma wp_set_done v p Q :
  Q tt (Process v (heap p) (trace p)) → wp (set_done v) p Q.
Proof. intros H. eexists _, _. split; [reflexivity | exact H]. Qed.

Lemma fresh_not_live (h : gmap nat object) : h !! fresh (dom h) = None.
Proof. apply not_elem_of_dom, is_fresh. Qed.

Lemma wp_new_object o p Q :
  (∀ a, heap p !! a = None →
        Q a (Process (done p) (<[a:=o]> (heap p)) (trace p))) →
  wp (new_object o) p Q.
Proof.
  intros H. eexists _, _. split; [reflexivity |].
  apply H, fresh_not_live.
Qed.

Lemma wp_store a o o' p Q :
  heap p !! a = Some o' →
  Q tt (Process (done p) (<[a:=o]> (heap p)) (trace p)) →
  wp (store a o) p Q.
Proof.
  intros Ha H. eexists _, _. split; [| exact H].
  unfold store. rewrite Ha. reflexivity.
Qed.

Lemma wp_free a o p Q :
  heap p !! a = Some o →
  Q tt (Process (done p) (delete a (heap p)) (trace p)) →
  wp (free a) p Q.
Proof.
  intros Ha H. eexists _, _. split; [| exact H].
  unfold free. rewrite Ha. reflexivity.
Qed.

Lemma wp_load_reply a r p Q :
  heap p !! a = Some (ObjReply r) → Q r p → wp (load_reply a) p Q.
Proof.
  intros Ha H. exists r, p. split; [| exact H].
  unfold load_reply. rewrite Ha. reflexivity.
Qed.

Lemma wp_load_config a c p Q :
  heap p !! a = Some (ObjNtfConfig c) → Q c p → wp (load_config a) p Q.
Proof.
  intros Ha H. exists c, p. split; [| exact H].
  unfold load_config. rewrite Ha. reflexivity.
Qed.

Lemma wp_nc_reply_get_type a r p Q :
  heap p !! a = Some (ObjReply r) → Q (reply_type r) p →
  wp (nc_reply_get_type a) p Q.
Proof.
  intros Ha H. apply wp_bind, (wp_load_reply _ r); [exact Ha |].
  apply wp_ret, H.
Qed.

Lemma wp_nc_reply_free a r p Q :
  heap p !! a = Some (ObjReply r) →
  Q tt (Process (done p) (delete a (heap p)) (trace p ++ [ReplyFree a])) →
  wp (nc_reply_free a) p Q.
Proof.
  intros Ha H. apply wp_bind, (wp_load_reply _ r); [exact Ha |].
  apply wp_bind, (wp_free _ (ObjReply r)); [exact Ha |].
  apply wp_say, H.
Qed.

Lemma wp_nc_rpc_free a r p Q :
  heap p !! a = Some (ObjRpc r) →
  Q tt (Process (done p) (delete a (heap p)) (trace p)) →
  wp (nc_rpc_free a) p Q.
Proof.
  intros Ha H. eexists _, _. split; [| exact H].
  unfold nc_rpc_free, free. rewrite Ha. reflexivity.
Qed.

Lemma wp_nc_session_send_reply s rpc a r p Q :
  heap p !! a = Some (ObjReply r) →
  Q tt (emit (SendReply rpc a r) p) →
  wp (nc_session_send_reply s rpc a) p Q.
Proof.
  intros Ha H. apply wp_bind, (wp_load_reply _ r); [exact Ha |].
  apply wp_say, H.
Qed.

Lemma wp_ncntf_dispatch_send s a r p Q :
  heap p !! a = Some (ObjRpc r) →
  Q tt (emit (NtfDispatchSend a) p) →
  wp (ncntf_dispatch_send s a) p Q.
Proof.
  intros Ha H. eexists _, _. split; [| exact H].
  unfold ncntf_dispatch_send. rewrite Ha. reflexivity.
Qed.

(** *** Symbolic execution of commands *)

Ltac heap_fact :=
  cbn [heap done trace emit] in *;
  repeat match goal with
         | H : <[_:=_]> _ !! _ = None |- _ =>
             apply lookup_insert_None in H as [H ?]
         end;
  repeat first
    [ rewrite lookup_insert_eq
    | rewrite lookup_delete_eq
    | rewrite lookup_insert_ne by congruence
    | rewrite lookup_delete_ne by congruence ];
  try reflexivity; try eassumption.

Ltac wp_step :=
  cbn [heap done trace emit];
  lazymatch goal with
  | |- wp (mret _) _ _ => apply wp_ret
  | |- wp (_ ≫= _) _ _ => apply wp_bind
  | |- wp (say _) _ _ => apply wp_say
  | |- wp (clb_print _ _) _ _ => apply wp_say
  | |- wp (nc_verb_error _) _ _ => apply wp_say
  | |- wp pthread_detach _ _ => apply wp_say
  | |- wp (set_done _) _ _ => apply wp_set_done
  | |- wp (new_object _) _ _ => apply wp_new_object; intros ? ?
  | |- wp nc_reply_ok _ _ => apply wp_new_object; intros ? ?
  | |- wp (nc_reply_error _) _ _ => apply wp_new_object; intros ? ?
  | |- wp (nc_rpc_dup _) _ _ => apply wp_new_object; intros ? ?
  | |- wp (ncntf_subscription_check _ _) _ _ =>
      apply wp_new_object; intros ? ?
  | |- wp (comm_close _ _) _ _ => unfold comm_close
  | |- wp (comm_kill_session _ _ _) _ _ => unfold comm_kill_session
  | |- wp (comm_operation _ _ _) _ _ => unfold comm_operation
  | |- wp (malloc _) _ _ => unfold malloc
  | |- wp (pthread_create _ _) _ _ => unfold pthread_create
  | |- wp (nc_reply_get_type _) _ _ =>
      eapply wp_nc_reply_get_type; [heap_fact |]
  | |- wp (nc_reply_free _) _ _ => eapply wp_nc_reply_free; [heap_fact |]
  | |- wp (nc_rpc_free _) _ _ => eapply wp_nc_rpc_free; [heap_fact |]
  | |- wp (free _) _ _ => eapply wp_free; [heap_fact |]
  | |- wp (store _ _) _ _ => eapply wp_store; [heap_fact |]
  | |- wp (load_config _) _ _ => eapply wp_load_config; [heap_fact |]
  | |- wp (nc_session_send_reply _ _ _) _ _ =>
      eapply wp_nc_session_send_reply; [heap_fact |]
  | |- wp (ncntf_dispatch_send _ _) _ _ =>
      eapply wp_ncntf_dispatch_send; [heap_fact |]
  | |- wp (if ?c then _ else _) _ _ => destruct c eqn:?
  | |- wp (match ?c with _ => _ end) _ _ => destruct c eqn:?
  end.

(** ** The trace of a dispatch *)

Lemma sent_app tr1 tr2 : sent (tr1 ++ tr2) = sent tr1 ++ sent tr2.
Proof.
  unfold sent. induction tr1 as [| e tr1 IH]; [reflexivity |].
  cbn. destruct (sent_reply e); cbn; rewrite IH; reflexivity.
Qed.

Lemma threads_app tr1 tr2 :
  threads (tr1 ++ tr2) = threads tr1 ++ threads tr2.
Proof.
  unfold threads. induction tr1 as [| e tr1 IH]; [reflexivity |].
  cbn. destruct (thread_arg e); cbn; rewrite IH; reflexivity.
Qed.

Ltac quiet_done :=
  unfold quiet; cbn [heap done trace emit]; rewrite <- ?app_assoc;
  first [ exists []; split; [symmetry; apply app_nil_r | reflexivity]
        | eexists; split; reflexivity ].

Ltac keeps_done :=
  let h := fresh "h" in
  let o := fresh "o" in
  let Hh := fresh "Hh" in
  intros h o Hh; cbn [heap done trace emit] in *;
  repeat match goal with
         | H : <[_:=_]> _ !! _ = None |- _ =>
             apply lookup_insert_None in H as [H ?]
         | H : delete _ _ !! _ = None |- _ =>
             apply lookup_delete_None in H as [-> | H]
         end;
  repeat match goal with
         | H : heap _ !! ?a = None |- _ =>
             lazymatch goal with
             | _ : h ≠ a |- _ => fail
             | _ => assert (h ≠ a) by (intros ->; congruence)
             end
         end;
  repeat first
    [ rewrite lookup_insert_ne by congruence
    | rewrite lookup_delete_ne by congruence ];
  exact Hh.

Lemma build_reply_total a s conn rpc p :
  wp (build_reply a s conn rpc) p (λ reply p',
    (∃ r, heap p' !! reply = Some (ObjReply r)) ∧ heap p !! reply = None ∧
    quiet p p' ∧ keeps p p').
Proof.
  unfold build_reply.
  destruct (nc_rpc_get_op rpc) eqn:Hop.
  all: repeat wp_step.
  all: (split; [eexists; heap_fact | split; [| split]]);
    [ | quiet_done | keeps_done ].
  all: cbn [heap done trace emit] in *;
    repeat match goal with
           | H : <[_:=_]> _ !! _ = None |- _ =>
               apply lookup_insert_None in H as [H ?]
           | H : delete _ _ !! _ = None |- _ =>
               apply lookup_delete_None in H as [-> | H]
           end; assumption.
Qed.

(** ** Dispatch sends one reply *)

(** From the reply built by the [switch] to the end of [process_message]. *)
Lemma process_message_from_build a s conn rpc p
    (Q : nat → nc_reply → process → Prop) :
  wp (build_reply a s conn rpc) p (λ reply pb,
    ∃ r, heap pb !! reply = Some (ObjReply r) ∧ quiet p pb ∧ Q reply r pb) →
  ∃ reply r pb pre,
    process_message a s conn (Some rpc) p =
      Some (EXIT_SUCCESS,
            Process (done pb) (delete reply (heap pb))
                    (trace p ++ pre ++ [SendReply rpc reply r; ReplyFree reply]))
    ∧ trace pb = trace p ++ pre ∧ sent pre = [] ∧ Q reply r pb.
Proof.
  intros (reply & pb & Hb & r & Hlive & (pre & Htr & Hpre) & HQ).
  exists reply, r, pb, pre. split; [| auto].
  unfold process_message, mbind, M_bind. rewrite Hb.
  unfold nc_session_send_reply, nc_reply_free, load_reply, free, say,
    mbind, M_bind, mret, M_ret, emit; cbn.
  rewrite Hlive; cbn. rewrite Hlive; cbn. rewrite Hlive; cbn.
  rewrite Htr, <- !app_assoc. reflexivity.
Qed.

Lemma sent_dispatch tr pre rpc reply r :
  sent pre = [] →
  sent (tr ++ pre ++ [SendReply rpc reply r; ReplyFree reply])
  = sent tr ++ [(rpc, reply, r)].
Proof. intros H. rewrite !sent_app, H. reflexivity. Qed.

Lemma dispatch_sends_from_build a s conn rpc p
    (Q : nat → nc_reply → process → Prop) :
  wp (build_reply a s conn rpc) p (λ reply pb,
    ∃ r, heap pb !! reply = Some (ObjReply r) ∧ quiet p pb ∧ Q reply r pb) →
  ∃ reply r pb p',
    dispatch_sends a s conn rpc p r p' ∧ Q reply r pb ∧
    done p' = done pb ∧ heap p' = delete reply (heap pb) ∧
    threads (trace p') = threads (trace pb).
Proof.
  intros H. apply process_message_from_build in H
    as (reply & r & pb & pre & Hpm & Htr & Hpre & HQ).
  eexists reply, r, pb, _. split; [split; [exact Hpm |] |].
  - exists reply. cbn [trace]. apply sent_dispatch, Hpre.
  - cbn [done heap trace]. rewrite Htr, app_assoc, threads_app. cbn.
    rewrite app_nil_r. auto.
Qed.

(** A non-null request is always processed to the end, with success. *)
Lemma process_message_returns a s conn rpc p :
  ∃ p', process_message a s conn (Some rpc) p = Some (EXIT_SUCCESS, p').
Proof.
  destruct (process_message_from_build a s conn rpc p (λ _ _ _, True))
    as (reply & r & pb & pre & Hpm & _).
  { eapply wp_mono; [apply build_reply_total |].
    intros reply pb ((r & Hr) & _ & Hq & _). eauto. }
  eexists. exact Hpm.
Qed.

(** C1. For every non-null request, whatever its operation,
    [process_message] returns success after sending exactly one reply on
    the session: the calls it adds to the trace end with the send of that
    reply followed by its release, nothing before them is a send, the reply
    object is no longer live on return, and every object that was live
    before the call still is. *)
Theorem process_message_one_reply a s conn rpc p :
  ∃ reply r pre p',
    process_message a s conn (Some rpc) p = Some (EXIT_SUCCESS, p') ∧
    trace p' = trace p ++ pre ++ [SendReply rpc reply r; ReplyFree reply] ∧
    sent pre = [] ∧
    sent (trace p') = sent (trace p) ++ [(rpc, reply, r)] ∧
    heap p !! reply = None ∧ heap p' !! reply = None ∧ keeps p p'.
Proof.
  destruct (process_message_from_build a s conn rpc p
              (λ reply _ pb, heap p !! reply = None ∧ keeps p pb))
    as (reply & r & pb & pre & Hpm & Htr & Hpre & Hnew & Hkeep).
  { eapply wp_mono; [apply build_reply_total |].
    intros reply pb ((r & Hr) & Hnew & Hq & Hk). eauto. }
  eexists reply, r, pre, _. split; [exact Hpm |]. cbn [trace heap].
  split; [reflexivity |]. split; [exact Hpre |].
  split; [apply sent_dispatch, Hpre |]. split; [exact Hnew |].
  split; [apply lookup_delete_eq |].
  intros h o Hh. cbn [heap]. rewrite lookup_delete_ne.
  - apply Hkeep, Hh.
  - intros ->. congruence.
Qed.

(** ** The null request *)

(** C9. Called with a null request, [process_message] returns failure, sends
    no reply and leaves the shutdown flag and the heap as they were (the
    session is not touched: no call on it is added to the trace); and a
    null request is the only one for which it returns failure. *)
Theorem process_message_null a s conn p :
  (∃ p', process_message a s conn None p = Some (EXIT_FAILURE, p') ∧
         done p' = done p ∧ heap p' = heap p ∧
         trace p' = trace p ++ [NcVerbError "Invalid RPC to process."] ∧
         sent (trace p') = sent (trace p)) ∧
  (∀ rpc, (∃ p', process_message a s conn rpc p = Some (EXIT_FAILURE, p'))
          ↔ rpc = None).
Proof.
  split.
  - eexists. split; [reflexivity |]. cbn.
    rewrite sent_app, app_nil_r. auto.
  - intros rpc. split.
    + intros [p' H]. destruct rpc as [rpc |]; [| reflexivity].
      destruct (process_message_returns a s conn rpc p) as (p'' & Hpm).
      rewrite Hpm in H. discriminate.
    + intros ->. eexists. reflexivity.
Qed.

(** ** close-session *)

Lemma build_reply_close_session a s conn rpc p :
  nc_rpc_get_op rpc = NC_OP_CLOSESESSION →
  wp (build_reply a s conn rpc) p (λ reply pb,
    ∃ r, heap pb !! reply = Some (ObjReply r) ∧ quiet p pb ∧
         (r = (if ans_comm_close a =? EXIT_SUCCESS then ReplyOk
               else ReplyError (nc_err_new NC_ERR_OP_FAILED)) ∧
          done pb = 1 ∧
          trace pb = trace p ++ [CommClose conn])).
Proof.
  intros Hop. unfold build_reply. rewrite Hop.
  repeat wp_step.
  all: eexists; split; [heap_fact | split; [quiet_done |]].
  all: destruct (ans_comm_close a =? EXIT_SUCCESS); try discriminate.
  all: auto.
Qed.

(** C5. For every close-session request the dispatcher asks the backend to
    close, sends one reply, [<ok/>] when the backend returned success and an
    operation-failed error otherwise, and in both cases returns with the
    shutdown flag set. *)
Theorem close_session_sets_done a s conn rpc p :
  nc_rpc_get_op rpc = NC_OP_CLOSESESSION →
  ∃ r p',
    dispatch_sends a s conn rpc p r p' ∧
    done p' = 1 ∧
    (ans_comm_close a = EXIT_SUCCESS → r = ReplyOk) ∧
    (ans_comm_close a ≠ EXIT_SUCCESS →
     r = ReplyError (nc_err_new NC_ERR_OP_FAILED)).
Proof.
  intros Hop.
  destruct (dispatch_sends_from_build a s conn rpc p _
              (build_reply_close_session a s conn rpc p Hop))
    as (reply & r & pb & p' & Hd & (Hr & Hdone & _) & Hdone' & _).
  exists r, p'. split; [exact Hd |]. split; [congruence |].
  subst r. split; intros H.
  - rewrite H. reflexivity.
  - apply Z.eqb_neq in H. rewrite H. reflexivity.
Qed.

(** ** kill-session *)

Lemma xmlStrEqual_true s lit :
  (xmlStrEqual s lit =? 0) = false ↔ s = Some lit.
Proof.
  unfold xmlStrEqual. destruct s as [s |]; [| easy].
  destruct (decide (s = lit)) as [-> | Hne]; cbn; split; try easy.
  intros [= ->]. contradiction.
Qed.

Lemma xmlStrEqual_false s lit :
  (xmlStrEqual s lit =? 0) = true ↔ s ≠ Some lit.
Proof.
  rewrite <- xmlStrEqual_true.
  destruct (xmlStrEqual s lit =? 0); split; congruence.
Qed.

Lemma build_reply_kill_session a s conn rpc p :
  nc_rpc_get_op rpc = NC_OP_KILLSESSION →
  wp (build_reply a s conn rpc) p (λ reply pb,
    ∃ r, heap pb !! reply = Some (ObjReply r) ∧ quiet p pb ∧
      ((corrupted rpc → r = ReplyError (nc_err_new NC_ERR_OP_FAILED)) ∧
       (¬ corrupted rpc → session_id_child rpc = None →
        r = missing_session_id) ∧
       (¬ corrupted rpc → ∀ child, session_id_child rpc = Some child →
        r = ans_comm_kill_session a (xmlNodeGetContent child) ∧
        trace pb =
          trace p ++ [CommKillSession conn (xmlNodeGetContent child)]))).
Proof.
  intros Hop. unfold build_reply. rewrite Hop.
  repeat wp_step.
  all: eexists; split; [heap_fact | split; [quiet_done |]].
  all: unfold corrupted, session_id_child.
  all: repeat match goal with
         | H : ncxml_rpc_get_op_content _ = _ |- _ => rewrite H
         | H : children _ = _ |- _ => rewrite H
         | H : (xmlStrEqual _ _ =? 0) = true |- _ =>
             apply xmlStrEqual_false in H
         | H : (xmlStrEqual _ _ =? 0) = false |- _ =>
             apply xmlStrEqual_true in H
         end.
  all: repeat match goal with
         | H : name _ = _ |- _ => rewrite H in *
         end.
  all: cbn [heap done trace emit].
  all: repeat split; intros; repeat case_decide; simplify_eq; try tauto.
  all: try reflexivity; try contradiction.
  all: exfalso; match goal with H : ¬ _ ≠ _ |- _ => apply H end; discriminate.
Qed.

(** When no child at all is named [session-id] the expected child is absent. *)
Lemma session_id_child_absent rpc op :
  ncxml_rpc_get_op_content rpc = Some op →
  (∀ c, c ∈ children op → name c ≠ Some "session-id") →
  session_id_child rpc = None.
Proof.
  intros Hop Hall. unfold session_id_child. rewrite Hop.
  destruct (children op) as [| child rest]; [reflexivity |].
  case_decide as Hn; [| reflexivity].
  exfalso. apply (Hall child); [set_solver | exact Hn].
Qed.

(** C4. For every kill-session request the dispatcher sends one reply: an
    operation-failed error when the payload is corrupt (no operation element,
    or one not named [kill-session]); a missing-element error naming
    [session-id] when the element expected to hold the identifier is absent,
    that is when no child is named [session-id] and, more generally, when
    the first child of the operation element, the one the code looks at, is
    missing or has another name; and otherwise what the backend's
    [comm_kill_session] returns for the text of that child. *)
Theorem kill_session_replies a s conn rpc p :
  nc_rpc_get_op rpc = NC_OP_KILLSESSION →
  ∃ r p',
    dispatch_sends a s conn rpc p r p' ∧
    (corrupted rpc →
     r = ReplyError (nc_err_new NC_ERR_OP_FAILED)) ∧
    (∀ op, ncxml_rpc_get_op_content rpc = Some op →
           name op = Some "kill-session" →
           (∀ c, c ∈ children op → name c ≠ Some "session-id") →
           r = missing_session_id) ∧
    (¬ corrupted rpc → session_id_child rpc = None →
     r = ReplyError (nc_err_set (nc_err_new NC_ERR_MISSING_ELEM)
                       NC_ERR_PARAM_INFO_BADELEM "session-id") ∧
     ∃ e, r = ReplyError e ∧ err_tag e = NC_ERR_MISSING_ELEM ∧
          nc_err_get e NC_ERR_PARAM_INFO_BADELEM = Some "session-id") ∧
    (¬ corrupted rpc → ∀ child, session_id_child rpc = Some child →
     r = ans_comm_kill_session a (xmlNodeGetContent child) ∧
     CommKillSession conn (xmlNodeGetContent child) ∈ trace p').
Proof.
  intros Hop.
  destruct (process_message_from_build a s conn rpc p _
              (build_reply_kill_session a s conn rpc p Hop))
    as (reply & r & pb & pre & Hpm & Htr & Hpre & Hc & Hm & Hk).
  eexists r, _. split; [split; [exact Hpm |] |].
  { exists reply. apply sent_dispatch, Hpre. }
  split; [exact Hc |]. split; [| split].
  - intros op Hcontent Hname Hall. apply Hm.
    + unfold corrupted. rewrite Hcontent. intros H. apply H, Hname.
    + eapply session_id_child_absent; eassumption.
  - intros Hnc Hnone. specialize (Hm Hnc Hnone). split; [exact Hm |].
    subst r. eexists. split; [reflexivity |]. split; reflexivity.
  - intros Hnc child Hsome. pose proof (Hk Hnc child Hsome) as [Hr Htr'].
    split; [exact Hr |]. cbn [trace]. rewrite app_assoc, <- Htr, Htr'.
    rewrite !elem_of_app, list_elem_of_singleton. auto.
Qed.

(** ** create-subscription: the two gates *)

Lemma nc_cpblts_enabled_none s uri :
  (nc_cpblts_enabled s uri =? 0) = true ↔ uri ∉ capabilities s.
Proof. unfold nc_cpblts_enabled. case_decide; cbn; split; easy. Qed.

Lemma nc_cpblts_enabled_some s uri :
  (nc_cpblts_enabled s uri =? 0) = false ↔ uri ∈ capabilities s.
Proof. unfold nc_cpblts_enabled. case_decide; cbn; split; easy. Qed.

Lemma build_reply_not_supported a s conn rpc p :
  nc_rpc_get_op rpc = NC_OP_CREATESUBSCRIPTION →
  NOTIFICATION_CAPABILITY ∉ capabilities s →
  wp (build_reply a s conn rpc) p (λ reply pb,
    ∃ r, heap pb !! reply = Some (ObjReply r) ∧ quiet p pb ∧
         r = ReplyError (nc_err_new NC_ERR_OP_NOT_SUPPORTED)).
Proof.
  intros Hop Hcap. unfold build_reply. rewrite Hop.
  apply nc_cpblts_enabled_none in Hcap. rewrite Hcap.
  repeat wp_step.
  eexists; split; [heap_fact | split; [quiet_done | reflexivity]].
Qed.

Lemma build_reply_not_allowed a s conn rpc p :
  nc_rpc_get_op rpc = NC_OP_CREATESUBSCRIPTION →
  NOTIFICATION_CAPABILITY ∈ capabilities s →
  nc_session_notif_allowed s = 0 →
  wp (build_reply a s conn rpc) p (λ reply pb,
    ∃ r, heap pb !! reply = Some (ObjReply r) ∧ quiet p pb ∧
         r = ReplyError
               (nc_err_set
                  (nc_err_set (nc_err_new NC_ERR_OP_FAILED)
                     NC_ERR_PARAM_TYPE "protocol")
                  NC_ERR_PARAM_MSG ANOTHER_SUBSCRIPTION)).
Proof.
  intros Hop Hcap Hntf. unfold build_reply. rewrite Hop.
  apply nc_cpblts_enabled_some in Hcap. rewrite Hcap, Hntf.
  change (0 =? 0) with true. cbv iota.
  repeat wp_step.
  eexists; split; [heap_fact | split; [quiet_done | reflexivity]].
Qed.

(** C2, as amended.  For every create-subscription request: when the
    session's capabilities lack the notification capability the reply is an
    operation-not-supported error, whatever the eligibility of the session
    (the capability is checked first); otherwise, when the session is not
    eligible for a new subscription, the reply is an operation-failed error
    of error-type [protocol] with the message "Another notification
    subscription is currently active on this session." *)
Theorem create_subscription_gates a s conn rpc p :
  nc_rpc_get_op rpc = NC_OP_CREATESUBSCRIPTION →
  subscription_gate ANOTHER_SUBSCRIPTION a s conn rpc p.
Proof.
  intros Hop. split.
  - intros Hcap.
    destruct (dispatch_sends_from_build a s conn rpc p _
                (build_reply_not_supported a s conn rpc p Hop Hcap))
      as (reply & r & pb & p' & Hd & -> & _).
    eexists _, p'. split; [exact Hd |]. eexists. split; reflexivity.
  - intros Hcap Hntf.
    destruct (dispatch_sends_from_build a s conn rpc p _
                (build_reply_not_allowed a s conn rpc p Hop Hcap Hntf))
      as (reply & r & pb & p' & Hd & -> & _).
    eexists _, p'. split; [exact Hd |]. eexists.
    split; [reflexivity |]. repeat split; reflexivity.
Qed.

(** *** The message the specification quotes *)

(** C2, as the specification words it, fails: on a session that has the
    notification capability and already holds a subscription, the message of
    the operation-failed reply is not "a subscription is already active on
    this session". *)
Lemma create_subscription_message_differs :
  ¬ subscription_gate "a subscription is already active on this session"
      quiet_backend busy_session 1%nat subscribe_request boot.
Proof.
  intros [_ H].
  destruct H as (r & p' & [Hpm (reply & Hsent)] & e & -> & _ & _ & Hmsg).
  - unfold busy_session. cbn. set_solver.
  - reflexivity.
  - vm_compute in Hpm. injection Hpm as <-.
    vm_compute in Hsent. injection Hsent as _ <-.
    vm_compute in Hmsg. discriminate.
Qed.

(** ** create-subscription: setting up the notification thread *)

Lemma accepted_enters a s conn rpc :
  accepted a s rpc →
  build_reply a s conn rpc =
    (reply ← ncntf_subscription_check a rpc;
     ty ← nc_reply_get_type reply;
     if negb (bool_decide (ty = NC_REPLY_OK)) then mret reply
     else
       ntf_config ← malloc a;
       match ntf_config with
       | None =>
           clb_print NC_VERB_ERROR "Memory allocation failed.";;
           nc_reply_error
             (nc_err_set (nc_err_new NC_ERR_OP_FAILED) NC_ERR_PARAM_MSG
                "Memory allocation failed.")
       | Some ntf_config =>
           dup ← nc_rpc_dup rpc;
           store ntf_config (ObjNtfConfig (NtfThreadConfig s dup));;
           r ← pthread_create a ntf_config;
           if negb (r =? 0) then
             nc_reply_free reply;;
             nc_reply_error
               (nc_err_set (nc_err_new NC_ERR_OP_FAILED) NC_ERR_PARAM_MSG
                  "Creating thread for sending Notifications failed.")
           else
             pthread_detach;;
             mret reply
       end).
Proof.
  intros (Hop & Hcap & Hntf & _). unfold build_reply. rewrite Hop.
  apply nc_cpblts_enabled_some in Hcap. rewrite Hcap.
  apply Z.eqb_neq in Hntf. rewrite Hntf. reflexivity.
Qed.

(** When [malloc] fails the reply is the operation-failed error. *)
Lemma build_reply_allocation_failed a s conn rpc p :
  accepted a s rpc → ans_malloc a = false →
  wp (build_reply a s conn rpc) p (λ reply pb,
    ∃ r, heap pb !! reply = Some (ObjReply r) ∧ quiet p pb ∧
         r = allocation_failed).
Proof.
  intros Hacc Hmalloc. rewrite (accepted_enters a s conn rpc Hacc).
  destruct Hacc as (_ & _ & _ & Hty).
  unfold malloc. rewrite Hmalloc.
  repeat wp_step.
  - rewrite Hty in *. discriminate.
  - eexists; split; [heap_fact | split; [quiet_done | reflexivity]].
Qed.

(** When [pthread_create] fails the reply is the operation-failed error,
    no thread runs, and the thread configuration and the duplicate of the
    request, both allocated by this call, are still live. *)
Lemma build_reply_thread_failed a s conn rpc p :
  accepted a s rpc → ans_malloc a = true → ans_pthread_create a ≠ 0 →
  wp (build_reply a s conn rpc) p (λ reply pb,
    ∃ r, heap pb !! reply = Some (ObjReply r) ∧ quiet p pb ∧
      (r = thread_failed ∧
       threads (trace pb) = threads (trace p) ∧
       ∃ ntf_config dup,
         heap p !! ntf_config = None ∧ heap p !! dup = None ∧
         ntf_config ≠ reply ∧ dup ≠ reply ∧
         heap pb !! ntf_config = Some (ObjNtfConfig (NtfThreadConfig s dup)) ∧
         heap pb !! dup = Some (ObjRpc rpc))).
Proof.
  intros Hacc Hmalloc Hthread. rewrite (accepted_enters a s conn rpc Hacc).
  destruct Hacc as (_ & _ & _ & Hty).
  unfold malloc, pthread_create. rewrite Hmalloc.
  apply Z.eqb_neq in Hthread. rewrite Hthread.
  repeat wp_step.
  - rewrite Hty in *. discriminate.
  - eexists; split; [heap_fact | split; [quiet_done |]].
    split; [reflexivity |]. split.
    { cbn [trace]. rewrite threads_app, app_nil_r. reflexivity. }
    cbn [heap done trace emit] in *.
    match goal with
    | Hc : _ !! ?c = None, Hd : <[?c:=ObjUninit]> _ !! ?d = None |- _ =>
        exists c, d
    end.
    repeat match goal with
           | H : <[_:=_]> _ !! _ = None |- _ =>
               apply lookup_insert_None in H as [H ?]
           | H : delete _ _ !! _ = None |- _ =>
               apply lookup_delete_None in H as [-> | H]
           end.
    all: repeat split; try assumption; try congruence; heap_fact.
  - rewrite Hthread in *. discriminate.
Qed.

(** When the thread starts, the reply is the one of the subscription check
    and the thread owns the configuration and the duplicate. *)
Lemma build_reply_thread_started a s conn rpc p :
  accepted a s rpc → ans_malloc a = true → ans_pthread_create a = 0 →
  wp (build_reply a s conn rpc) p (λ reply pb,
    ∃ r, heap pb !! reply = Some (ObjReply r) ∧ quiet p pb ∧
      (r = ans_ncntf_subscription_check a rpc ∧
       ∃ ntf_config dup,
         threads (trace pb) = threads (trace p) ++ [ntf_config] ∧
         ntf_config ≠ reply ∧ dup ≠ reply ∧ ntf_config ≠ dup ∧
         heap pb !! ntf_config = Some (ObjNtfConfig (NtfThreadConfig s dup)) ∧
         heap pb !! dup = Some (ObjRpc rpc) ∧
         heap p !! ntf_config = None ∧ heap p !! dup = None ∧
         heap p !! reply = None ∧
         ∀ h, h ≠ ntf_config → h ≠ dup → h ≠ reply →
              heap pb !! h = heap p !! h)).
Proof.
  intros Hacc Hmalloc Hthread. rewrite (accepted_enters a s conn rpc Hacc).
  destruct Hacc as (_ & _ & _ & Hty).
  unfold malloc, pthread_create. rewrite Hmalloc, Hthread.
  change (0 =? 0) with true. cbv iota.
  repeat wp_step.
  - rewrite Hty in *. discriminate.
  - discriminate.
  - eexists; split; [heap_fact | split; [quiet_done |]].
    split; [reflexivity |].
    cbn [heap done trace emit] in *.
    match goal with
    | Hc : _ !! ?c = None, Hd : <[?c:=ObjUninit]> _ !! ?d = None |- _ =>
        exists c, d
    end.
    repeat match goal with
           | H : <[_:=_]> _ !! _ = None |- _ =>
               apply lookup_insert_None in H as [H ?]
           end.
    split; [rewrite !threads_app; cbn; rewrite app_nil_r; reflexivity |].
    repeat split; try congruence; try assumption; try (heap_fact; fail).
    intros h ? ? ?. heap_fact.
Qed.

(** The thread, once its stream ends, frees the duplicate and its
    configuration. *)
Lemma notification_thread_releases arg c rpc p :
  heap p !! arg = Some (ObjNtfConfig c) →
  heap p !! subscribe_rpc c = Some (ObjRpc rpc) →
  wp (notification_thread arg) p (λ _ p',
    heap p' = delete arg (delete (subscribe_rpc c) (heap p)) ∧
    done p' = done p).
Proof.
  intros Hcfg Hrpc. unfold notification_thread.
  assert (arg ≠ subscribe_rpc c) by (intros Heq; rewrite <- Heq in Hrpc; congruence).
  repeat wp_step. split; reflexivity.
Qed.

(** A failed allocation of the thread configuration is reported to the
    client as an operation-failed error. *)
Lemma process_message_allocation_failed a s conn rpc p :
  accepted a s rpc → ans_malloc a = false →
  ∃ p', dispatch_sends a s conn rpc p allocation_failed p'.
Proof.
  intros Hacc Hmalloc.
  destruct (dispatch_sends_from_build a s conn rpc p _
              (build_reply_allocation_failed a s conn rpc p Hacc Hmalloc))
    as (reply & r & pb & p' & Hd & -> & _).
  exists p'. exact Hd.
Qed.

(** A failed [pthread_create] is reported to the client as an
    operation-failed error; on return no thread has been started, and the
    duplicate of the request made for the thread, which did not exist
    before the call, is still live, as is the thread configuration that
    points to it. *)
Lemma process_message_thread_failed a s conn rpc p :
  accepted a s rpc → ans_malloc a = true → ans_pthread_create a ≠ 0 →
  ∃ p' ntf_config dup,
    dispatch_sends a s conn rpc p thread_failed p' ∧
    threads (trace p') = threads (trace p) ∧
    heap p !! ntf_config = None ∧ heap p !! dup = None ∧
    heap p' !! ntf_config = Some (ObjNtfConfig (NtfThreadConfig s dup)) ∧
    heap p' !! dup = Some (ObjRpc rpc).
Proof.
  intros Hacc Hmalloc Hthread.
  destruct (dispatch_sends_from_build a s conn rpc p _
              (build_reply_thread_failed a s conn rpc p Hacc Hmalloc Hthread))
    as (reply & r & pb & p' & Hd & (-> & Hthr & cfg & dup & Hc & Hdup & Hcr
                                     & Hdr & Hcfg' & Hdup')
        & _ & Hheap & Hthr').
  exists p', cfg, dup. split; [exact Hd |].
  split; [congruence |]. split; [exact Hc |]. split; [exact Hdup |].
  rewrite Hheap. rewrite !lookup_delete_ne by congruence. auto.
Qed.

(** When the thread does start it owns the duplicate, and frees it with
    its configuration when its stream ends: the heap is then what it was
    before the request. *)
Lemma process_message_thread_started a s conn rpc p :
  accepted a s rpc → ans_malloc a = true → ans_pthread_create a = 0 →
  ∃ p' ntf_config,
    dispatch_sends a s conn rpc p (ans_ncntf_subscription_check a rpc) p' ∧
    threads (trace p') = threads (trace p) ++ [ntf_config] ∧
    wp (notification_thread ntf_config) p' (λ _ p'', heap p'' = heap p).
Proof.
  intros Hacc Hmalloc Hthread.
  destruct (dispatch_sends_from_build a s conn rpc p _
              (build_reply_thread_started a s conn rpc p Hacc Hmalloc Hthread))
    as (reply & r & pb & p' & Hd & (-> & cfg & dup & Hthr & Hcr & Hdr & Hcd
                                     & Hcfg' & Hdup' & Hc & Hdp & Hr & Hframe)
        & _ & Hheap & Hthr').
  exists p', cfg. split; [exact Hd |]. split; [congruence |].
  eapply wp_mono.
  - eapply (notification_thread_releases cfg (NtfThreadConfig s dup) rpc).
    + rewrite Hheap, lookup_delete_ne by congruence. exact Hcfg'.
    + cbn. rewrite Hheap, lookup_delete_ne by congruence. exact Hdup'.
  - cbn. intros _ p'' [Hh _]. rewrite Hh, Hheap. apply map_eq. intros h.
    destruct (decide (h = cfg)) as [-> | Hn1].
    { rewrite lookup_delete_eq. congruence. }
    rewrite lookup_delete_ne by congruence.
    destruct (decide (h = dup)) as [-> | Hn2].
    { rewrite lookup_delete_eq. congruence. }
    rewrite lookup_delete_ne by congruence.
    destruct (decide (h = reply)) as [-> | Hn3].
    { rewrite lookup_delete_eq. congruence. }
    rewrite lookup_delete_ne by congruence.
    apply Hframe; assumption.
Qed.

(** *** A request whose thread cannot be started *)

Lemma subscribe_request_accepted a :
  reply_type (ans_ncntf_subscription_check a subscribe_request) = NC_REPLY_OK →
  accepted a free_session subscribe_request.
Proof.
  intros H. split; [reflexivity |]. split; [| split; [easy | exact H]].
  unfold free_session. cbn. rewrite !elem_of_cons. auto.
Qed.

(** C3, on the code.  A create-subscription request passes the three checks
    and [pthread_create] fails: the client is sent the operation-failed
    error, no thread has been started, and yet the duplicate of the request
    is still allocated when [process_message] returns, with nothing left to
    free it. *)
Theorem spawn_failure_leaks_duplicate :
  ∃ p' ntf_config dup,
    dispatch_sends exhausted_system free_session 1%nat subscribe_request
      boot thread_failed p' ∧
    threads (trace p') = [] ∧
    heap boot !! dup = None ∧
    heap p' !! ntf_config =
      Some (ObjNtfConfig (NtfThreadConfig free_session dup)) ∧
    heap p' !! dup = Some (ObjRpc subscribe_request).
Proof.
  destruct (process_message_thread_failed exhausted_system free_session
              1%nat subscribe_request boot)
    as (p' & cfg & dup & Hd & Hthr & _ & Hdup & Hcfg' & Hdup').
  - apply subscribe_request_accepted. reflexivity.
  - reflexivity.
  - discriminate.
  - exists p', cfg, dup. auto.
Qed.

(** ** The shutdown controller *)

Lemma recognized_spec sig :
  ((sig =? SIGINT) || (sig =? SIGTERM) || (sig =? SIGQUIT)
   || (sig =? SIGABRT) || (sig =? SIGKILL))
  = bool_decide (sig ∈ termination_signals).
Proof.
  symmetry.
  destruct ((sig =? SIGINT) || (sig =? SIGTERM) || (sig =? SIGQUIT)
            || (sig =? SIGABRT) || (sig =? SIGKILL)) eqn:E.
  - apply bool_decide_eq_true. unfold termination_signals.
    rewrite !elem_of_cons.
    rewrite !orb_true_iff, !Z.eqb_eq in E. tauto.
  - apply bool_decide_eq_false. unfold termination_signals.
    rewrite !elem_of_cons, elem_of_nil.
    rewrite !orb_false_iff, !Z.eqb_neq in E. tauto.
Qed.

(** C6. The signal handler implements the two-state shutdown controller:
    with [running] read as [done == 0] and [stopping] as any other value, a
    signal of the termination set received in [running] sets the flag and
    lets the process go on, now [stopping]; a signal of the termination set
    received in [stopping] ends the process with failure status; and a
    signal outside the set ends the process with failure status in either
    state. *)
Theorem signal_handler_refines_controller sig p :
  abstract (signal_handler sig p)
  = controller (state_of p) (bool_decide (sig ∈ termination_signals)).
Proof.
  unfold signal_handler. rewrite recognized_spec.
  destruct (bool_decide (sig ∈ termination_signals)); [| reflexivity].
  unfold state_of. cbn [done emit heap trace].
  destruct (done p =? 0); reflexivity.
Qed.

(** What the handler leaves behind when the process goes on: the flag is
    set, the heap is untouched and no reply was sent. *)
Lemma signal_handler_resumed sig p p' :
  signal_handler sig p = Resumed p' →
  sig ∈ termination_signals ∧ done p = 0 ∧ done p' = 1 ∧
  heap p' = heap p ∧
  trace p' = trace p ++ [ClbPrint NC_VERB_VERBOSE "Signal received.";
                         StderrSignal sig].
Proof.
  unfold signal_handler. rewrite recognized_spec.
  case_bool_decide as Hin; [| discriminate].
  cbn [done emit heap trace].
  destruct (done p =? 0) eqn:Hd; [| discriminate].
  intros [= <-]. cbn. rewrite <- app_assoc.
  apply Z.eqb_eq in Hd. auto.
Qed.

Lemma signal_handler_terminated sig p st p' :
  signal_handler sig p = Terminated st p' →
  st = EXIT_FAILURE ∧ (sig ∉ termination_signals ∨ done p ≠ 0).
Proof.
  unfold signal_handler. rewrite recognized_spec.
  case_bool_decide as Hin.
  - cbn [done emit heap trace].
    destruct (done p =? 0) eqn:Hd; [discriminate |].
    apply Z.eqb_neq in Hd. intros [= <- <-]. auto.
  - intros [= <- <-]. auto.
Qed.

(** Two signals of the termination set in a row end a running process. *)
Lemma second_signal_terminates s1 s2 p :
  s1 ∈ termination_signals → s2 ∈ termination_signals → done p = 0 →
  ∃ p', deliver [s1; s2] p = Terminated EXIT_FAILURE p'.
Proof.
  intros H1 H2 Hd. cbn [deliver]. unfold signal_handler.
  rewrite !recognized_spec, !bool_decide_eq_true_2 by assumption.
  cbn [done emit heap trace]. rewrite Hd. cbn. eauto.
Qed.

Lemma deliver_resumed sigs p p' :
  deliver sigs p = Resumed p' →
  heap p' = heap p ∧ sent (trace p') = sent (trace p) ∧
  threads (trace p') = threads (trace p) ∧
  (sigs = [] ∧ p' = p ∨ done p = 0 ∧ done p' = 1).
Proof.
  destruct sigs as [| sig rest]; cbn [deliver].
  - intros [= <-]. split; [| split; [| split]]; auto.
  - destruct (signal_handler sig p) as [p1 |] eqn:H1; [| discriminate].
    apply signal_handler_resumed in H1 as (_ & Hd & Hd1 & Hh1 & Ht1).
    destruct rest as [| sig' rest]; cbn [deliver].
    + intros [= <-]. rewrite Ht1, sent_app, threads_app, !app_nil_r.
      split; [| split; [| split]]; auto.
    + destruct (signal_handler sig' p1) as [p2 |] eqn:H2; [| discriminate].
      apply signal_handler_resumed in H2 as (_ & Hd' & _). congruence.
Qed.

(** ** Runs under signals *)

(** *** What the handler leaves behind *)

Lemma calls_app tr1 tr2 : calls (tr1 ++ tr2) = calls tr1 ++ calls tr2.
Proof. apply omap_app. Qed.

Lemma sent_calls tr : sent (calls tr) = sent tr.
Proof.
  unfold sent, calls. induction tr as [| e tr IH]; [reflexivity |].
  destruct e; cbn; rewrite ?IH; reflexivity.
Qed.

Lemma follows_refl p : follows p p.
Proof. split; [| split]; auto. Qed.

Lemma follows_trans p q r : follows p q → follows q r → follows p r.
Proof.
  intros (Hh & Hc & Hd) (Hh' & Hc' & Hd').
  split; [congruence |]. split; [congruence |].
  destruct Hd' as [Hd' | Hd']; [rewrite Hd'; exact Hd | auto].
Qed.

Lemma signal_handler_follows sig p :
  match signal_handler sig p with
  | Resumed p' => follows p p'
  | Terminated st p' => st = EXIT_FAILURE ∧ follows p p'
  end.
Proof.
  unfold signal_handler, follows.
  destruct (_ || _); [destruct (done _ =? 0) |];
    cbn [trace emit heap done]; rewrite ?calls_app; cbn;
    rewrite ?app_nil_r; auto.
Qed.

Lemma arrive_follows h sig p :
  match arrive h sig p with
  | Survived p' | Dies _ p' => follows p p'
  | Exits st p' => st = EXIT_FAILURE ∧ follows p p'
  end.
Proof.
  unfold arrive. case_bool_decide.
  - assert (H' := signal_handler_follows sig p).
    destruct (signal_handler sig p); exact H'.
  - destruct (_ && _); apply follows_refl.
Qed.

Lemma arrive_all_follows h sigs p :
  match arrive_all h sigs p with
  | Survived p' | Dies _ p' => follows p p'
  | Exits st p' => st = EXIT_FAILURE ∧ follows p p'
  end.
Proof.
  revert p. induction sigs as [| sig rest IH]; intros p; cbn [arrive_all].
  - apply follows_refl.
  - assert (H := arrive_follows h sig p).
    destruct (arrive h sig p) as [p1 | st p1 | s p1]; [| exact H | exact H].
    specialize (IH p1).
    destruct (arrive_all h rest p1); [| destruct IH as [-> IH]; split; auto |];
      eapply follows_trans; eauto.
Qed.

(** *** Commands that do not look at the flag *)

Lemma oblivious_grows {A} (m : M A) : oblivious m → grows m.
Proof.
  intros Hm p a p' Hp. specialize (Hm p p eq_refl). rewrite Hp in Hm.
  destruct Hm as (l & _ & Hl & _). eauto.
Qed.

Lemma oblivious_ret {A} (a : A) : oblivious (mret a).
Proof.
  intros p q Hh. cbn. exists [], q. rewrite !app_nil_r. auto 10.
Qed.

Lemma oblivious_bind {A B} (m : M A) (k : A → M B) :
  oblivious m → (∀ a, oblivious (k a)) → oblivious (m ≫= k).
Proof.
  intros Hm Hk p q Hh. specialize (Hm p q Hh).
  unfold mbind, M_bind.
  destruct (m p) as [[a p1] |]; [| rewrite Hm; reflexivity].
  destruct Hm as (l1 & q1 & Hl1 & -> & Hh1 & Hq1 & Hd1).
  specialize (Hk a p1 q1 Hh1).
  destruct (k a p1) as [[b p2] |]; [| exact Hk].
  destruct Hk as (l2 & q2 & Hl2 & Hq & Hh2 & Hq2 & Hd2).
  exists (l1 ++ l2), q2. rewrite Hl2, Hl1, Hq2, Hq1, <- !app_assoc.
  repeat split; try assumption.
  destruct Hd1 as [[Hp1 Hq1'] | [Hp1 Hq1']], Hd2 as [[Hp2 Hq2'] | [Hp2 Hq2']];
    [left | right | right | right]; split; congruence.
Qed.

Lemma oblivious_say e : oblivious (say e).
Proof. intros p q Hh. cbn. exists [e], (emit e q). auto 10. Qed.

Lemma oblivious_flag : oblivious (set_done 1).
Proof.
  intros p q Hh. cbn. eexists [], _. rewrite !app_nil_r.
  split; [reflexivity |]. split; [reflexivity |]. cbn. auto.
Qed.

Lemma oblivious_new_object o : oblivious (new_object o).
Proof.
  intros p q Hh. unfold new_object. rewrite Hh.
  eexists [], _. rewrite !app_nil_r.
  split; [reflexivity |]. split; [reflexivity |]. cbn. auto.
Qed.

Lemma oblivious_store a o : oblivious (store a o).
Proof.
  intros p q Hh. unfold store. rewrite Hh.
  destruct (heap p !! a); [| reflexivity].
  eexists [], _. rewrite !app_nil_r.
  split; [reflexivity |]. split; [reflexivity |]. cbn. auto.
Qed.

Lemma oblivious_free a : oblivious (free a).
Proof.
  intros p q Hh. unfold free. rewrite Hh.
  destruct (heap p !! a); [| reflexivity].
  eexists [], _. rewrite !app_nil_r.
  split; [reflexivity |]. split; [reflexivity |]. cbn. auto.
Qed.

Lemma oblivious_load_reply a : oblivious (load_reply a).
Proof.
  intros p q Hh. unfold load_reply. rewrite Hh.
  destruct (heap p !! a) as [[] |]; try reflexivity.
  eexists [], _. rewrite !app_nil_r. auto 10.
Qed.

Lemma oblivious_undefined {A} : oblivious (@undefined A).
Proof. intros p q Hh. reflexivity. Qed.

Ltac oblivious_tac :=
  repeat first
    [ apply oblivious_ret
    | apply oblivious_say
    | apply oblivious_flag
    | apply oblivious_new_object
    | apply oblivious_store
    | apply oblivious_free
    | apply oblivious_load_reply
    | apply oblivious_undefined
    | apply oblivious_bind; [| intros ?]
    | progress unfold clb_print, nc_verb_error, nc_reply_ok, nc_reply_error,
        nc_reply_get_type, nc_reply_free, nc_rpc_dup, nc_session_send_reply,
        comm_close, comm_kill_session, comm_operation,
        ncntf_subscription_check, malloc, pthread_create, pthread_detach
    | match goal with
      | |- oblivious (if ?c then _ else _) => destruct c
      | |- oblivious (match ?x with _ => _ end) => destruct x
      end ].

(** *** Steps *)

Lemma step_calm {A} (m : M A) h p :
  step m (World h []) p =
    match m p with
    | Some (a, p') => Value a (World h []) p'
    | None => Ended Crashed
    end.
Proof. unfold step. cbn. destruct (m p) as [[a p'] |]; reflexivity. Qed.

Lemma tracks_ret {A} (a : A) : tracks (mret a) (mret a).
Proof.
  split; [apply oblivious_grows, oblivious_ret |].
  split; [reflexivity |]. intros w p q Hf. cbn. eauto.
Qed.

Lemma tracks_step {A} (m : M A) : oblivious m → tracks (step m) m.
Proof.
  intros Hm. assert (Hg := oblivious_grows m Hm).
  split; [exact Hg |]. split; [intros h p; apply step_calm |].
  intros w p q Hf. unfold step.
  destruct (due (coming w)) as [now later].
  assert (Hs := arrive_all_follows (handlers w) now q).
  destruct (arrive_all (handlers w) now q) as [q1 | st q1 | sig q1].
  - assert (Hf1 := follows_trans _ _ _ Hf Hs).
    destruct Hf1 as (Hh & Hc & Hd). specialize (Hm p q1 Hh).
    destruct (m p) as [[a p'] |]; [| rewrite Hm; reflexivity].
    destruct Hm as (l & q' & Hl & -> & Hh' & Hq' & Hd').
    exists p'. split; [reflexivity |].
    split; [exact Hh' |]. split; [rewrite Hq', Hl, !calls_app; congruence |].
    destruct Hd' as [[Hp Hq] | [Hp Hq]]; [| left; congruence].
    rewrite Hp, Hq. exact Hd.
  - destruct Hs as [-> Hs]. split; [reflexivity |].
    destruct (follows_trans _ _ _ Hf Hs) as (_ & Hc & _).
    exists []. rewrite Hc. cbn. rewrite app_nil_r. split; [reflexivity |].
    intros a p' Hp. apply Hg in Hp. exact Hp.
  - destruct (follows_trans _ _ _ Hf Hs) as (_ & Hc & _).
    exists []. rewrite Hc. cbn. rewrite app_nil_r. split; [reflexivity |].
    intros a p' Hp. apply Hg in Hp. exact Hp.
Qed.

Lemma cut_short_continued {A B} (m : M A) (k : A → M B) p q' :
  (∀ a, grows (k a)) → cut_short m p q' → cut_short (m ≫= k) p q'.
Proof.
  intros Hk (l & Hc & Hrest). exists l. split; [exact Hc |].
  intros b p2. unfold mbind, M_bind.
  destruct (m p) as [[a p1] |] eqn:Hm; [| discriminate]. intros Hk2.
  destruct (Hrest a p1 eq_refl) as (l' & Hl').
  destruct (Hk a p1 b p2 Hk2) as (l2 & Hl2).
  exists (l' ++ l2). rewrite Hl2, Hl', <- !app_assoc. reflexivity.
Qed.

Lemma cut_short_later {A B} (m : M A) (k : A → M B) p a p1 q' :
  grows m → m p = Some (a, p1) → cut_short (k a) p1 q' →
  cut_short (m ≫= k) p q'.
Proof.
  intros Hg Hm (l & Hc & Hrest).
  destruct (Hg p a p1 Hm) as (l1 & Hl1).
  exists (l1 ++ l). split.
  - rewrite Hc, Hl1, !calls_app, <- app_assoc. reflexivity.
  - intros b p2. unfold mbind, M_bind. rewrite Hm. intros Hk2.
    destruct (Hrest b p2 Hk2) as (l' & Hl'). exists l'.
    rewrite Hl', Hl1, <- !app_assoc. reflexivity.
Qed.

Lemma tracks_bind {A B} (c : Steps A) (k : A → Steps B) (m : M A)
    (k' : A → M B) :
  tracks c m → (∀ a, tracks (k a) (k' a)) → tracks (c ≫= k) (m ≫= k').
Proof.
  intros (Hg & Hcalm & Hsim) Hk.
  assert (Hgk : ∀ a, grows (k' a)) by (intros a; apply Hk).
  split; [| split].
  - intros p b p2. unfold mbind, M_bind.
    destruct (m p) as [[a p1] |] eqn:Hm; [| discriminate]. intros Hk2.
    destruct (Hg p a p1 Hm) as (l1 & Hl1).
    destruct (Hgk a p1 b p2 Hk2) as (l2 & Hl2).
    exists (l1 ++ l2). rewrite Hl2, Hl1, <- app_assoc. reflexivity.
  - intros h p. unfold mbind at 1, Steps_bind. rewrite Hcalm.
    unfold mbind, M_bind. destruct (m p) as [[a p1] |]; [| reflexivity].
    apply Hk.
  - intros w p q Hf. specialize (Hsim w p q Hf).
    unfold mbind at 1, Steps_bind.
    destruct (c w q) as [a w1 q1 | o].
    + destruct Hsim as (p1 & Hm & Hf1).
      destruct (Hk a) as (_ & _ & Hsimk). specialize (Hsimk w1 p1 q1 Hf1).
      destruct (k a w1 q1) as [b w2 q2 | o].
      * destruct Hsimk as (p2 & Hk2 & Hf2). exists p2.
        split; [| exact Hf2]. unfold mbind, M_bind. rewrite Hm. exact Hk2.
      * destruct o as [st q2 | st q2 | sig q2 | q2 |]; try contradiction.
        -- destruct Hsimk as [-> Hcut]. split; [reflexivity |].
           eapply cut_short_later; eauto.
        -- eapply cut_short_later; eauto.
        -- unfold mbind, M_bind. rewrite Hm. exact Hsimk.
    + destruct o as [st q2 | st q2 | sig q2 | q2 |]; try contradiction.
      * destruct Hsim as [-> Hcut]. split; [reflexivity |].
        apply cut_short_continued; assumption.
      * apply cut_short_continued; assumption.
      * unfold mbind, M_bind. rewrite Hsim. reflexivity.
Qed.

Ltac tracks_tac :=
  repeat first
    [ apply tracks_ret
    | apply tracks_bind; [| intros ?]
    | apply tracks_step; oblivious_tac
    | match goal with
      | |- tracks (if ?c then _ else _) (if ?c then _ else _) => destruct c
      | |- tracks (match ?x with _ => _ end) (match ?x with _ => _ end) =>
          destruct x
      end ].

(** Under signals the dispatcher is the dispatcher: [process_message]
    command by command tracks [process_message]. *)
Lemma build_reply_tracked a s conn rpc :
  tracks (Stepwise.build_reply a s conn rpc) (build_reply a s conn rpc).
Proof.
  unfold Stepwise.build_reply, build_reply,
    Stepwise.clb_print, Stepwise.set_done, Stepwise.store,
    Stepwise.nc_reply_ok, Stepwise.nc_reply_error,
    Stepwise.nc_reply_get_type, Stepwise.nc_reply_free, Stepwise.nc_rpc_dup,
    Stepwise.comm_close, Stepwise.comm_kill_session, Stepwise.comm_operation,
    Stepwise.ncntf_subscription_check, Stepwise.malloc,
    Stepwise.pthread_create, Stepwise.pthread_detach.
  destruct (nc_rpc_get_op rpc); tracks_tac.
Qed.

Lemma process_message_tracked a s conn rpc :
  tracks (Stepwise.process_message a s conn rpc)
         (process_message a s conn rpc).
Proof.
  unfold Stepwise.process_message, process_message,
    Stepwise.nc_verb_error, Stepwise.nc_session_send_reply,
    Stepwise.nc_reply_free.
  destruct rpc as [rpc |].
  - apply tracks_bind; [apply build_reply_tracked | intros reply].
    tracks_tac.
  - tracks_tac.
Qed.

(** *** Properties of programs of steps *)

Lemma always_ret {A} (a : A) p (Q : A → process → Prop) R C :
  Q a p → always (mret a) p Q R C.
Proof. intros H w. exact H. Qed.

Lemma always_bind {A B} (c : Steps A) (k : A → Steps B) p
    (Q : B → process → Prop) R C :
  always c p (λ a p', always (k a) p' Q R C) R C →
  always (c ≫= k) p Q R C.
Proof.
  intros H w. specialize (H w). unfold mbind, Steps_bind.
  destruct (c w p) as [a w1 p1 | o]; [apply H | exact H].
Qed.

Lemma always_step {A} (m : M A) p (Q : A → process → Prop)
    (R : process → Prop) (C : Prop) :
  (∀ p1, follows p p1 →
         R p1 ∧ match m p1 with
                | Some (a, p2) => Q a p2
                | None => C
                end) →
  always (step m) p Q R C.
Proof.
  intros H w. unfold step. destruct (due (coming w)) as [now later].
  assert (Hs := arrive_all_follows (handlers w) now p).
  destruct (arrive_all (handlers w) now p) as [p1 | st p1 | sig p1].
  - destruct (H p1 Hs) as [_ Hm]. destruct (m p1) as [[a p2] |]; exact Hm.
  - destruct Hs as [-> Hs]. split; [reflexivity | apply H, Hs].
  - apply H, Hs.
Qed.

Lemma always_tracked {A} (c : Steps A) (m : M A) p
    (Q : A → process → Prop) (R : process → Prop) (C : Prop) :
  tracks c m →
  (∀ a p' q', m p = Some (a, p') → follows p' q' → Q a q') →
  (∀ q', cut_short m p q' → R q') →
  (m p = None → C) →
  always c p Q R C.
Proof.
  intros (_ & _ & Hsim) HQ HR HC w.
  specialize (Hsim w p p (follows_refl p)).
  destruct (c w p) as [a w1 q1 | o].
  - destruct Hsim as (p' & Hm & Hf). eapply HQ; eauto.
  - destruct o as [st q1 | st q1 | sig q1 | q1 |]; cbn; try contradiction.
    + destruct Hsim as [-> Hcut]. auto.
    + auto.
    + auto.
Qed.

(** ** The session loop *)

Lemma process_message_total a s conn rpc p :
  ∃ z p', process_message a s conn rpc p = Some (z, p').
Proof.
  destruct rpc as [rpc |].
  - destruct (process_message_returns a s conn rpc p) as (p' & H). eauto.
  - eexists _, _. reflexivity.
Qed.

(** *** Passes without later signals *)

Lemma bind_step_calm {A B} (m : M A) (k : A → Steps B) h p :
  (step m ≫= k) (World h []) p =
    match m p with
    | Some (a, p') => k a (World h []) p'
    | None => Ended Crashed
    end.
Proof.
  unfold mbind, Steps_bind. rewrite step_calm.
  destruct (m p) as [[a p'] |]; reflexivity.
Qed.

Lemma bind_tracked_calm {A B} (c : Steps A) (m : M A) (k : A → Steps B) h p :
  tracks c m →
  (c ≫= k) (World h []) p =
    match m p with
    | Some (a, p') => k a (World h []) p'
    | None => Ended Crashed
    end.
Proof.
  intros (_ & Hcalm & _). unfold mbind, Steps_bind. rewrite Hcalm.
  destruct (m p) as [[a p'] |]; reflexivity.
Qed.

Lemma installed_spec sig :
  sig ∈ installed ↔ sig ∈ termination_signals ∧ sig ≠ SIGKILL.
Proof.
  change installed with [SIGTERM; SIGABRT; SIGQUIT; SIGINT].
  unfold termination_signals. rewrite !elem_of_cons, !elem_of_nil.
  split.
  - intros [-> | [-> | [-> | [-> | []]]]]; split; auto 10; discriminate.
  - intros [[-> | [-> | [-> | [-> | [-> | []]]]]] Hk]; auto 10;
      contradiction.
Qed.

(** The first signal of the termination set, while the flag is unset: the
    handler sets the flag and the process goes on. *)
Lemma arrive_first sig p :
  sig ∈ termination_signals → sig ≠ SIGKILL → done p = 0 →
  arrive installed sig p =
    Survived (Process 1 (heap p)
                (trace p ++ [ClbPrint NC_VERB_VERBOSE "Signal received.";
                             StderrSignal sig])).
Proof.
  intros Hin Hk Hd. unfold arrive.
  rewrite bool_decide_eq_true_2 by (apply installed_spec; auto).
  unfold signal_handler. rewrite recognized_spec.
  rewrite bool_decide_eq_true_2 by exact Hin.
  cbn [done emit heap trace]. rewrite Hd. cbn.
  rewrite <- app_assoc. reflexivity.
Qed.

Lemma loop_body_receive e con s p p1 :
  data_ready e → arrive_all installed (signals e) p = Survived p1 →
  interrupts e = [] →
  loop_body e con s p =
    if negb (bool_decide (recv_type e = NC_MSG_RPC)) then
      match recv_type e with
      | NC_MSG_NONE => Continue (recv_session e) p1
      | NC_MSG_UNKNOWN =>
          if negb (bool_decide (nc_session_get_status (recv_session e)
                                = NC_SESSION_STATUS_WORKING))
          then
            Cleanup (recv_session e)
              (emit (ClbPrint NC_VERB_ERROR
                       "Failed to receive clinets message") p1)
          else Continue (recv_session e) p1
      | _ => Continue (recv_session e) p1
      end
    else
      match process_message (sheet e) (recv_session e) con (recv_rpc e)
              (emit (ClbPrint NC_VERB_VERBOSE "Processing client message") p1)
      with
      | Some (r, p2) =>
          Continue (recv_session e)
            (if negb (r =? EXIT_SUCCESS)
             then emit (ClbPrint NC_VERB_WARNING "Message processing failed")
                    p2
             else p2)
      | None => Fault
      end.
Proof.
  intros (Hret & Hhup & Herr & Hin) Hsig Hint. unfold loop_body, after_poll.
  rewrite Hsig, Hint, Hhup, Herr.
  replace (poll_ret e <? 0) with false by (symmetry; apply Z.ltb_ge; lia).
  replace (poll_ret e =? 0) with false by (symmetry; apply Z.eqb_neq; lia).
  replace (poll_ret e >? 0) with true by (symmetry; apply Z.gtb_lt; lia).
  apply Z.eqb_neq in Hin. rewrite Hin. cbn [andb negb Z.eqb].
  rewrite bind_step_calm. unfold nc_session_recv_rpc.
  cbn [mret M_ret].
  destruct (negb (bool_decide (recv_type e = NC_MSG_RPC))).
  - unfold again, Stepwise.clb_print.
    destruct (recv_type e); rewrite ?step_calm; try reflexivity.
    destruct (negb _); rewrite ?bind_step_calm, ?step_calm; reflexivity.
  - unfold Stepwise.clb_print. rewrite bind_step_calm.
    cbn [clb_print say].
    rewrite (bind_tracked_calm _ _ _ _ _
               (process_message_tracked (sheet e) (recv_session e) con
                  (recv_rpc e))).
    destruct (process_message _ _ _ _ _) as [[r p2] |]; [| reflexivity].
    destruct (negb (r =? EXIT_SUCCESS)); reflexivity.
Qed.

Lemma loop_body_interrupted e con s p p1 :
  interrupted e → arrive_all installed (signals e) p = Survived p1 →
  interrupts e = [] →
  loop_body e con s p = Continue s p1.
Proof.
  intros [Hret Herrno] Hsig Hint. unfold loop_body, after_poll.
  rewrite Hsig, Hint, Herrno.
  rewrite Z.eqb_refl, andb_false_r.
  replace (poll_ret e =? 0) with false by (symmetry; apply Z.eqb_neq; lia).
  replace (poll_ret e >? 0) with false
    by (symmetry; rewrite Z.gtb_ltb; apply Z.ltb_ge; lia).
  reflexivity.
Qed.

Lemma session_loop_step e rest fin con s p s' p' :
  done p = 0 → loop_body e con s p = Continue s' p' →
  session_loop (e :: rest) fin con s p = session_loop rest fin con s' p'.
Proof. intros Hd Hb. cbn [session_loop]. rewrite Hd, Hb. reflexivity. Qed.

Lemma session_loop_cleanup e rest fin con s p s' p' :
  done p = 0 → loop_body e con s p = Cleanup s' p' →
  session_loop (e :: rest) fin con s p = cleanup fin p'.
Proof. intros Hd Hb. cbn [session_loop]. rewrite Hd, Hb. reflexivity. Qed.

(** The clean-up when no signal arrives. *)
Lemma cleanup_calm p :
  cleanup [] p = Returned EXIT_SUCCESS (emit NcClose (emit SessionFree p)).
Proof. reflexivity. Qed.

Lemma session_loop_idle script fin con s p :
  Forall malformed_frame script → done p = 0 →
  session_loop script fin con s p = Waiting p.
Proof.
  intros Hall Hd. revert s.
  induction Hall as [| e rest ([Hsig Hint] & Hready & Hty & Hst) _ IH];
    intros s.
  - cbn. rewrite Hd. reflexivity.
  - rewrite (session_loop_step e rest fin con s p (recv_session e) p Hd).
    + apply IH.
    + rewrite (loop_body_receive e con s p p Hready)
        by (rewrite ?Hsig; auto).
      rewrite Hty, Hst. reflexivity.
Qed.

(** *** Passes under signals *)

Lemma follows_emit_log p q level msg :
  follows p q → follows p (emit (ClbPrint level msg) q).
Proof.
  intros (Hh & Hc & Hd). split; [exact Hh |]. split; [| exact Hd].
  cbn [trace emit]. rewrite calls_app. cbn. rewrite app_nil_r. exact Hc.
Qed.

Create HintDb follows.
#[local] Hint Resolve follows_refl follows_emit_log : follows.

Ltac follows_tac :=
  cbn [mret M_ret clb_print say];
  eauto 6 using follows_trans with follows.

(** From the body to the pass: what holds of the body whatever the signals
    holds of the pass, the signals of the wait included. *)
Lemma loop_body_always e con s p (Q : branch → process → Prop)
    (R : process → Prop) :
  (∀ p1, follows p p1 → R p1) →
  (∀ p1, follows p p1 → always (after_poll e con s) p1 Q R False) →
  match loop_body e con s p with
  | Continue s' p' => Q (Again s') p'
  | Cleanup s' p' => Q (Leave s') p'
  | Exit st p' => st = EXIT_FAILURE ∧ R p'
  | Kill _ p' => R p'
  | Fault => False
  end.
Proof.
  intros HR Hbody. unfold loop_body.
  assert (Hs := arrive_all_follows installed (signals e) p).
  destruct (arrive_all installed (signals e) p) as [p1 | st p1 | sig p1].
  - specialize (Hbody p1 Hs (World installed (interrupts e))).
    destruct (after_poll e con s _ p1) as [[s' | s'] w' p' | o];
      [exact Hbody | exact Hbody |].
    destruct o; cbn in Hbody; auto.
  - destruct Hs as [-> Hs]. auto.
  - auto.
Qed.

Lemma always_again s p (Q : branch → process → Prop) (R : process → Prop) :
  (∀ p1, follows p p1 → R p1 ∧ Q (Again s) p1) →
  always (again s) p Q R False.
Proof. intros H. apply always_step. exact H. Qed.

(** A pass in which [poll] is interrupted, under any signals: the body
    does nothing. *)
Lemma loop_body_interrupted_always e con s p :
  interrupted e →
  match loop_body e con s p with
  | Continue s' p' => s' = s ∧ follows p p'
  | Exit st p' => st = EXIT_FAILURE ∧ follows p p'
  | Kill _ p' => follows p p'
  | Cleanup _ _ | Fault => False
  end.
Proof.
  intros [Hret Herrno].
  assert (H : ∀ p1, follows p p1 →
            always (after_poll e con s) p1
              (λ b p', b = Again s ∧ follows p p') (follows p) False).
  { intros p1 Hf. unfold after_poll.
    rewrite Herrno, Z.eqb_refl, andb_false_r.
    replace (poll_ret e =? 0) with false by (symmetry; apply Z.eqb_neq; lia).
    replace (poll_ret e >? 0) with false
      by (symmetry; rewrite Z.gtb_ltb; apply Z.ltb_ge; lia).
    apply always_again. intros p2 Hf2. split; [| split]; follows_tac. }
  apply (loop_body_always e con s p _ _ (λ _ Hf, Hf)) in H.
  destruct (loop_body e con s p); try exact H.
  - destruct H as [[= ->] H]. auto.
  - destruct H as [[=] _].
Qed.

(** A pass in which the receive yields no request, under any signals: no
    call is made, and the loop is left only for a frame of unknown type on
    a session that is no longer working. *)
Lemma loop_body_no_request_always e con s p :
  no_request e →
  match loop_body e con s p with
  | Continue s' p' => s' = recv_session e ∧ follows p p'
  | Cleanup s' p' =>
      s' = recv_session e ∧ follows p p' ∧ recv_type e = NC_MSG_UNKNOWN ∧
      nc_session_get_status (recv_session e) ≠ NC_SESSION_STATUS_WORKING
  | Exit st p' => st = EXIT_FAILURE ∧ follows p p'
  | Kill _ p' => follows p p'
  | Fault => False
  end.
Proof.
  intros [(Hret & Hhup & Herr & Hin) Hty].
  assert (H : ∀ p1, follows p p1 →
            always (after_poll e con s) p1
              (λ b p',
                 follows p p' ∧
                 match b with
                 | Again s' => s' = recv_session e
                 | Leave s' =>
                     s' = recv_session e ∧ recv_type e = NC_MSG_UNKNOWN ∧
                     nc_session_get_status (recv_session e)
                     ≠ NC_SESSION_STATUS_WORKING
                 end) (follows p) False).
  { intros p1 Hf. unfold after_poll. rewrite Hhup, Herr.
    replace (poll_ret e <? 0) with false by (symmetry; apply Z.ltb_ge; lia).
    replace (poll_ret e =? 0) with false by (symmetry; apply Z.eqb_neq; lia).
    replace (poll_ret e >? 0) with true by (symmetry; apply Z.gtb_lt; lia).
    apply Z.eqb_neq in Hin. rewrite Hin. cbn [andb negb Z.eqb].
    apply always_bind, always_step. intros p2 Hf2.
    split; [follows_tac |]. unfold nc_session_recv_rpc. cbn [mret M_ret].
    rewrite bool_decide_eq_false_2 by exact Hty. cbn [negb].
    destruct (recv_type e) eqn:Hrt; try contradiction;
      try (apply always_again; intros p3 Hf3; split; [| split];
           follows_tac).
    case_bool_decide as Hst; cbn [negb].
    - apply always_again. intros p3 Hf3. split; [| split]; follows_tac.
    - unfold Stepwise.clb_print. apply always_bind, always_step.
      intros p3 Hf3. split; [follows_tac |]. cbn [clb_print say].
      apply always_ret. split; [follows_tac | auto]. }
  apply (loop_body_always e con s p _ _ (λ _ Hf, Hf)) in H.
  destruct (loop_body e con s p); try exact H; tauto.
Qed.

(** C7. In a pass in which the receive yields no request, be it a
    no-message result, an unknown (malformed) frame while the session is
    still working, or a message of another kind, the loop sends no reply,
    dispatches nothing and goes on to the next pass; it leaves the loop on
    such a receive only if the frame was unknown and the session status is
    no longer working, and then too without a reply; so a sequence of
    malformed frames on a working session leaves the process waiting in the
    loop, in the state it started from.  Signals do not change this: a
    pass that yields no request makes no call, whatever arrives during
    it, and ends otherwise only with the process. *)
Theorem malformed_frames_keep_looping :
  (∀ e con s p p1,
     no_request e → arrive_all installed (signals e) p = Survived p1 →
     interrupts e = [] →
     (recv_type e = NC_MSG_UNKNOWN →
      nc_session_get_status (recv_session e) = NC_SESSION_STATUS_WORKING) →
     loop_body e con s p = Continue (recv_session e) p1 ∧
     sent (trace p1) = sent (trace p)) ∧
  (∀ e con s p s' p',
     no_request e → loop_body e con s p = Cleanup s' p' →
     recv_type e = NC_MSG_UNKNOWN ∧
     nc_session_get_status (recv_session e) ≠ NC_SESSION_STATUS_WORKING ∧
     sent (trace p') = sent (trace p)) ∧
  (∀ script fin con s p,
     Forall malformed_frame script → done p = 0 →
     session_loop script fin con s p = Waiting p) ∧
  (∀ e con s p,
     no_request e →
     match loop_body e con s p with
     | Continue _ p' | Cleanup _ p' | Exit _ p' | Kill _ p' =>
         calls (trace p') = calls (trace p)
     | Fault => False
     end).
Proof.
  split; [| split; [| split]].
  - intros e con s p p1 [Hready Hty] Hsig Hint Hcase.
    rewrite (loop_body_receive e con s p p1 Hready Hsig Hint).
    assert (Hs := arrive_all_follows installed (signals e) p).
    rewrite Hsig in Hs. destruct Hs as (_ & Hc & _).
    split; [| rewrite <- sent_calls, Hc; apply sent_calls].
    rewrite bool_decide_eq_false_2 by exact Hty. cbn [negb].
    destruct (recv_type e); try reflexivity.
    rewrite Hcase by reflexivity. reflexivity.
  - intros e con s p s' p' Hreq Hbody.
    assert (H := loop_body_no_request_always e con s p Hreq).
    rewrite Hbody in H. destruct H as (_ & (_ & Hc & _) & Hty & Hst).
    split; [exact Hty |]. split; [exact Hst |].
    rewrite <- sent_calls, Hc. apply sent_calls.
  - apply session_loop_idle.
  - intros e con s p Hreq.
    assert (H := loop_body_no_request_always e con s p Hreq).
    destruct (loop_body e con s p); try exact H; unfold follows in H; tauto.
Qed.

(** C10. When [poll] returns an error with [errno] set to [EINTR], the pass
    ends there: nothing is received or dispatched, the loop is not left,
    and the state is the one the signal handler produced.  The flag is then
    tested again: with no signal the loop goes on with the next pass; with a
    signal of the termination set delivered during the wait, the flag is
    found set and [main] leaves through [cleanup] with success, without the
    poll-error message.  ([SIGKILL] is of the set and cannot be caught: it
    never reaches the handler.)  Whatever the signals of the pass, the body
    makes no call and does not leave for [cleanup]. *)
Theorem interrupted_poll_rechecks_flag :
  (∀ e con s p p1,
     interrupted e → arrive_all installed (signals e) p = Survived p1 →
     interrupts e = [] →
     loop_body e con s p = Continue s p1) ∧
  (∀ e rest fin con s p,
     interrupted e → undisturbed e → done p = 0 →
     session_loop (e :: rest) fin con s p = session_loop rest fin con s p) ∧
  (∀ e rest con s p sig,
     interrupted e → signals e = [sig] → interrupts e = [] →
     sig ∈ termination_signals → sig ≠ SIGKILL → done p = 0 →
     session_loop (e :: rest) [] con s p =
       Returned EXIT_SUCCESS
         (Process 1 (heap p)
            (trace p ++ [ClbPrint NC_VERB_VERBOSE "Signal received.";
                         StderrSignal sig; SessionFree; NcClose]))) ∧
  (∀ e con s p,
     interrupted e →
     match loop_body e con s p with
     | Continue s' p' => s' = s ∧ calls (trace p') = calls (trace p)
     | Exit st p' => st = EXIT_FAILURE ∧ calls (trace p') = calls (trace p)
     | Kill _ p' => calls (trace p') = calls (trace p)
     | Cleanup _ _ | Fault => False
     end).
Proof.
  split; [| split; [| split]].
  - apply loop_body_interrupted.
  - intros e rest fin con s p Hint [Hsig Hlater] Hd.
    apply session_loop_step; [exact Hd |].
    apply loop_body_interrupted; [exact Hint | | exact Hlater].
    rewrite Hsig. reflexivity.
  - intros e rest con s p sig Hint Hsig Hlater Hin Hk Hd.
    erewrite session_loop_step; [| exact Hd |].
    2: { apply loop_body_interrupted; [exact Hint | | exact Hlater].
         rewrite Hsig. cbn [arrive_all].
         rewrite (arrive_first sig p Hin Hk Hd). reflexivity. }
    assert (Hout : ∀ q, done q = 1 →
              session_loop rest [] con s q = cleanup [] q)
      by (intros q Hq; destruct rest; cbn [session_loop]; rewrite Hq;
          reflexivity).
    rewrite Hout, cleanup_calm by reflexivity.
    unfold emit. cbn. rewrite <- !app_assoc. reflexivity.
  - intros e con s p Hint.
    assert (H := loop_body_interrupted_always e con s p Hint).
    destruct (loop_body e con s p); try exact H; unfold follows in H; tauto.
Qed.

(** ** The exit status *)

(** C8. One termination signal after a close-session request ends the
    process with [EXIT_FAILURE]: the request has set [done], the flag the
    handler takes for the mark of a first signal, so that the handler goes
    its way of the second attempt.  The start-up succeeded, the signal is
    of the termination set and it is the only one of the run.  So it is
    when the signal arrives during the clean-up, after the loop was left in
    order, and when it arrives in the dispatch right after [done = 1], in
    which case the reply to the request is not sent either. *)
Theorem close_session_then_signal_exits_with_failure :
  ¬ startup_fails good_startup ∧ SIGTERM ∈ termination_signals ∧
  (∃ p reply,
     main good_startup [request_pass close_request] [(0%nat, SIGTERM)]
     = Exited EXIT_FAILURE p ∧
     signals_handled (trace p) = [SIGTERM] ∧
     sent (trace p) = [(close_request, reply, ReplyOk)] ∧
     releases (trace p) = []) ∧
  (∃ p,
     main good_startup
       [Pass [] 1 0 POLLIN NC_MSG_RPC (Some close_request) free_session
             quiet_backend [(5%nat, SIGTERM)]] []
     = Exited EXIT_FAILURE p ∧
     signals_handled (trace p) = [SIGTERM] ∧
     closes (trace p) = [1%nat] ∧ sent (trace p) = []).
Proof.
  split; [| split; [| split]].
  - intros [H | [H | [H | [H | H]]]]; try discriminate H.
    apply H. reflexivity.
  - apply (bool_decide_unpack _). vm_compute. exact I.
  - eexists _, _. repeat split; vm_compute; reflexivity.
  - eexists. repeat split; vm_compute; reflexivity.
Qed.

(** * The theorems at work

    Each conditional theorem applied to a concrete session, request or
    script, its conditions checked by computation. *)

Lemma create_subscription_gates_witness :
  nc_rpc_get_op subscribe_request = NC_OP_CREATESUBSCRIPTION ∧
  ∃ r p',
    dispatch_sends quiet_backend busy_session 1%nat subscribe_request boot
      r p' ∧
    already_active ANOTHER_SUBSCRIPTION r.
Proof.
  split; [reflexivity |].
  apply (create_subscription_gates quiet_backend busy_session 1%nat
           subscribe_request boot).
  - reflexivity.
  - apply (bool_decide_unpack _). vm_compute. exact I.
  - reflexivity.
Defined.

Lemma kill_session_replies_witness :
  nc_rpc_get_op kill_request = NC_OP_KILLSESSION ∧
  ∃ r p',
    dispatch_sends quiet_backend free_session 1%nat kill_request boot r p' ∧
    r = ans_comm_kill_session quiet_backend (Some "12") ∧
    CommKillSession 1%nat (Some "12") ∈ trace p'.
Proof.
  split; [reflexivity |].
  destruct (kill_session_replies quiet_backend free_session 1%nat
              kill_request boot) as (r & p' & Hd & _ & _ & _ & Hk);
    [reflexivity |].
  exists r, p'. split; [exact Hd |].
  apply (Hk (λ H : corrupted kill_request, H eq_refl)
            (XmlNode (Some "session-id") [] (Some "12"))).
  reflexivity.
Defined.

Lemma close_session_sets_done_witness :
  nc_rpc_get_op close_request = NC_OP_CLOSESESSION ∧
  ∃ r p',
    dispatch_sends stubborn_backend free_session 1%nat close_request boot
      r p' ∧
    done p' = 1 ∧
    (ans_comm_close stubborn_backend = EXIT_SUCCESS → r = ReplyOk) ∧
    (ans_comm_close stubborn_backend ≠ EXIT_SUCCESS →
     r = ReplyError (nc_err_new NC_ERR_OP_FAILED)).
Proof.
  split; [reflexivity |].
  apply (close_session_sets_done stubborn_backend free_session 1%nat
           close_request boot).
  reflexivity.
Defined.

Lemma process_message_null_witness :
  (∃ p', process_message quiet_backend free_session 1%nat None boot
         = Some (EXIT_FAILURE, p')) ∧
  ¬ (∃ p', process_message quiet_backend free_session 1%nat
             (Some close_request) boot = Some (EXIT_FAILURE, p')).
Proof.
  destruct (process_message_null quiet_backend free_session 1%nat boot)
    as [_ Honly].
  split.
  - apply (Honly None). reflexivity.
  - intros H. apply (Honly (Some close_request)) in H. discriminate H.
Defined.

Lemma malformed_pass_is_malformed : malformed_frame malformed_pass.
Proof.
  split; [split; reflexivity |]. split; [| split; reflexivity].
  split; [reflexivity |]. split; [reflexivity |].
  split; [reflexivity | discriminate].
Defined.

Lemma malformed_frames_keep_looping_witness :
  Forall malformed_frame [malformed_pass; malformed_pass; malformed_pass] ∧
  done boot = 0 ∧
  session_loop [malformed_pass; malformed_pass; malformed_pass]
    [(0%nat, SIGTERM)] 1%nat free_session boot = Waiting boot.
Proof.
  assert (H : Forall malformed_frame
                [malformed_pass; malformed_pass; malformed_pass])
    by (repeat constructor; apply malformed_pass_is_malformed).
  split; [exact H |]. split; [reflexivity |].
  apply (proj1 (proj2 (proj2 malformed_frames_keep_looping)));
    [exact H | reflexivity].
Defined.

Lemma interrupted_poll_rechecks_flag_witness :
  interrupted sigterm_pass ∧ signals sigterm_pass = [SIGTERM] ∧
  interrupts sigterm_pass = [] ∧
  SIGTERM ∈ termination_signals ∧ SIGTERM ≠ SIGKILL ∧ done boot = 0 ∧
  session_loop [sigterm_pass; malformed_pass] [] 1%nat free_session boot =
    Returned EXIT_SUCCESS
      (Process 1 ∅
         [ClbPrint NC_VERB_VERBOSE "Signal received.";
          StderrSignal SIGTERM; SessionFree; NcClose]) ∧
  interrupted eintr_pass ∧ undisturbed eintr_pass ∧
  session_loop [eintr_pass; malformed_pass] [] 1%nat free_session boot =
    session_loop [malformed_pass] [] 1%nat free_session boot.
Proof.
  assert (Hint : interrupted sigterm_pass) by (split; reflexivity).
  assert (Hint' : interrupted eintr_pass) by (split; reflexivity).
  assert (Hcalm : undisturbed eintr_pass) by (split; reflexivity).
  assert (Hin : SIGTERM ∈ termination_signals)
    by (apply (bool_decide_unpack _); vm_compute; exact I).
  assert (Hk : SIGTERM ≠ SIGKILL) by discriminate.
  split; [exact Hint |]. split; [reflexivity |]. split; [reflexivity |].
  split; [exact Hin |]. split; [exact Hk |].
  split; [reflexivity |]. split; [| split; [exact Hint' |]].
  - apply (proj1 (proj2 (proj2 interrupted_poll_rechecks_flag)) sigterm_pass
             [malformed_pass] 1%nat free_session boot SIGTERM Hint eq_refl
             eq_refl Hin Hk eq_refl).
  - split; [exact Hcalm |].
    apply (proj1 (proj2 interrupted_poll_rechecks_flag) eintr_pass
             [malformed_pass] [] 1%nat free_session boot Hint' Hcalm eq_refl).
Defined.

Lemma no_backend_fails : startup_fails no_backend.
Proof. right. left. reflexivity. Defined.

Lemma good_startup_passes : ¬ startup_fails good_startup.
Proof.
  intros [H | [H | [H | [H | H]]]]; try discriminate H.
  apply H. reflexivity.
Defined.

(** *** Runs of the agent *)

(** The first child decides: with [session-id] in second place the reply is
    the missing-element error. *)
Example kill_session_second_child :
  ∃ p', dispatch_sends quiet_backend free_session 1%nat kill_request_padded
          boot missing_session_id p'.
Proof.
  eexists. split; [vm_compute; reflexivity |].
  eexists. vm_compute. reflexivity.
Qed.

(** The policy read with the element named [session-id] wherever it stands
    does not hold of the dispatcher: the payload of [kill_request_padded] is
    not corrupt and has its [session-id], with the identifier 12, and the
    backend is not asked to kill that session. *)
Lemma kill_session_named_element_refuted :
  nc_rpc_get_op kill_request_padded = NC_OP_KILLSESSION ∧
  ¬ corrupted kill_request_padded ∧
  session_id_element kill_request_padded
    = Some (XmlNode (Some "session-id") [] (Some "12")) ∧
  ¬ kill_session_policy session_id_element quiet_backend free_session 1%nat
      kill_request_padded boot.
Proof.
  assert (Hnc : ¬ corrupted kill_request_padded)
    by (intros H; exact (H eq_refl)).
  split; [reflexivity |]. split; [exact Hnc |]. split; [reflexivity |].
  intros (r & p' & [Hpm _] & _ & _ & Hk).
  destruct (Hk Hnc _ eq_refl) as [_ Hin].
  vm_compute in Hpm. injection Hpm as <-. cbn [trace] in Hin.
  repeat (apply elem_of_cons in Hin as [Hin | Hin]; [discriminate Hin |]).
  inversion Hin.
Qed.

(** A subscription, an ordinary request and a close-session, in this order:
    three replies in the same order, one thread started, and [main] returns
    success after the third reply. *)
Example subscribe_get_close :
  ∃ p h1 h2 h3 ntf_config,
    main good_startup
      [request_pass subscribe_request; request_pass get_request;
       request_pass close_request; malformed_pass] []
    = Returned EXIT_SUCCESS p ∧
    sent (trace p) = [(subscribe_request, h1, ReplyOk);
                      (get_request, h2, ReplyData "<data/>");
                      (close_request, h3, ReplyOk)] ∧
    threads (trace p) = [ntf_config] ∧ done p = 1.
Proof.
  eexists _, _, _, _, _. split; [vm_compute; reflexivity |].
  split; [| split]; vm_compute; reflexivity.
Qed.

(** The ways out of the loop, each with success. *)
Example hangup_returns_success :
  ∃ p, main good_startup [hangup_pass; malformed_pass] []
       = Returned EXIT_SUCCESS p ∧
       trace p = [ClbPrint NC_VERB_VERBOSE "Connected with Netopeer server";
                  ClbPrint NC_VERB_VERBOSE "Handshake finished";
                  ClbPrint NC_VERB_VERBOSE "Connection closed by client";
                  CommClose 1%nat; SessionFree; NcClose].
Proof. eexists. split; vm_compute; reflexivity. Qed.

Example poll_error_returns_success :
  ∃ p, main good_startup
         [Pass [] (-1) 9 0 NC_MSG_NONE None free_session quiet_backend []] []
       = Returned EXIT_SUCCESS p.
Proof. eexists. vm_compute. reflexivity. Qed.

Example io_error_returns_success :
  ∃ p, main good_startup
         [Pass [] 1 0 POLLERR NC_MSG_NONE None free_session quiet_backend []]
         []
       = Returned EXIT_SUCCESS p.
Proof. eexists. vm_compute. reflexivity. Qed.

Example degraded_session_returns_success :
  ∃ p, main good_startup
         [Pass [] 1 0 POLLIN NC_MSG_UNKNOWN None
               (NcSession "7" [] 1 NC_SESSION_STATUS_CLOSED) quiet_backend
               []] []
       = Returned EXIT_SUCCESS p.
Proof. eexists. vm_compute. reflexivity. Qed.

(** When [malloc] fails the client gets the operation-failed error; the
    [<ok/>] of the subscription check, replaced without being freed, stays
    allocated. *)
Example allocation_failure_keeps_check_reply :
  ∃ p', dispatch_sends no_memory free_session 1%nat subscribe_request boot
          allocation_failed p' ∧
        heap p' !! 0%nat = Some (ObjReply ReplyOk).
Proof.
  eexists. split; [split; [vm_compute; reflexivity |] |].
  - eexists. vm_compute. reflexivity.
  - vm_compute. reflexivity.
Qed.

(** Two termination signals during one wait: the handler ends the process
    with failure at the second. *)
Example impatient_operator :
  ∃ p, main good_startup
         [Pass [SIGTERM; SIGINT] (-1) EINTR 0 NC_MSG_NONE None free_session
               quiet_backend []] []
       = Exited EXIT_FAILURE p.
Proof. eexists. vm_compute. reflexivity. Qed.

(** A signal [main] installs no handler for, here [SIGHUP]: the handler
    does not run and the signal ends the process. *)
Example unknown_signal :
  main good_startup
    [Pass [1] (-1) EINTR 0 NC_MSG_NONE None free_session quiet_backend []] []
  = Killed 1
      (Process 0 ∅
         [ClbPrint NC_VERB_VERBOSE "Connected with Netopeer server";
          ClbPrint NC_VERB_VERBOSE "Handshake finished"]).
Proof. vm_compute. reflexivity. Qed.

(** [SIGKILL] has no handler either, whatever [main] asked for. *)
Example sigkill_is_not_caught :
  (SIGKILL ∉ installed) ∧
  ∃ p, main good_startup
         [Pass [SIGKILL] (-1) EINTR 0 NC_MSG_NONE None free_session
               quiet_backend []] []
       = Killed SIGKILL p ∧ signals_handled (trace p) = [].
Proof.
  split; [apply (bool_decide_unpack _); vm_compute; exact I |].
  eexists. split; vm_compute; reflexivity.
Qed.

(** A signal that is discarded without handler, here [SIGCHLD], changes
    nothing. *)
Example discarded_signal :
  main good_startup
    [Pass [SIGCHLD] 0 0 0 NC_MSG_NONE None free_session quiet_backend
          [(2%nat, SIGWINCH)]]
    [(1%nat, SIGURG)]
  = main good_startup [timeout_pass] [].
Proof. vm_compute. reflexivity. Qed.

(** A termination signal while a request is dispatched: the request is
    answered, then [main] finds the flag set and returns with success. *)
Example signal_during_dispatch :
  ∃ p reply,
    main good_startup
      [Pass [] 1 0 POLLIN NC_MSG_RPC (Some get_request) free_session
            quiet_backend [(3%nat, SIGINT)];
       request_pass kill_request] []
    = Returned EXIT_SUCCESS p ∧
    sent (trace p) = [(get_request, reply, ReplyData "<data/>")] ∧
    signals_handled (trace p) = [SIGINT].
Proof. eexists _, _. repeat split; vm_compute; reflexivity. Qed.

(** A termination signal before [main] has installed its handler ends the
    process; once the handler is in place the handshake is completed and the
    loop is not entered. *)
Example signal_during_startup :
  (∃ p, main (Startup [(3%nat, SIGTERM)] 0 (Some 1%nat) (Some [])
                (λ l, Some l) false (λ _, None) true (λ _ _, None) 1000
                (λ _, None) (λ capabilities, Some free_session) 0)
          [request_pass get_request] []
        = Killed SIGTERM p) ∧
  (∃ p, main (Startup [(4%nat, SIGTERM)] 0 (Some 1%nat) (Some [])
                (λ l, Some l) false (λ _, None) true (λ _ _, None) 1000
                (λ _, None) (λ capabilities, Some free_session) 0)
          [request_pass get_request] []
        = Returned EXIT_SUCCESS p ∧ sent (trace p) = []).
Proof.
  split; [eexists; vm_compute; reflexivity |].
  eexists. split; vm_compute; reflexivity.
Qed.

(** Under [ENABLE_TLS], with a certificate subject that has its common
    name, [get_tls_username] writes behind its buffer: the start-up does not
    get through. *)
Example tls_startup_crashes :
  main (Startup [] 0 (Some 1%nat) (Some []) (λ l, Some l) true stunnel_env
          true (λ _ _, Some free_session) 1000 (λ _, None) (λ _, None) 0)
    [request_pass get_request] []
  = Crashed.
Proof. vm_compute. reflexivity. Qed.

(** Without a common name the user name is NULL, and an agent run by root
    hands it to [getpwnam]. *)
Example tls_root_without_name :
  main (Startup [] 0 (Some 1%nat) (Some []) (λ l, Some l) true
          (λ _, Some "/C=CZ/O=CESNET") true (λ _ _, Some free_session) 0
          (λ _, None) (λ _, None) 0)
    [request_pass get_request] []
  = Crashed ∧
  ∃ p, main (Startup [] 0 (Some 1%nat) (Some []) (λ l, Some l) true
               (λ _, Some "/C=CZ/O=CESNET") true (λ _ _, Some free_session)
               1000 (λ _, None) (λ _, None) 0)
         [hangup_pass] []
       = Returned EXIT_SUCCESS p.
Proof.
  split; [vm_compute; reflexivity |]. eexists. vm_compute. reflexivity.
Qed.

(** * More of the agent

    Further properties of the dispatcher, the loop and the start-up. *)

(** ** What a dispatch changes *)

(** The reply built by the [switch], for every operation: the flag is set
    by close-session and by nothing else; outside create-subscription the
    reply is the only new object; a thread is started at most once, and
    only for an accepted subscription. *)
Lemma build_reply_effect a s conn rpc p :
  wp (build_reply a s conn rpc) p (λ reply pb,
    ∃ r, heap pb !! reply = Some (ObjReply r) ∧ quiet p pb ∧
      (done pb = match nc_rpc_get_op rpc with
                 | NC_OP_CLOSESESSION => 1
                 | _ => done p
                 end ∧
       (nc_rpc_get_op rpc ≠ NC_OP_CREATESUBSCRIPTION →
        heap pb = <[reply:=ObjReply r]> (heap p) ∧ heap p !! reply = None) ∧
       (threads (trace pb) = threads (trace p) ∨
        ∃ ntf_config,
          threads (trace pb) = threads (trace p) ++ [ntf_config] ∧
          accepted a s rpc ∧ ans_malloc a = true ∧
          ans_pthread_create a = 0))).
Proof.
  unfold build_reply.
  destruct (nc_rpc_get_op rpc) eqn:Hop.
  all: repeat wp_step.
  all: eexists; split; [heap_fact | split; [quiet_done |]].
  all: split; [reflexivity | split].
  all: try (intros _; cbn [heap done trace emit] in *; split;
            [reflexivity | assumption]).
  all: try (intros Hne; exfalso; apply Hne; reflexivity).
  all: cbn [heap done trace emit]; rewrite ?threads_app, ?app_nil_r.
  all: try (left; reflexivity).
  all: try match goal with
           | H : negb (0 =? 0) = true |- _ => cbn in H; discriminate H
           end.
  right. eexists. split; [reflexivity |].
  apply nc_cpblts_enabled_some in Heqb. apply Z.eqb_neq in Heqb0.
  apply negb_false_iff, bool_decide_eq_true in Heqb1.
  apply Z.eqb_eq in Heqb3. unfold accepted. auto.
Qed.

Lemma process_message_effect a s conn rpc p :
  ∃ p',
    process_message a s conn (Some rpc) p = Some (EXIT_SUCCESS, p') ∧
    done p' = match nc_rpc_get_op rpc with
              | NC_OP_CLOSESESSION => 1
              | _ => done p
              end ∧
    (nc_rpc_get_op rpc ≠ NC_OP_CREATESUBSCRIPTION → heap p' = heap p) ∧
    (threads (trace p') = threads (trace p) ∨
     ∃ ntf_config,
       threads (trace p') = threads (trace p) ++ [ntf_config] ∧
       accepted a s rpc ∧ ans_malloc a = true ∧ ans_pthread_create a = 0).
Proof.
  destruct (dispatch_sends_from_build a s conn rpc p _
              (build_reply_effect a s conn rpc p))
    as (reply & r & pb & p' & [Hpm _] & (Hdone & Hheap & Hthr)
        & Hd' & Hh' & Ht').
  exists p'. split; [exact Hpm |]. split; [congruence |]. split.
  - intros Hne. destruct (Hheap Hne) as [Hpb Hfresh].
    rewrite Hh', Hpb. apply delete_insert_id, Hfresh.
  - rewrite Ht'. exact Hthr.
Qed.

(** X1. The shutdown flag after a dispatch, for every request, null or not:
    it is 1 after a close-session request and otherwise what it was; no
    other operation, whatever its outcome, sets or clears it. *)
Theorem dispatch_flag a s conn rpc p :
  ∃ z p',
    process_message a s conn rpc p = Some (z, p') ∧
    done p' = match requested_op rpc with
              | Some NC_OP_CLOSESESSION => 1
              | _ => done p
              end.
Proof.
  destruct rpc as [rpc |].
  - destruct (process_message_effect a s conn rpc p)
      as (p' & Hpm & Hdone & _).
    exists EXIT_SUCCESS, p'. split; [exact Hpm |]. cbn.
    rewrite Hdone. destruct (nc_rpc_get_op rpc); reflexivity.
  - eexists _, _. split; reflexivity.
Qed.

(** X2. A dispatch that is not of a create-subscription request leaves the
    heap exactly as it found it: the reply it allocates is freed, nothing
    else is allocated and nothing of the caller is freed. *)
Theorem dispatch_restores_heap a s conn rpc p :
  requested_op rpc ≠ Some NC_OP_CREATESUBSCRIPTION →
  ∃ z p', process_message a s conn rpc p = Some (z, p') ∧ heap p' = heap p.
Proof.
  intros Hne. destruct rpc as [rpc |].
  - destruct (process_message_effect a s conn rpc p)
      as (p' & Hpm & _ & Hheap & _).
    exists EXIT_SUCCESS, p'. split; [exact Hpm |]. apply Hheap.
    intros Hop. apply Hne. cbn. rewrite Hop. reflexivity.
  - eexists _, _. split; reflexivity.
Qed.

(** X3. A dispatch starts at most one thread, and starts one only for a
    create-subscription request that passed the three checks, with the
    configuration allocated and [pthread_create] returning 0. *)
Theorem dispatch_threads a s conn rpc p :
  ∃ z p',
    process_message a s conn rpc p = Some (z, p') ∧
    (threads (trace p') = threads (trace p) ∨
     ∃ request ntf_config,
       rpc = Some request ∧
       threads (trace p') = threads (trace p) ++ [ntf_config] ∧
       accepted a s request ∧ ans_malloc a = true ∧
       ans_pthread_create a = 0).
Proof.
  destruct rpc as [rpc |].
  - destruct (process_message_effect a s conn rpc p)
      as (p' & Hpm & _ & _ & Hthr).
    exists EXIT_SUCCESS, p'. split; [exact Hpm |].
    destruct Hthr as [H | (cfg & H)]; [left; exact H |].
    right. exists rpc, cfg. tauto.
  - eexists _, _. split; [reflexivity |]. left. cbn.
    rewrite threads_app, app_nil_r. reflexivity.
Qed.

(** ** Operations handed to the backend *)

Lemma build_reply_delegated a s conn rpc p :
  delegated (nc_rpc_get_op rpc) →
  wp (build_reply a s conn rpc) p (λ reply pb,
    ∃ r, heap pb !! reply = Some (ObjReply r) ∧ quiet p pb ∧
      (r = ans_comm_operation a rpc ∧
       trace pb = trace p ++ [CommOperation conn rpc])).
Proof.
  intros (Hc & Hk & Hs). unfold build_reply.
  destruct (nc_rpc_get_op rpc) eqn:Hop; try contradiction.
  all: repeat wp_step.
  all: eexists; split; [heap_fact | split; [quiet_done |]].
  all: split; reflexivity.
Qed.

(** X4. A request whose operation is none of close-session, kill-session
    and create-subscription is handed to the backend as it is, once, and the
    backend's reply is sent back as it is; the flag and the heap are left as
    they were and no thread is started. *)
Theorem delegated_operation a s conn rpc p :
  delegated (nc_rpc_get_op rpc) →
  ∃ reply,
    process_message a s conn (Some rpc) p =
      Some (EXIT_SUCCESS,
            Process (done p) (heap p)
              (trace p ++ [CommOperation conn rpc;
                           SendReply rpc reply (ans_comm_operation a rpc);
                           ReplyFree reply])).
Proof.
  intros Hdel.
  destruct (process_message_from_build a s conn rpc p _
              (build_reply_delegated a s conn rpc p Hdel))
    as (reply & r & pb & pre & Hpm & Htr & _ & -> & Htr').
  destruct (process_message_effect a s conn rpc p)
    as (p' & Hpm' & Hdone & Hheap & _).
  rewrite Hpm in Hpm'. injection Hpm' as <-. cbn [done heap] in *.
  exists reply. rewrite Hpm. do 2 f_equal.
  rewrite Htr' in Htr. apply app_inv_head in Htr. subst pre.
  destruct Hdel as (Hc & Hk & Hs).
  rewrite Hheap by exact Hs. rewrite Hdone.
  destruct (nc_rpc_get_op rpc); try reflexivity; contradiction.
Qed.

(** ** More on create-subscription *)

Lemma build_reply_turned_down a s conn rpc p :
  turned_down a s rpc →
  wp (build_reply a s conn rpc) p (λ reply pb,
    ∃ r, heap pb !! reply = Some (ObjReply r) ∧ quiet p pb ∧
      (r = ans_ncntf_subscription_check a rpc ∧
       pb = Process (done p) (<[reply:=ObjReply r]> (heap p)) (trace p) ∧
       heap p !! reply = None)).
Proof.
  intros (Hop & Hcap & Hntf & Hty). unfold build_reply. rewrite Hop.
  apply nc_cpblts_enabled_some in Hcap. rewrite Hcap.
  apply Z.eqb_neq in Hntf. rewrite Hntf. cbv iota.
  apply wp_bind. wp_step. apply wp_bind. wp_step.
  rewrite bool_decide_eq_false_2 by exact Hty. cbn [negb].
  wp_step. eexists; split; [heap_fact | split; [quiet_done |]].
  split; [reflexivity |]. split; [reflexivity | assumption].
Qed.

(** X5. A create-subscription request that passes the capability and the
    eligibility checks and is turned down by the subscription check is
    answered with the reply of that check, as it is; nothing is allocated
    for a thread, no thread is started, and the flag and the heap are left
    as they were. *)
Theorem subscription_turned_down a s conn rpc p :
  turned_down a s rpc →
  ∃ reply,
    process_message a s conn (Some rpc) p =
      Some (EXIT_SUCCESS,
            Process (done p) (heap p)
              (trace p ++ [SendReply rpc reply
                             (ans_ncntf_subscription_check a rpc);
                           ReplyFree reply])).
Proof.
  intros Hdown.
  destruct (process_message_from_build a s conn rpc p _
              (build_reply_turned_down a s conn rpc p Hdown))
    as (reply & r & pb & pre & Hpm & Htr & _ & -> & -> & Hfresh).
  exists reply. rewrite Hpm. clear Hpm. cbn [done heap trace] in *.
  rewrite <- (app_nil_r (trace p)) in Htr at 1.
  apply app_inv_head in Htr. subst pre. cbn [app].
  rewrite delete_insert_id by exact Hfresh. reflexivity.
Qed.

(** X6. When a create-subscription request passes the three checks and the
    thread starts, the client gets the reply of the subscription check; the
    one thread started is given a configuration that holds the session and
    a copy of the request; the flag is left as it was; and when that thread
    has run to its end, the heap is what it was before the request. *)
Theorem subscription_started a s conn rpc p :
  accepted a s rpc → ans_malloc a = true → ans_pthread_create a = 0 →
  ∃ p' ntf_config dup,
    dispatch_sends a s conn rpc p (ans_ncntf_subscription_check a rpc) p' ∧
    done p' = done p ∧
    threads (trace p') = threads (trace p) ++ [ntf_config] ∧
    heap p' !! ntf_config = Some (ObjNtfConfig (NtfThreadConfig s dup)) ∧
    heap p' !! dup = Some (ObjRpc rpc) ∧
    ∃ p'', notification_thread ntf_config p' = Some (tt, p'') ∧
           heap p'' = heap p ∧ done p'' = done p ∧
           trace p'' = trace p' ++ [NtfDispatchSend dup].
Proof.
  intros Hacc Hmalloc Hthread.
  destruct (dispatch_sends_from_build a s conn rpc p _
              (build_reply_thread_started a s conn rpc p Hacc Hmalloc Hthread))
    as (reply & r & pb & p' & Hd & (-> & cfg & dup & Hthr & Hcr & Hdr & Hcd
                                     & Hcfg' & Hdup' & Hc & Hdp & Hr & Hframe)
        & Hdone & Hheap & Hthr').
  destruct (process_message_effect a s conn rpc p)
    as (p1 & Hpm1 & Hdone1 & _).
  destruct Hd as [Hpm Hsent]. rewrite Hpm in Hpm1. injection Hpm1 as <-.
  destruct Hacc as (Hop & Hacc). rewrite Hop in Hdone1.
  assert (Hcfg1 : heap p' !! cfg
                  = Some (ObjNtfConfig (NtfThreadConfig s dup)))
    by (rewrite Hheap, lookup_delete_ne by congruence; exact Hcfg').
  assert (Hdup1 : heap p' !! dup = Some (ObjRpc rpc))
    by (rewrite Hheap, lookup_delete_ne by congruence; exact Hdup').
  exists p', cfg, dup. split; [split; assumption |].
  split; [exact Hdone1 |]. split; [congruence |].
  split; [exact Hcfg1 |]. split; [exact Hdup1 |].
  eexists. split.
  - unfold notification_thread, load_config, ncntf_dispatch_send,
      nc_rpc_free, free, say, mbind, M_bind, mret, M_ret.
    rewrite Hcfg1. cbn [session subscribe_rpc]. rewrite Hdup1.
    cbn [heap emit done trace]. rewrite Hdup1. cbn [heap emit done trace].
    rewrite lookup_delete_ne by congruence. rewrite Hcfg1. reflexivity.
  - cbn [heap done trace]. split; [| split; [exact Hdone1 | reflexivity]].
    rewrite Hheap. apply map_eq. intros h.
    destruct (decide (h = cfg)) as [-> | Hn1].
    { rewrite lookup_delete_eq. congruence. }
    rewrite lookup_delete_ne by congruence.
    destruct (decide (h = dup)) as [-> | Hn2].
    { rewrite lookup_delete_eq. congruence. }
    rewrite lookup_delete_ne by congruence.
    destruct (decide (h = reply)) as [-> | Hn3].
    { rewrite lookup_delete_eq. congruence. }
    rewrite lookup_delete_ne by congruence.
    apply Hframe; assumption.
Qed.

Lemma build_reply_allocation_leak a s conn rpc p :
  accepted a s rpc → ans_malloc a = false →
  wp (build_reply a s conn rpc) p (λ reply pb,
    ∃ r, heap pb !! reply = Some (ObjReply r) ∧ quiet p pb ∧
      (r = allocation_failed ∧
       ∃ check,
         heap p !! check = None ∧ heap p !! reply = None ∧ check ≠ reply ∧
         pb = Process (done p)
                (<[reply:=ObjReply r]>
                   (<[check:=ObjReply (ans_ncntf_subscription_check a rpc)]>
                      (heap p)))
                (trace p ++ [ClbPrint NC_VERB_ERROR
                               "Memory allocation failed."]))).
Proof.
  intros Hacc Hmalloc. rewrite (accepted_enters a s conn rpc Hacc).
  destruct Hacc as (_ & _ & _ & Hty).
  unfold malloc. rewrite Hmalloc.
  repeat wp_step.
  - rewrite Hty in *. discriminate.
  - eexists; split; [heap_fact | split; [quiet_done |]].
    split; [reflexivity |].
    cbn [heap done trace emit] in *.
    match goal with
    | H : <[?c:=_]> _ !! _ = None |- _ =>
        exists c; apply lookup_insert_None in H as [H ?]
    end.
    split; [assumption |]. split; [assumption |].
    split; [assumption | reflexivity].
Qed.

(** X7. When a create-subscription request passes the three checks and
    [malloc] fails, the client is sent the operation-failed error, and the
    reply of the subscription check, which that error replaces, is never
    freed: it is the one object the heap has gained on return. *)
Theorem allocation_failure_leaks_check_reply a s conn rpc p :
  accepted a s rpc → ans_malloc a = false →
  ∃ reply check,
    heap p !! check = None ∧
    process_message a s conn (Some rpc) p =
      Some (EXIT_SUCCESS,
            Process (done p)
              (<[check:=ObjReply (ans_ncntf_subscription_check a rpc)]>
                 (heap p))
              (trace p ++ [ClbPrint NC_VERB_ERROR "Memory allocation failed.";
                           SendReply rpc reply allocation_failed;
                           ReplyFree reply])).
Proof.
  intros Hacc Hmalloc.
  destruct (process_message_from_build a s conn rpc p _
              (build_reply_allocation_leak a s conn rpc p Hacc Hmalloc))
    as (reply & r & pb & pre & Hpm & Htr & _ & -> & chk & Hchk & Hfresh
        & Hne & ->).
  exists reply, chk. split; [exact Hchk |]. rewrite Hpm. clear Hpm.
  cbn [done heap trace] in *. apply app_inv_head in Htr. subst pre.
  do 3 f_equal. rewrite delete_insert_eq. apply delete_id.
  rewrite lookup_insert_ne by exact Hne. exact Hfresh.
Qed.

(** ** More on kill-session and close-session *)

(** Outside create-subscription, the state after the dispatch. *)
Lemma process_message_exact a s conn rpc p
    (Q : nat → nc_reply → process → Prop) :
  nc_rpc_get_op rpc ≠ NC_OP_CREATESUBSCRIPTION →
  wp (build_reply a s conn rpc) p (λ reply pb,
    ∃ r, heap pb !! reply = Some (ObjReply r) ∧ quiet p pb ∧ Q reply r pb) →
  ∃ reply r pb pre,
    process_message a s conn (Some rpc) p =
      Some (EXIT_SUCCESS,
            Process (match nc_rpc_get_op rpc with
                     | NC_OP_CLOSESESSION => 1
                     | _ => done p
                     end)
                    (heap p)
                    (trace p ++ pre ++ [SendReply rpc reply r;
                                        ReplyFree reply]))
    ∧ trace pb = trace p ++ pre ∧ Q reply r pb.
Proof.
  intros Hne Hb.
  destruct (process_message_from_build a s conn rpc p Q Hb)
    as (reply & r & pb & pre & Hpm & Htr & _ & HQ).
  destruct (process_message_effect a s conn rpc p)
    as (p' & Hpm' & Hdone & Hheap & _).
  rewrite Hpm in Hpm'. injection Hpm' as <-. cbn [done heap] in *.
  exists reply, r, pb, pre. split; [| auto].
  rewrite Hpm, Hdone, (Hheap Hne). reflexivity.
Qed.

Lemma build_reply_kill_refused a s conn rpc p :
  nc_rpc_get_op rpc = NC_OP_KILLSESSION →
  corrupted rpc ∨ session_id_child rpc = None →
  wp (build_reply a s conn rpc) p (λ reply pb,
    ∃ r, heap pb !! reply = Some (ObjReply r) ∧ quiet p pb ∧
      ∃ msg, trace pb = trace p ++ [ClbPrint NC_VERB_ERROR msg]).
Proof.
  intros Hop Hbad. unfold build_reply. rewrite Hop.
  repeat wp_step.
  all: eexists; split; [heap_fact | split; [quiet_done |]].
  all: try (eexists; reflexivity).
  exfalso. unfold corrupted, session_id_child in Hbad.
  repeat match goal with
         | H : ncxml_rpc_get_op_content _ = _ |- _ => rewrite H in Hbad
         | H : children _ = _ |- _ => rewrite H in Hbad
         | H : (xmlStrEqual _ _ =? 0) = false |- _ =>
             apply xmlStrEqual_true in H
         end.
  destruct Hbad as [Hbad | Hbad].
  - apply Hbad. congruence.
  - rewrite decide_True in Hbad by assumption. discriminate.
Qed.

(** X8. For a kill-session request the backend is asked to kill a session
    exactly when the payload is well formed, then once and with the text of
    the first child; when the payload is corrupt or the first child is not
    a [session-id], the request is answered without any call to the
    backend.  Either way the flag and the heap are left as they were. *)
Theorem kill_session_backend_calls a s conn rpc p :
  nc_rpc_get_op rpc = NC_OP_KILLSESSION →
  (corrupted rpc ∨ session_id_child rpc = None →
   ∃ reply r msg,
     process_message a s conn (Some rpc) p =
       Some (EXIT_SUCCESS,
             Process (done p) (heap p)
               (trace p ++ [ClbPrint NC_VERB_ERROR msg;
                            SendReply rpc reply r; ReplyFree reply]))) ∧
  (¬ corrupted rpc → ∀ child, session_id_child rpc = Some child →
   ∃ reply,
     process_message a s conn (Some rpc) p =
       Some (EXIT_SUCCESS,
             Process (done p) (heap p)
               (trace p ++ [CommKillSession conn (xmlNodeGetContent child);
                            SendReply rpc reply
                              (ans_comm_kill_session a
                                 (xmlNodeGetContent child));
                            ReplyFree reply]))).
Proof.
  intros Hop.
  assert (Hne : nc_rpc_get_op rpc ≠ NC_OP_CREATESUBSCRIPTION)
    by (rewrite Hop; discriminate).
  split.
  - intros Hbad.
    destruct (process_message_exact a s conn rpc p _ Hne
                (build_reply_kill_refused a s conn rpc p Hop Hbad))
      as (reply & r & pb & pre & Hpm & Htr & msg & Htr').
    exists reply, r, msg. rewrite Hpm, Hop.
    rewrite Htr' in Htr. apply app_inv_head in Htr. subst pre. reflexivity.
  - intros Hnc child Hchild.
    destruct (process_message_exact a s conn rpc p _ Hne
                (build_reply_kill_session a s conn rpc p Hop))
      as (reply & r & pb & pre & Hpm & Htr & _ & _ & Hk).
    destruct (Hk Hnc child Hchild) as [-> Htr'].
    exists reply. rewrite Hpm, Hop.
    rewrite Htr' in Htr. apply app_inv_head in Htr. subst pre. reflexivity.
Qed.

(** A close-session request: the backend's [comm_close] is called once,
    before the reply is sent, and the heap is left as it was. *)
Lemma process_message_close_session a s conn rpc p :
  nc_rpc_get_op rpc = NC_OP_CLOSESESSION →
  ∃ reply r,
    process_message a s conn (Some rpc) p =
      Some (EXIT_SUCCESS,
            Process 1 (heap p)
              (trace p ++ [CommClose conn; SendReply rpc reply r;
                           ReplyFree reply])).
Proof.
  intros Hop.
  assert (Hne : nc_rpc_get_op rpc ≠ NC_OP_CREATESUBSCRIPTION)
    by (rewrite Hop; discriminate).
  destruct (process_message_exact a s conn rpc p _ Hne
              (build_reply_close_session a s conn rpc p Hop))
    as (reply & r & pb & pre & Hpm & Htr & _ & _ & Htr').
  exists reply, r. rewrite Hpm, Hop.
  rewrite Htr' in Htr. apply app_inv_head in Htr. subst pre. reflexivity.
Qed.

(** ** The notification thread *)

(** X9. The notification thread, given a live configuration that points to
    a live copy of the request, streams the notifications, frees the copy
    and the configuration and nothing else, sends no reply of its own and
    leaves the flag as it is; the configuration is then gone, so that the
    thread cannot be run on it a second time. *)
Theorem notification_thread_once arg c rpc p :
  heap p !! arg = Some (ObjNtfConfig c) →
  heap p !! subscribe_rpc c = Some (ObjRpc rpc) →
  ∃ p',
    notification_thread arg p = Some (tt, p') ∧
    heap p' = delete arg (delete (subscribe_rpc c) (heap p)) ∧
    done p' = done p ∧
    trace p' = trace p ++ [NtfDispatchSend (subscribe_rpc c)] ∧
    notification_thread arg p' = None.
Proof.
  intros Hcfg Hrpc.
  assert (Hne : arg ≠ subscribe_rpc c)
    by (intros Heq; rewrite <- Heq in Hrpc; congruence).
  eexists. split.
  - unfold notification_thread, load_config, ncntf_dispatch_send,
      nc_rpc_free, free, say, mbind, M_bind, mret, M_ret.
    rewrite Hcfg, Hrpc. cbn [heap emit done trace]. rewrite Hrpc.
    cbn [heap emit done trace].
    rewrite lookup_delete_ne by congruence. rewrite Hcfg. reflexivity.
  - cbn [heap done trace]. repeat split.
    unfold notification_thread, load_config, mbind, M_bind.
    cbn [heap]. rewrite lookup_delete_eq. reflexivity.
Qed.

(** ** Signals in a row *)

Lemma signal_handler_sent sig p :
  match signal_handler sig p with
  | Resumed p' | Terminated _ p' =>
      sent (trace p') = sent (trace p) ∧
      releases (trace p') = releases (trace p) ∧
      closes (trace p') = closes (trace p) ∧ heap p' = heap p
  end.
Proof.
  unfold signal_handler, sent, releases, closes.
  destruct (_ || _); [destruct (done _ =? 0) |];
    cbn [trace emit heap done]; rewrite ?omap_app; cbn;
    rewrite ?app_nil_r; auto.
Qed.

Lemma deliver_sent sigs p :
  match deliver sigs p with
  | Resumed p' | Terminated _ p' =>
      sent (trace p') = sent (trace p) ∧
      releases (trace p') = releases (trace p) ∧
      closes (trace p') = closes (trace p) ∧ heap p' = heap p
  end.
Proof.
  revert p. induction sigs as [| sig rest IH]; intros p; cbn [deliver].
  - auto.
  - assert (H := signal_handler_sent sig p).
    destruct (signal_handler sig p) as [p1 | st p1]; [| exact H].
    specialize (IH p1). destruct H as (H1 & H2 & H3 & H4).
    destruct (deliver rest p1); rewrite <- H1, <- H2, <- H3, <- H4; exact IH.
Qed.

(** X10. A process survives the signals delivered in a row exactly when
    there is none, or when there is one, of the termination set, and the
    flag was not yet set; any longer burst, any other signal, and any
    signal after the flag is set end it. *)
Theorem deliver_survival sigs p :
  (∃ p', deliver sigs p = Resumed p') ↔
  sigs = [] ∨
  ∃ sig, sigs = [sig] ∧ sig ∈ termination_signals ∧ done p = 0.
Proof.
  split.
  - intros [p' H]. destruct sigs as [| s1 rest]; [auto |]. right.
    cbn [deliver] in H.
    destruct (signal_handler s1 p) as [p1 |] eqn:H1; [| discriminate].
    apply signal_handler_resumed in H1 as (Hin & Hd & Hd1 & _).
    destruct rest as [| s2 rest]; [eauto |]. cbn [deliver] in H.
    destruct (signal_handler s2 p1) as [p2 |] eqn:H2; [| discriminate].
    apply signal_handler_resumed in H2 as (_ & Hd' & _). congruence.
  - intros [-> | (sig & -> & Hin & Hd)]; [eexists; reflexivity |].
    cbn [deliver]. unfold signal_handler.
    rewrite recognized_spec, bool_decide_eq_true_2 by exact Hin.
    cbn [done emit heap trace]. rewrite Hd. eexists. reflexivity.
Qed.

(** ** More on the loop *)

Lemma loop_body_no_event e con s p p1 :
  poll_ret e = 0 ∨
  (0 < poll_ret e ∧ Z.land (revents e) POLLHUP = 0 ∧
   Z.land (revents e) POLLERR = 0 ∧ Z.land (revents e) POLLIN = 0) →
  arrive_all installed (signals e) p = Survived p1 → interrupts e = [] →
  loop_body e con s p = Continue s p1.
Proof.
  intros Hcase Hsig Hint. unfold loop_body, after_poll. rewrite Hsig, Hint.
  destruct Hcase as [Hret | (Hret & Hhup & Herr & Hin)].
  - rewrite Hret. reflexivity.
  - rewrite Hhup, Herr, Hin.
    replace (poll_ret e <? 0) with false by (symmetry; apply Z.ltb_ge; lia).
    replace (poll_ret e =? 0) with false by (symmetry; apply Z.eqb_neq; lia).
    replace (poll_ret e >? 0) with true by (symmetry; apply Z.gtb_lt; lia).
    reflexivity.
Qed.

Lemma loop_body_idle e con s p :
  idle_pass e → ∃ s', loop_body e con s p = Continue s' p.
Proof.
  intros [[Hsig Hlater] [Hret | [Hint | [Hnone | [[Hready Hty] Hst]]]]].
  - exists s. apply loop_body_no_event; [auto | | exact Hlater].
    rewrite Hsig. reflexivity.
  - exists s. apply loop_body_interrupted; [exact Hint | | exact Hlater].
    rewrite Hsig. reflexivity.
  - exists s. apply loop_body_no_event; [auto | | exact Hlater].
    rewrite Hsig. reflexivity.
  - exists (recv_session e).
    rewrite (loop_body_receive e con s p p Hready)
      by (rewrite ?Hsig; auto).
    rewrite bool_decide_eq_false_2 by exact Hty. cbn [negb].
    destruct (recv_type e); try reflexivity.
    rewrite Hst by reflexivity. reflexivity.
Qed.

(** X11. Passes in which there is nothing to do, timeouts, interrupted
    waits, events with none of the flags the loop looks at, receives that
    yield no request on a working session, change nothing: after any
    number of them the process is waiting in the loop in the state it
    started from. *)
Theorem idle_passes_change_nothing script fin con s p :
  Forall idle_pass script → done p = 0 →
  session_loop script fin con s p = Waiting p.
Proof.
  intros Hall Hd. revert s.
  induction Hall as [| e rest He _ IH]; intros s.
  - cbn. rewrite Hd. reflexivity.
  - destruct (loop_body_idle e con s p He) as [s' Hb].
    rewrite (session_loop_step e rest fin con s p s' p Hd Hb). apply IH.
Qed.

(** X12. A hang-up wins over everything else the wait may report: with
    [POLLHUP] set, whatever the other flags, nothing is received or
    dispatched, the backend is told once to close, and [main] leaves
    through [cleanup] with success, the passes that would follow never
    taking place.  (No signal arrives after the wait.) *)
Theorem hangup_closes_and_leaves e rest con s p p1 :
  done p = 0 → arrive_all installed (signals e) p = Survived p1 →
  interrupts e = [] →
  0 < poll_ret e → Z.land (revents e) POLLHUP ≠ 0 →
  session_loop (e :: rest) [] con s p =
    Returned EXIT_SUCCESS
      (Process (done p1) (heap p1)
         (trace p1 ++ [ClbPrint NC_VERB_VERBOSE "Connection closed by client";
                       CommClose con; SessionFree; NcClose])).
Proof.
  intros Hd Hsig Hint Hret Hhup.
  erewrite session_loop_cleanup; [| exact Hd |].
  2: { unfold loop_body, after_poll. rewrite Hsig, Hint.
       replace (poll_ret e <? 0) with false by (symmetry; apply Z.ltb_ge; lia).
       replace (poll_ret e =? 0) with false
         by (symmetry; apply Z.eqb_neq; lia).
       replace (poll_ret e >? 0) with true by (symmetry; apply Z.gtb_lt; lia).
       apply Z.eqb_neq in Hhup. rewrite Hhup. reflexivity. }
  rewrite cleanup_calm. unfold emit. cbn. rewrite <- !app_assoc.
  reflexivity.
Qed.

(** X13. On a poll error (other than [EINTR]) and on an I/O error reported
    without a hang-up, [main] logs the error and leaves through [cleanup]
    with success, and the backend is not told to close: no call to it is
    made on these two ways out.  (No signal arrives after the wait.) *)
Theorem error_exits_skip_backend e rest con s p p1 :
  done p = 0 → arrive_all installed (signals e) p = Survived p1 →
  interrupts e = [] →
  (poll_ret e < 0 → errno e ≠ EINTR →
   session_loop (e :: rest) [] con s p =
     Returned EXIT_SUCCESS
       (Process (done p1) (heap p1)
          (trace p1 ++ [ClbPrint NC_VERB_ERROR "poll failed.";
                        SessionFree; NcClose]))) ∧
  (0 < poll_ret e → Z.land (revents e) POLLHUP = 0 →
   Z.land (revents e) POLLERR ≠ 0 →
   session_loop (e :: rest) [] con s p =
     Returned EXIT_SUCCESS
       (Process (done p1) (heap p1)
          (trace p1 ++ [ClbPrint NC_VERB_ERROR "I/O error.";
                        SessionFree; NcClose]))).
Proof.
  intros Hd Hsig Hint. split.
  - intros Hret Herrno.
    erewrite session_loop_cleanup; [| exact Hd |].
    2: { unfold loop_body, after_poll. rewrite Hsig, Hint.
         replace (poll_ret e <? 0) with true
           by (symmetry; apply Z.ltb_lt; lia).
         apply Z.eqb_neq in Herrno. rewrite Herrno. reflexivity. }
    rewrite cleanup_calm. unfold emit. cbn. rewrite <- !app_assoc.
    reflexivity.
  - intros Hret Hhup Herr.
    erewrite session_loop_cleanup; [| exact Hd |].
    2: { unfold loop_body, after_poll. rewrite Hsig, Hint, Hhup.
         replace (poll_ret e <? 0) with false
           by (symmetry; apply Z.ltb_ge; lia).
         replace (poll_ret e =? 0) with false
           by (symmetry; apply Z.eqb_neq; lia).
         replace (poll_ret e >? 0) with true
           by (symmetry; apply Z.gtb_lt; lia).
         apply Z.eqb_neq in Herr. rewrite Herr. reflexivity. }
    rewrite cleanup_calm. unfold emit. cbn. rewrite <- !app_assoc.
    reflexivity.
Qed.

Lemma loop_body_request e con s p rpc p' :
  request_of e rpc →
  process_message (sheet e) (recv_session e) con (Some rpc)
    (emit (ClbPrint NC_VERB_VERBOSE "Processing client message") p)
  = Some (EXIT_SUCCESS, p') →
  loop_body e con s p = Continue (recv_session e) p'.
Proof.
  intros ([Hsig Hint] & Hready & Hty & Hrpc) Hpm.
  rewrite (loop_body_receive e con s p p Hready)
    by (rewrite ?Hsig; auto).
  rewrite bool_decide_eq_true_2 by exact Hty. cbn [negb].
  rewrite Hrpc, Hpm. reflexivity.
Qed.

Lemma session_loop_flagged rest fin con s p :
  done p = 1 → session_loop rest fin con s p = cleanup fin p.
Proof.
  intros Hd. destruct rest; cbn [session_loop]; rewrite Hd; reflexivity.
Qed.

(** X14. A close-session request ends the loop: it is dispatched, its one
    reply is sent, and at the next test of the flag [main] leaves through
    [cleanup] with success; the passes that would follow never take place,
    and the backend is told to close once.  (No signal arrives during the
    pass or the clean-up.) *)
Theorem close_session_ends_loop e rest con s p rpc :
  request_of e rpc → nc_rpc_get_op rpc = NC_OP_CLOSESESSION → done p = 0 →
  ∃ reply r,
    session_loop (e :: rest) [] con s p =
      Returned EXIT_SUCCESS
        (Process 1 (heap p)
           (trace p ++ [ClbPrint NC_VERB_VERBOSE "Processing client message";
                        CommClose con; SendReply rpc reply r;
                        ReplyFree reply; SessionFree; NcClose])).
Proof.
  intros Hreq Hop Hd.
  destruct (process_message_close_session (sheet e) (recv_session e) con rpc
              (emit (ClbPrint NC_VERB_VERBOSE "Processing client message") p)
              Hop) as (reply & r & Hpm).
  exists reply, r.
  rewrite (session_loop_step e rest [] con s p _ _ Hd
             (loop_body_request e con s p rpc _ Hreq Hpm)).
  rewrite session_loop_flagged, cleanup_calm by reflexivity.
  unfold emit. cbn. rewrite <- !app_assoc. reflexivity.
Qed.

Lemma dispatch_reply_and_flag a s conn rpc p :
  ∃ reply r p',
    process_message a s conn (Some rpc) p = Some (EXIT_SUCCESS, p') ∧
    sent (trace p') = sent (trace p) ++ [(rpc, reply, r)] ∧
    done p' = match nc_rpc_get_op rpc with
              | NC_OP_CLOSESESSION => 1
              | _ => done p
              end.
Proof.
  destruct (dispatch_sends_from_build a s conn rpc p _
              (build_reply_effect a s conn rpc p))
    as (reply & r & pb & p' & [Hpm (reply' & Hsent)] & (Hdone & _) & Hd' & _).
  exists reply', r, p'. split; [exact Hpm |]. split; [exact Hsent |].
  congruence.
Qed.

Lemma requests_cons_request e rest rpc :
  request_of e rpc → requests (e :: rest) = rpc :: requests rest.
Proof.
  intros (_ & _ & _ & Hrpc). unfold requests. cbn. rewrite Hrpc. reflexivity.
Qed.

(** X15. Requests are answered one at a time and in the order they arrive:
    after a script of passes that each bring a request other than
    close-session, the process is waiting in the loop with the flag still
    unset, and the replies sent since the start are one per request, for
    the requests in their order of arrival. *)
Theorem replies_in_arrival_order script fin con s p :
  Forall ordinary_pass script → done p = 0 →
  ∃ p',
    session_loop script fin con s p = Waiting p' ∧ done p' = 0 ∧
    (sent (trace p')).*1.*1 = (sent (trace p)).*1.*1 ++ requests script.
Proof.
  intros Hall. revert s p.
  induction Hall as [| e rest (rpc & Hreq & Hop) _ IH]; intros s p Hd.
  - exists p. cbn. rewrite Hd, app_nil_r. auto.
  - destruct (dispatch_reply_and_flag (sheet e) (recv_session e) con rpc
                (emit (ClbPrint NC_VERB_VERBOSE "Processing client message")
                   p)) as (reply & r & p1 & Hpm & Hsent & Hdone).
    assert (Hd1 : done p1 = 0).
    { rewrite <- Hd. destruct (nc_rpc_get_op rpc); try exact Hdone.
      contradiction. }
    destruct (IH (recv_session e) p1 Hd1) as (p' & Hloop & Hd' & Hs').
    exists p'.
    rewrite (session_loop_step e rest fin con s p _ _ Hd
               (loop_body_request e con s p rpc _ Hreq Hpm)).
    split; [exact Hloop |]. split; [exact Hd' |].
    rewrite Hs', Hsent. cbn [trace emit].
    rewrite sent_app, app_nil_r, !fmap_app, <- app_assoc.
    rewrite (requests_cons_request e rest rpc Hreq). reflexivity.
Qed.

(** X19. When the receive announces a request and hands over none, the
    dispatcher is called with NULL, its failure is logged as a warning and
    nothing else happens: no reply is sent and the loop goes on with the
    next pass. *)
Theorem null_request_is_only_logged e rest fin con s p :
  undisturbed e → data_ready e → recv_type e = NC_MSG_RPC →
  recv_rpc e = None → done p = 0 →
  session_loop (e :: rest) fin con s p =
    session_loop rest fin con (recv_session e)
      (Process (done p) (heap p)
         (trace p ++ [ClbPrint NC_VERB_VERBOSE "Processing client message";
                      NcVerbError "Invalid RPC to process.";
                      ClbPrint NC_VERB_WARNING "Message processing failed"])).
Proof.
  intros [Hsig Hint] Hready Hty Hrpc Hd.
  apply session_loop_step; [exact Hd |].
  rewrite (loop_body_receive e con s p p Hready)
    by (rewrite ?Hsig; auto).
  rewrite bool_decide_eq_true_2 by exact Hty. cbn [negb]. rewrite Hrpc.
  unfold process_message, clb_print, nc_verb_error, say, emit,
    mbind, M_bind, mret, M_ret. cbn. rewrite <- !app_assoc. reflexivity.
Qed.

(** ** A signal while a request arrives *)

(** X23. The first termination signal does not cost the client its answer:
    when it is delivered during the wait in which a request arrives, the
    request is still received and dispatched and its one reply sent, and
    only then does [main] find the flag set and leave through [cleanup]
    with success.  ([SIGKILL] cannot be caught; no other signal arrives.) *)
Theorem request_answered_before_shutdown e rest con s p sig rpc :
  signals e = [sig] → interrupts e = [] →
  sig ∈ termination_signals → sig ≠ SIGKILL → done p = 0 →
  data_ready e → recv_type e = NC_MSG_RPC → recv_rpc e = Some rpc →
  ∃ p' reply r,
    session_loop (e :: rest) [] con s p = Returned EXIT_SUCCESS p' ∧
    sent (trace p') = sent (trace p) ++ [(rpc, reply, r)].
Proof.
  intros Hsig Hint Hin Hk Hd Hready Hty Hrpc.
  assert (Hh : arrive_all installed (signals e) p =
               Survived (Process 1 (heap p)
                           (trace p ++ [ClbPrint NC_VERB_VERBOSE
                                          "Signal received.";
                                        StderrSignal sig]))).
  { rewrite Hsig. cbn [arrive_all]. rewrite (arrive_first sig p Hin Hk Hd).
    reflexivity. }
  set (p1 := Process 1 (heap p) _) in Hh.
  destruct (dispatch_reply_and_flag (sheet e) (recv_session e) con rpc
              (emit (ClbPrint NC_VERB_VERBOSE "Processing client message")
                 p1)) as (reply & r & p2 & Hpm & Hsent & Hdone).
  assert (Hd2 : done p2 = 1)
    by (rewrite Hdone; destruct (nc_rpc_get_op rpc); reflexivity).
  assert (Hb : loop_body e con s p = Continue (recv_session e) p2).
  { rewrite (loop_body_receive e con s p p1 Hready Hh Hint).
    rewrite bool_decide_eq_true_2 by exact Hty. cbn [negb].
    rewrite Hrpc, Hpm. reflexivity. }
  rewrite (session_loop_step e rest [] con s p _ _ Hd Hb).
  rewrite session_loop_flagged, cleanup_calm by exact Hd2.
  eexists _, reply, r. split; [reflexivity |].
  cbn [trace emit]. rewrite !sent_app, Hsent. cbn [trace emit].
  subst p1. cbn [trace]. rewrite !sent_app. cbn. rewrite !app_nil_r.
  reflexivity.
Qed.

(** ** Accounts of a run *)

Lemma releases_app tr1 tr2 :
  releases (tr1 ++ tr2) = releases tr1 ++ releases tr2.
Proof. apply omap_app. Qed.

Lemma closes_app tr1 tr2 : closes (tr1 ++ tr2) = closes tr1 ++ closes tr2.
Proof. apply omap_app. Qed.

Lemma releases_calls tr : releases (calls tr) = releases tr.
Proof.
  unfold releases, calls. induction tr as [| e tr IH]; [reflexivity |].
  destruct e; cbn; rewrite ?IH; reflexivity.
Qed.

Lemma closes_calls tr : closes (calls tr) = closes tr.
Proof.
  unfold closes, calls. induction tr as [| e tr IH]; [reflexivity |].
  destruct e; cbn; rewrite ?IH; reflexivity.
Qed.

Lemma build_reply_calls a s conn rpc p :
  wp (build_reply a s conn rpc) p (λ reply pb,
    ∃ r, heap pb !! reply = Some (ObjReply r) ∧ quiet p pb ∧
      (releases (trace pb) = releases (trace p) ∧
       closes (trace pb) =
         closes (trace p) ++ match nc_rpc_get_op rpc with
                             | NC_OP_CLOSESESSION => [conn]
                             | _ => []
                             end)).
Proof.
  unfold build_reply.
  destruct (nc_rpc_get_op rpc) eqn:Hop.
  all: repeat wp_step.
  all: eexists; split; [heap_fact | split; [quiet_done |]].
  all: cbn [heap done trace emit];
    rewrite ?releases_app, ?closes_app, ?app_nil_r; cbn;
    rewrite ?app_nil_r; split; reflexivity.
Qed.

(** What one dispatch adds to the accounts, for a request or for NULL. *)
Lemma process_message_accounts a s conn rpc p :
  ∃ z p' new,
    process_message a s conn rpc p = Some (z, p') ∧
    sent (trace p') = sent (trace p) ++ new ∧ (length new ≤ 1)%nat ∧
    releases (trace p') = releases (trace p) ∧
    (closes (trace p') = closes (trace p) ∨
     closes (trace p') = closes (trace p) ++ [conn] ∧ done p' = 1).
Proof.
  destruct rpc as [rpc |].
  - destruct (process_message_from_build a s conn rpc p _
                (build_reply_calls a s conn rpc p))
      as (reply & r & pb & pre & Hpm & Htr & Hpre & Hrel & Hcl).
    destruct (dispatch_reply_and_flag a s conn rpc p)
      as (reply' & r' & p' & Hpm' & Hsent & Hdone).
    exists EXIT_SUCCESS, p', [(rpc, reply', r')].
    split; [exact Hpm' |]. split; [exact Hsent |]. split; [cbn; lia |].
    rewrite Hpm in Hpm'. injection Hpm' as <-. cbn [trace done] in *.
    rewrite app_assoc, <- Htr, releases_app, closes_app, Hrel, Hcl. cbn.
    rewrite ?app_nil_r. split; [reflexivity |].
    destruct (nc_rpc_get_op rpc); rewrite ?app_nil_r; auto.
  - eexists _, _, []. split; [reflexivity |]. cbn.
    rewrite sent_app, releases_app, closes_app, ?app_nil_r. cbn.
    rewrite ?app_nil_r. auto.
Qed.

Lemma accounts_nil con n : accounts con n [].
Proof. split; [reflexivity |]. split; [cbn; lia | auto]. Qed.

Lemma accounts_more con n n' l :
  (n ≤ n')%nat → accounts con n l → accounts con n' l.
Proof. intros Hn (Hr & Hs & Hc). split; [| split]; auto; lia. Qed.

Lemma accounts_prefix con n l l' : accounts con n (l ++ l') → accounts con n l.
Proof.
  unfold accounts. rewrite releases_app, sent_app, closes_app, length_app.
  intros (Hr & Hs & Hc). apply app_eq_nil in Hr as [Hr _].
  split; [exact Hr |]. split; [lia |].
  destruct (closes l) as [| c [| c' cl]]; [auto | | ].
  - destruct Hc as [Hc | Hc]; [discriminate |].
    injection Hc as -> _. auto.
  - destruct Hc as [Hc | Hc]; discriminate.
Qed.

Lemma accounts_calls con n l : accounts con n l → accounts con n (calls l).
Proof.
  unfold accounts. rewrite releases_calls, sent_calls, closes_calls. auto.
Qed.

(** The calls of one dispatch. *)
Lemma process_message_new_calls a s conn rpc p z p' :
  process_message a s conn rpc p = Some (z, p') →
  ∃ l, trace p' = trace p ++ l ∧ accounts conn 1 l ∧
       (closes l = [] ∨ done p' = 1).
Proof.
  intros Hpm.
  destruct (proj1 (process_message_tracked a s conn rpc) p z p' Hpm)
    as (l & Hl).
  destruct (process_message_accounts a s conn rpc p)
    as (z' & p'' & new & Hpm' & Hs & Hn & Hr & Hc).
  rewrite Hpm in Hpm'. injection Hpm' as <- <-.
  exists l. split; [exact Hl |].
  rewrite Hl, sent_app in Hs. apply app_inv_head in Hs.
  rewrite Hl, releases_app in Hr.
  rewrite Hl, closes_app in Hc.
  assert (Hr' : releases l = []).
  { apply (app_inv_head (releases (trace p))). rewrite Hr, app_nil_r.
    reflexivity. }
  destruct Hc as [Hc | [Hc Hd]].
  - assert (Hc' : closes l = []).
    { apply (app_inv_head (closes (trace p))). rewrite Hc, app_nil_r.
      reflexivity. }
    split; [| auto]. split; [exact Hr' |]. rewrite Hs. auto.
  - apply app_inv_head in Hc.
    split; [| auto]. split; [exact Hr' |]. rewrite Hs. auto.
Qed.

(** *** One pass *)

(** [grown con n p q]: from [p] to [q] the calls grew by a list within the
    accounts. *)
Lemma grown_follows con n p q l q' :
  calls (trace q) = calls (trace p) ++ l → accounts con n l →
  follows q q' →
  ∃ l', calls (trace q') = calls (trace p) ++ l' ∧ accounts con n l'.
Proof.
  intros Hc Ha (_ & Hc' & _). exists l. rewrite Hc'. auto.
Qed.

Lemma after_poll_accounts e con s p p1 :
  follows p p1 →
  always (after_poll e con s) p1
    (λ b p', pass_accounts con p
               match b with
               | Again s' => Continue s' p'
               | Leave s' => Cleanup s' p'
               end)
    (λ p', ∃ l, calls (trace p') = calls (trace p) ++ l ∧ accounts con 1 l)
    False.
Proof.
  intros Hf.
  assert (Hquiet : ∀ q n, follows p q →
            ∃ l, calls (trace q) = calls (trace p) ++ l ∧ accounts con n l).
  { intros q n (_ & Hc & _). exists []. rewrite app_nil_r.
    split; [exact Hc | apply accounts_nil]. }
  assert (Hagain : ∀ s' q, follows p q →
            always (again s') q
              (λ b p', pass_accounts con p
                         match b with
                         | Again s' => Continue s' p'
                         | Leave s' => Cleanup s' p'
                         end)
              (λ p', ∃ l, calls (trace p') = calls (trace p) ++ l ∧
                          accounts con 1 l) False).
  { intros s' q Hq. apply always_again. intros q' Hq'.
    assert (Hpq : follows p q') by follows_tac.
    split; [apply Hquiet, Hpq |]. cbn [mret M_ret pass_accounts].
    destruct Hpq as (_ & Hc & _).
    exists []. rewrite app_nil_r. split; [exact Hc |].
    split; [apply accounts_nil | auto]. }
  assert (Hlog : ∀ level msg s' q, follows p q →
            always (Stepwise.clb_print level msg;; mret (Leave s')) q
              (λ b p', pass_accounts con p
                         match b with
                         | Again s' => Continue s' p'
                         | Leave s' => Cleanup s' p'
                         end)
              (λ p', ∃ l, calls (trace p') = calls (trace p) ++ l ∧
                          accounts con 1 l) False).
  { intros level msg s' q Hq. unfold Stepwise.clb_print.
    apply always_bind, always_step. intros q' Hq'.
    assert (Hpq : follows p q') by follows_tac.
    split; [apply Hquiet, Hpq |]. cbn [clb_print say].
    apply always_ret. cbn [pass_accounts]. apply Hquiet. follows_tac. }
  unfold after_poll.
  destruct ((poll_ret e <? 0) && negb (errno e =? EINTR)); [apply Hlog, Hf |].
  destruct (poll_ret e =? 0); [apply Hagain, Hf |].
  destruct (poll_ret e >? 0); [| apply Hagain, Hf].
  destruct (negb (Z.land (revents e) POLLHUP =? 0)).
  { (* client hung up *)
    unfold Stepwise.clb_print, Stepwise.comm_close.
    apply always_bind, always_step. intros q1 Hq1.
    assert (Hpq1 : follows p q1) by follows_tac.
    split; [apply Hquiet, Hpq1 |]. cbn [clb_print say].
    apply always_bind, always_step. intros q2 Hq2.
    assert (Hpq2 : follows p q2) by follows_tac.
    split; [apply Hquiet, Hpq2 |].
    unfold comm_close, say, mbind, M_bind, mret, M_ret.
    apply always_ret. cbn [pass_accounts trace emit].
    destruct Hpq2 as (_ & Hc & _).
    exists [CommClose con]. rewrite calls_app, Hc.
    split; [reflexivity |]. split; [reflexivity |]. split; [cbn; lia | auto]. }
  destruct (negb (Z.land (revents e) POLLERR =? 0)); [apply Hlog, Hf |].
  destruct (negb (Z.land (revents e) POLLIN =? 0)); [| apply Hagain, Hf].
  (* data ready *)
  apply always_bind, always_step. intros q1 Hq1.
  assert (Hpq1 : follows p q1) by follows_tac.
  split; [apply Hquiet, Hpq1 |]. unfold nc_session_recv_rpc.
  cbn [mret M_ret].
  destruct (negb (bool_decide (recv_type e = NC_MSG_RPC))).
  { destruct (recv_type e); try (apply Hagain, Hpq1).
    destruct (negb _); [apply Hlog, Hpq1 | apply Hagain, Hpq1]. }
  unfold Stepwise.clb_print at 1.
  apply always_bind, always_step. intros q2 Hq2.
  assert (Hpq2 : follows p q2) by follows_tac.
  split; [apply Hquiet, Hpq2 |]. cbn [clb_print say].
  set (q3 := emit _ q2).
  assert (Hpq3 : follows p q3) by (subst q3; follows_tac).
  destruct (process_message_total (sheet e) (recv_session e) con (recv_rpc e)
              q3) as (z & p' & Hpm).
  destruct (process_message_new_calls _ _ _ _ _ _ _ Hpm)
    as (l & Hl & Ha & Hflag).
  apply always_bind.
  apply (always_tracked _ _ _ _ _ _
           (process_message_tracked (sheet e) (recv_session e) con
              (recv_rpc e))).
  - (* the dispatch returns *)
    intros z' p'' q' Hpm' Hq'. rewrite Hpm in Hpm'.
    injection Hpm' as <- <-.
    assert (Hdone : ∀ q, follows q' q →
              calls (trace q) = calls (trace p) ++ calls l ∧
              (closes (calls l) = [] ∨ done q = 1)).
    { intros q Hq. destruct (follows_trans _ _ _ Hq' Hq) as (_ & Hc & Hd).
      destruct Hpq3 as (_ & Hc3 & _).
      split; [rewrite Hc, Hl, calls_app, Hc3; reflexivity |].
      rewrite closes_calls. destruct Hflag as [Hcl | Hd']; [auto |].
      right. destruct Hd as [Hd | Hd]; congruence. }
    assert (Hrest : ∀ q, follows q' q →
              always (again (recv_session e)) q
                (λ b p', pass_accounts con p
                           match b with
                           | Again s' => Continue s' p'
                           | Leave s' => Cleanup s' p'
                           end)
                (λ p', ∃ l, calls (trace p') = calls (trace p) ++ l ∧
                            accounts con 1 l) False).
    { intros q Hq. apply always_again. intros q0 Hq0.
      destruct (Hdone q0 (follows_trans _ _ _ Hq Hq0)) as [Hc Hd].
      split; exists (calls l); auto using accounts_calls. }
    apply always_bind.
    destruct (negb (z =? EXIT_SUCCESS)).
    + unfold Stepwise.clb_print. apply always_step. intros q Hq.
      destruct (Hdone q Hq) as [Hc Hd].
      split; [exists (calls l); auto using accounts_calls |].
      cbn [clb_print say]. apply Hrest. follows_tac.
    + apply always_ret. apply Hrest, follows_refl.
  - (* the process ends during the dispatch *)
    intros q' (l0 & Hc & Hcut). destruct (Hcut z p' Hpm) as (l' & Hl').
    rewrite Hl in Hl'. apply app_inv_head in Hl'. subst l.
    destruct Hpq3 as (_ & Hc3 & _). exists (calls l0).
    rewrite Hc, Hc3. split; [reflexivity |].
    eapply accounts_calls, accounts_prefix, Ha.
  - rewrite Hpm. discriminate.
Qed.

Lemma loop_body_accounts e con s p : pass_accounts con p (loop_body e con s p).
Proof.
  assert (H := loop_body_always e con s p _ _
                 (λ p1 (Hf : follows p p1),
                    ex_intro (λ l, calls (trace p1) = calls (trace p) ++ l ∧
                                   accounts con 1 l) []
                      (conj (eq_trans (proj1 (proj2 Hf))
                               (eq_sym (app_nil_r _)))
                            (accounts_nil con 1)))
                 (after_poll_accounts e con s p)).
  destruct (loop_body e con s p); exact H.
Qed.

(** *** The clean-up *)

Lemma cleanup_accounts con n p p1 l fin :
  calls (trace p1) = calls (trace p) ++ l → accounts con n l →
  run_accounts con n p (cleanup fin p1).
Proof.
  intros Hl Ha.
  assert (H : always (Stepwise.nc_session_free;;
                      Stepwise.nc_close;;
                      step (mret EXIT_SUCCESS)) p1
                (λ st p', st = EXIT_SUCCESS ∧
                          calls (trace p') =
                            calls (trace p1) ++ [SessionFree; NcClose])
                (λ p', ∃ r, calls (trace p') = calls (trace p1) ++ r ∧
                            r `prefix_of` [SessionFree; NcClose])
                False).
  { unfold Stepwise.nc_session_free, Stepwise.nc_close.
    apply always_bind, always_step. intros q1 (_ & Hc1 & _).
    split; [exists []; rewrite app_nil_r; split;
            [exact Hc1 | apply prefix_nil] |].
    cbn [say]. apply always_bind, always_step. intros q2 (_ & Hc2 & _).
    cbn [trace emit] in Hc2. rewrite calls_app, Hc1 in Hc2.
    split; [exists [SessionFree]; split;
            [exact Hc2 | exists [NcClose]; reflexivity] |].
    cbn [say]. apply always_step. intros q3 (_ & Hc3 & _).
    cbn [trace emit] in Hc3. rewrite calls_app, Hc2, <- app_assoc in Hc3.
    split; [exists [SessionFree; NcClose]; split; [exact Hc3 | reflexivity] |].
    cbn [mret M_ret]. auto. }
  unfold cleanup. specialize (H (World installed fin)).
  match type of H with
  | match ?c with _ => _ end => destruct c as [st w' p' | o]
  end.
  - destruct H as [-> Hc]. split; [reflexivity |]. exists l.
    rewrite Hc, Hl, <- app_assoc. auto.
  - destruct o as [st p' | st p' | sig p' | p' |]; cbn in H;
      try contradiction.
    + destruct H as [-> (r & Hc & Hr)]. split; [reflexivity |].
      exists l, r. rewrite Hc, Hl, <- app_assoc. auto.
    + destruct H as (r & Hc & Hr).
      exists l, r. rewrite Hc, Hl, <- app_assoc. auto.
Qed.

(** *** The loop *)

Lemma accounts_step con n l1 l2 :
  accounts con 1 l1 → closes l1 = [] → accounts con n l2 →
  accounts con (S n) (l1 ++ l2).
Proof.
  intros (Hr1 & Hs1 & _) Hc1 (Hr2 & Hs2 & Hc2). unfold accounts.
  rewrite releases_app, sent_app, closes_app, length_app, Hr1, Hr2, Hc1.
  split; [reflexivity |]. split; [lia | exact Hc2].
Qed.

Lemma run_accounts_step con n p p1 o l1 :
  calls (trace p1) = calls (trace p) ++ l1 → accounts con 1 l1 →
  closes l1 = [] →
  run_accounts con n p1 o → run_accounts con (S n) p o.
Proof.
  intros Hl Ha Hc. destruct o as [st p' | st p' | sig p' | p' |]; cbn;
    [| | | | auto].
  - intros (Hst & l2 & Hl2 & Ha2). split; [exact Hst |].
    exists (l1 ++ l2). rewrite Hl2, Hl, <- !app_assoc.
    split; [reflexivity | apply accounts_step; assumption].
  - intros (Hst & l2 & r & Hl2 & Ha2 & Hr). split; [exact Hst |].
    exists (l1 ++ l2), r. rewrite Hl2, Hl, <- !app_assoc.
    split; [reflexivity |]. split; [apply accounts_step; assumption | auto].
  - intros (l2 & r & Hl2 & Ha2 & Hr).
    exists (l1 ++ l2), r. rewrite Hl2, Hl, <- !app_assoc.
    split; [reflexivity |]. split; [apply accounts_step; assumption | auto].
  - intros (l2 & Hl2 & Ha2).
    exists (l1 ++ l2). rewrite Hl2, Hl, <- !app_assoc.
    split; [reflexivity | apply accounts_step; assumption].
Qed.

Lemma session_loop_accounts script fin con s p :
  run_accounts con (length script) p (session_loop script fin con s p).
Proof.
  revert s p. induction script as [| e rest IH]; intros s p;
    cbn [session_loop length].
  - destruct (done p =? 0); cbn [negb].
    + exists []. rewrite app_nil_r. split; [reflexivity | apply accounts_nil].
    + apply (cleanup_accounts con _ p p []);
        [symmetry; apply app_nil_r | apply accounts_nil].
  - destruct (done p =? 0) eqn:Hd; cbn [negb].
    2: { apply (cleanup_accounts con _ p p []);
           [symmetry; apply app_nil_r | apply accounts_nil]. }
    assert (Hb := loop_body_accounts e con s p).
    destruct (loop_body e con s p) as [s' p1 | s' p1 | st p1 | sig p1 |];
      cbn [pass_accounts] in Hb.
    + destruct Hb as (l & Hl & Ha & [Hc | Hd1]).
      * eapply run_accounts_step; eauto.
      * (* the flag is set: the loop is left at once *)
        rewrite session_loop_flagged by exact Hd1.
        eapply cleanup_accounts; [exact Hl |].
        eapply accounts_more; [| exact Ha]. lia.
    + destruct Hb as (l & Hl & Ha).
      eapply cleanup_accounts; [exact Hl |].
      eapply accounts_more; [| exact Ha]. lia.
    + destruct Hb as (-> & l & Hl & Ha). split; [reflexivity |].
      exists l, []. rewrite app_nil_r. split; [exact Hl |].
      split; [eapply accounts_more; [| exact Ha]; lia | apply prefix_nil].
    + destruct Hb as (l & Hl & Ha).
      exists l, []. rewrite app_nil_r. split; [exact Hl |].
      split; [eapply accounts_more; [| exact Ha]; lia | apply prefix_nil].
    + contradiction.
Qed.

(** ** The whole run *)

(** *** The handshake *)

Lemma always_mono {A} (c : Steps A) p (Q Q' : A → process → Prop)
    (R R' : process → Prop) (C C' : Prop) :
  always c p Q R C →
  (∀ a p', Q a p' → Q' a p') → (∀ p', R p' → R' p') → (C → C') →
  always c p Q' R' C'.
Proof.
  intros H HQ HR HC w. specialize (H w).
  destruct (c w p) as [a w' p' | o]; [auto |].
  destruct o; cbn in *; intuition.
Qed.

Lemma always_sigaction sig p (Q : unit → process → Prop)
    (R : process → Prop) (C : Prop) :
  (∀ p1, follows p p1 → R p1 ∧ Q tt p1) →
  always (Stepwise.sigaction sig) p Q R C.
Proof.
  intros H w. unfold Stepwise.sigaction.
  assert (Hs := always_step (mret tt) p Q R C).
  specialize (Hs (λ p1 Hf, H p1 Hf) w).
  destruct (step (mret tt) w p) as [[] w' p' | o]; exact Hs.
Qed.

Lemma nothing_yet_follows p q : nothing_yet p → follows p q → nothing_yet q.
Proof.
  intros (Hs & Hc & Hr) (_ & Hq & _). unfold nothing_yet.
  rewrite <- sent_calls, <- closes_calls, <- releases_calls, Hq.
  rewrite sent_calls, closes_calls, releases_calls. auto.
Qed.

Lemma nothing_yet_emit p e :
  nothing_yet p → sent_reply e = None → close_of e = None →
  release_of e = None → nothing_yet (emit e p).
Proof.
  intros (Hs & Hc & Hr) He1 He2 He3. unfold nothing_yet.
  cbn [trace emit]. rewrite sent_app, closes_app, releases_app, Hs, Hc, Hr.
  unfold sent, closes, releases. cbn. rewrite He1, He2, He3. auto.
Qed.

(** [get_tls_username] does the same in every state: it returns, or fails,
    after at most one log line. *)
Lemma get_tls_username_run getenv malloc_ok :
  ∃ r l, calls l = [] ∧
    ∀ p, Tls.get_tls_username getenv malloc_ok p
         = Some (r, Process (done p) (heap p) (trace p ++ l)).
Proof.
  unfold Tls.get_tls_username.
  destruct (getenv "SSL_CLIENT_DN") as [subj |].
  2: { eexists _, [ClbPrint _ _].
       split; [reflexivity |]. intros p. reflexivity. }
  destruct (Tls.strstr subj "CN=") as [cn |].
  2: { eexists _, [ClbPrint _ _].
       split; [reflexivity |]. intros p. reflexivity. }
  cbv zeta.
  destruct (Tls.malloc malloc_ok _) as [aux |].
  2: { eexists _, []. split; [reflexivity |]. intros [d h t].
       cbn. rewrite app_nil_r. reflexivity. }
  destruct (Tls.strncpy aux _ _) as [aux' |].
  2: { eexists _, []. split; [reflexivity |]. intros [d h t].
       cbn. rewrite app_nil_r. reflexivity. }
  destruct (Tls.store aux' _ _).
  all: eexists _, []; (split; [reflexivity |]); intros [d h t];
    cbn; rewrite app_nil_r; reflexivity.
Qed.

Lemma fail_with_always su msg q (C : Prop) :
  nothing_yet q → startup_fails su →
  always (fail_with msg) q
    (λ r p', handshake_result su r ∧ nothing_yet p') nothing_yet C.
Proof.
  intros Hq Hfail. unfold fail_with, Stepwise.clb_print.
  apply always_bind, always_step. intros q1 Hq1.
  assert (H1 := nothing_yet_follows _ _ Hq Hq1).
  split; [exact H1 |]. cbn [clb_print say].
  assert (H2 : nothing_yet (emit (ClbPrint NC_VERB_ERROR msg) q1))
    by (apply nothing_yet_emit; auto).
  apply always_step. intros q2 Hq2.
  assert (H3 := nothing_yet_follows _ _ H2 Hq2).
  split; [exact H3 |]. cbn [mret M_ret]. split; [| exact H3].
  split; [reflexivity | exact Hfail].
Qed.

Lemma accept_session_always su capabilities q :
  nothing_yet q →
  always (accept_session su capabilities) q
    (λ s p',
       nothing_yet p' ∧
       s = if tls_transport su then
             match tls_username su with
             | Some username =>
                 su_nc_session_accept_username su capabilities username
             | None => None
             end
           else su_nc_session_accept su capabilities)
    nothing_yet
    (tls_transport su = true ∧
     (tls_username su = None ∨
      tls_username su = Some None ∧ su_getuid su = 0)).
Proof.
  intros Hq. unfold accept_session.
  change (su_enable_tls su && _) with (tls_transport su).
  destruct (tls_transport su) eqn:Htls.
  2: { apply always_step. intros q1 Hq1.
       assert (H1 := nothing_yet_follows _ _ Hq Hq1).
       split; [exact H1 |]. cbn [mret M_ret]. auto. }
  destruct (get_tls_username_run (su_getenv su) (su_malloc su))
    as (r & l & Hl & Hrun).
  assert (Huser : tls_username su = match r with
                                    | Tls.Returns username => Some username
                                    | _ => None
                                    end).
  { unfold tls_username. rewrite Hrun. destruct r; reflexivity. }
  apply always_bind, always_step. intros q1 Hq1.
  assert (H1 := nothing_yet_follows _ _ Hq Hq1).
  split; [exact H1 |]. unfold mbind, M_bind. rewrite Hrun.
  assert (H2 : nothing_yet (Process (done q1) (heap q1) (trace q1 ++ l))).
  { eapply nothing_yet_follows; [exact H1 |].
    split; [reflexivity |]. split; [| auto]. cbn [trace].
    rewrite calls_app, Hl, app_nil_r. reflexivity. }
  destruct r as [username | |]; cbn [undefined mret M_ret];
    [| split; auto | split; auto].
  apply always_bind, always_step. intros q2 Hq2.
  assert (H3 := nothing_yet_follows _ _ H2 Hq2).
  split; [exact H3 |]. cbn [mret M_ret]. rewrite Huser.
  apply always_bind with (Q := λ s p', _).
  destruct (su_getuid su =? 0) eqn:Huid.
  - apply always_bind, always_step. intros q3 Hq3.
    assert (H4 := nothing_yet_follows _ _ H3 Hq3).
    split; [exact H4 |].
    destruct username as [name |]; cbn [undefined mret M_ret].
    2: { apply Z.eqb_eq in Huid. auto. }
    destruct (su_getpwnam su name) as [pw_uid |].
    + apply always_step. intros q4 Hq4.
      assert (H5 := nothing_yet_follows _ _ H4 Hq4).
      split; [exact H5 |]. cbn [say]. apply always_ret.
      split; [| reflexivity]. apply nothing_yet_emit; auto.
    + apply always_ret, always_ret. auto.
  - apply always_ret, always_ret. auto.
Qed.

Lemma server_capabilities_run su con q :
  ∃ l, calls l = [] ∧
       get_server_capabilities su con q
       = Some (server_capabilities su,
               Process (done q) (heap q) (trace q ++ l)).
Proof.
  unfold get_server_capabilities, server_capabilities.
  destruct (su_comm_get_srv_cpblts su).
  - exists []. destruct q. cbn. rewrite app_nil_r. auto.
  - eexists [ClbPrint _ _]. split; reflexivity.
Qed.

(** The handshake under any signals: nothing is sent, closed or released;
    it ends with the failure status when a step fails, with the connection
    and the session otherwise, unless the process was ended first; it runs
    into a memory error in the TLS branch only. *)
Lemma handshake_always su :
  always (handshake su) boot
    (λ r p', handshake_result su r ∧ nothing_yet p') nothing_yet
    (tls_fault su).
Proof.
  assert (Hboot : nothing_yet boot) by (repeat split).
  unfold handshake.
  apply always_bind, always_sigaction. intros q1 Hq1.
  assert (H1 := nothing_yet_follows _ _ Hboot Hq1). split; [exact H1 |].
  apply always_bind, always_sigaction. intros q2 Hq2.
  assert (H2 := nothing_yet_follows _ _ H1 Hq2). split; [exact H2 |].
  apply always_bind, always_sigaction. intros q3 Hq3.
  assert (H3 := nothing_yet_follows _ _ H2 Hq3). split; [exact H3 |].
  apply always_bind, always_sigaction. intros q4 Hq4.
  assert (H4 := nothing_yet_follows _ _ H3 Hq4). split; [exact H4 |].
  apply always_bind, always_sigaction. intros q5 Hq5.
  assert (H5 := nothing_yet_follows _ _ H4 Hq5). split; [exact H5 |].
  (* initialize library *)
  apply always_bind, always_step. intros q6 Hq6.
  assert (H6 := nothing_yet_follows _ _ H5 Hq6). split; [exact H6 |].
  cbn [mret M_ret].
  destruct (su_nc_init su <? 0) eqn:Hinit.
  { apply fail_with_always; [exact H6 |]. left. apply Z.ltb_lt, Hinit. }
  apply Z.ltb_ge in Hinit.
  (* connect to server *)
  apply always_bind, always_step. intros q7 Hq7.
  assert (H7 := nothing_yet_follows _ _ H6 Hq7). split; [exact H7 |].
  cbn [mret M_ret].
  destruct (su_comm_connect su) as [con |] eqn:Hcon.
  2: { apply fail_with_always; [exact H7 |]. right. left. exact Hcon. }
  unfold Stepwise.clb_print at 1.
  apply always_bind, always_step. intros q8 Hq8.
  assert (H8 := nothing_yet_follows _ _ H7 Hq8). split; [exact H8 |].
  cbn [clb_print say].
  assert (H9 : nothing_yet
                 (emit (ClbPrint NC_VERB_VERBOSE
                          "Connected with Netopeer server") q8))
    by (apply nothing_yet_emit; auto).
  (* get server capabilities *)
  apply always_bind, always_step. intros q10 Hq10.
  assert (H10 := nothing_yet_follows _ _ H9 Hq10). split; [exact H10 |].
  destruct (server_capabilities_run su con q10) as (l & Hl & ->).
  assert (H11 : nothing_yet (Process (done q10) (heap q10) (trace q10 ++ l))).
  { eapply nothing_yet_follows; [exact H10 |].
    split; [reflexivity |]. split; [| auto]. cbn [trace].
    rewrite calls_app, Hl, app_nil_r. reflexivity. }
  destruct (server_capabilities su) as [capabilities |] eqn:Hcaps.
  2: { apply fail_with_always; [exact H11 |]. right. right. left.
       exact Hcaps. }
  apply always_bind.
  eapply always_mono;
    [apply (accept_session_always su capabilities), H11 | | auto |].
  2: { intros (Htls & Huser). unfold tls_fault. rewrite Hcon, Hcaps.
       repeat split; auto; discriminate. }
  intros netconf_con q12 (H12 & Hacc).
  assert (Haccepted : accepted_session su = netconf_con).
  { unfold accepted_session. rewrite Hcaps. symmetry. exact Hacc. }
  clear Hacc.
  destruct netconf_con as [netconf_con |].
  2: { apply fail_with_always; [exact H12 |]. do 3 right. left.
       exact Haccepted. }
  (* monitor this session and build statistics *)
  apply always_bind, always_step. intros q13 Hq13.
  assert (H13 := nothing_yet_follows _ _ H12 Hq13). split; [exact H13 |].
  cbn [mret M_ret].
  destruct (su_comm_session_info su =? 0) eqn:Hinfo; cbn [negb].
  2: { apply fail_with_always; [exact H13 |]. do 4 right.
       apply Z.eqb_neq, Hinfo. }
  apply Z.eqb_eq in Hinfo.
  unfold Stepwise.clb_print.
  apply always_bind, always_step. intros q14 Hq14.
  assert (H14 := nothing_yet_follows _ _ H13 Hq14). split; [exact H14 |].
  cbn [clb_print say].
  assert (H15 : nothing_yet
                  (emit (ClbPrint NC_VERB_VERBOSE "Handshake finished") q14))
    by (apply nothing_yet_emit; auto).
  apply always_step. intros q16 Hq16.
  assert (H16 := nothing_yet_follows _ _ H15 Hq16). split; [exact H16 |].
  cbn [mret M_ret]. split; [| exact H16]. split; [exact Hcon |].
  unfold startup_fails. rewrite Hcon, Hcaps, Haccepted, Hinfo.
  intros [H | [H | [H | [H | H]]]]; try discriminate H; try lia.
Qed.

(** How [main] goes: it returns with failure from the handshake, it enters
    the loop, or the process ends during the handshake. *)
Lemma main_cases su script fin :
  (∃ p, main su script fin = Returned EXIT_FAILURE p ∧ startup_fails su ∧
        nothing_yet p) ∨
  (∃ con s p, main su script fin = session_loop script fin con s p ∧
              su_comm_connect su = Some con ∧ ¬ startup_fails su ∧
              nothing_yet p) ∨
  (∃ p, main su script fin = Exited EXIT_FAILURE p ∧ nothing_yet p) ∨
  (∃ sig p, main su script fin = Killed sig p ∧ nothing_yet p) ∨
  (main su script fin = Crashed ∧ tls_fault su).
Proof.
  unfold main.
  assert (H := handshake_always su (World [] (su_signals su))).
  destruct (handshake su _ boot) as [[st | [con s]] w p | o].
  - destruct H as [[-> Hfail] Hp]. left. eauto.
  - destruct H as [[Hcon Hok] Hp]. right. left. eauto 10.
  - destruct o as [st p | st p | sig p | p |]; cbn in H; try contradiction.
    + destruct H as [-> Hp]. right. right. left. eauto.
    + do 3 right. left. eauto.
    + do 4 right. auto.
Qed.

(** *** The handshake without signals *)

Lemma undisturbed_ret {A} (a : A) : undisturbed_run (mret a : Steps A).
Proof. intros w p Hw. exact Hw. Qed.

Lemma undisturbed_bind {A B} (c : Steps A) (k : A → Steps B) :
  undisturbed_run c → (∀ a, undisturbed_run (k a)) →
  undisturbed_run (c ≫= k).
Proof.
  intros Hc Hk w p Hw. unfold mbind, Steps_bind.
  specialize (Hc w p Hw).
  destruct (c w p) as [a w' p' | o]; [apply Hk, Hc | exact Hc].
Qed.

Lemma undisturbed_step {A} (m : M A) : undisturbed_run (step m).
Proof.
  intros w p Hw. unfold step. rewrite Hw. cbn.
  destruct (m p) as [[a p'] |]; [reflexivity | exact I].
Qed.

Lemma undisturbed_sigaction sig : undisturbed_run (Stepwise.sigaction sig).
Proof.
  intros w p Hw. unfold Stepwise.sigaction, step. rewrite Hw. reflexivity.
Qed.

Ltac undisturbed_tac :=
  repeat first
    [ apply undisturbed_ret
    | apply undisturbed_step
    | apply undisturbed_sigaction
    | apply undisturbed_bind; [| intros ?]
    | match goal with
      | |- undisturbed_run (match ?x with _ => _ end) => destruct x
      end ].

Lemma handshake_undisturbed su : undisturbed_run (handshake su).
Proof.
  unfold handshake, accept_session, fail_with, Stepwise.clb_print.
  undisturbed_tac.
Qed.

(** *** The handlers the loop runs under *)

Lemma keeps_handlers_ret {A} (a : A) : keeps_handlers (mret a : Steps A).
Proof. intros w p. reflexivity. Qed.

Lemma keeps_handlers_bind {A B} (c : Steps A) (k : A → Steps B) :
  keeps_handlers c → (∀ a, keeps_handlers (k a)) → keeps_handlers (c ≫= k).
Proof.
  intros Hc Hk w p. unfold mbind, Steps_bind. specialize (Hc w p).
  destruct (c w p) as [a w' p' | o]; [| exact I].
  specialize (Hk a w' p'). destruct (k a w' p'); [congruence | exact I].
Qed.

Lemma keeps_handlers_step {A} (m : M A) : keeps_handlers (step m).
Proof.
  intros w p. unfold step. destruct (due (coming w)) as [now later].
  destruct (arrive_all (handlers w) now p); [| exact I | exact I].
  destruct (m p0) as [[a p'] |]; [reflexivity | exact I].
Qed.

Ltac keeps_handlers_tac :=
  repeat first
    [ apply keeps_handlers_ret
    | apply keeps_handlers_step
    | apply keeps_handlers_bind; [| intros ?]
    | match goal with
      | |- keeps_handlers (match ?x with _ => _ end) => destruct x
      end ].

Lemma sigaction_installs sig {A} (k : Steps A) w p a w' p' hs :
  (∀ w1 p1, handlers w1 = sigaction sig (handlers w) →
            k w1 p1 = Value a w' p' → handlers w' = hs) →
  (Stepwise.sigaction sig;; k) w p = Value a w' p' → handlers w' = hs.
Proof.
  intros Hk. unfold mbind, Steps_bind, Stepwise.sigaction.
  assert (Hs := keeps_handlers_step (mret tt) w p).
  destruct (step (mret tt) w p) as [[] w1 p1 |]; [| discriminate].
  apply Hk. cbn [handlers]. rewrite Hs. reflexivity.
Qed.

(** The loop is entered with the handlers of [installed] in place. *)
Lemma handshake_installs su σ p r w' p' :
  handshake su (World [] σ) p = Value r w' p' → handlers w' = installed.
Proof.
  unfold handshake.
  apply sigaction_installs. intros w1 p1 H1.
  apply sigaction_installs. intros w2 p2 H2.
  apply sigaction_installs. intros w3 p3 H3.
  apply sigaction_installs. intros w4 p4 H4.
  apply sigaction_installs. intros w5 p5 H5.
  assert (Hw5 : handlers w5 = installed).
  { rewrite H5, H4, H3, H2, H1. reflexivity. }
  match goal with
  | |- ?c w5 p5 = _ → _ =>
      assert (Hk : keeps_handlers c)
        by (unfold accept_session, fail_with, Stepwise.clb_print;
            keeps_handlers_tac);
      specialize (Hk w5 p5); destruct (c w5 p5); [| discriminate]
  end.
  intros Heq. injection Heq as _ <- _. congruence.
Qed.

(** *** Accounts of a whole run *)

Lemma released_prefix r :
  r `prefix_of` [SessionFree; NcClose] →
  sent r = [] ∧ closes r = [] ∧
  (r = [] ∨ r = [SessionFree] ∨ r = [SessionFree; NcClose]).
Proof.
  intros [k Hk]. destruct r as [| e1 [| e2 [| e3 r]]]; cbn in Hk.
  - auto.
  - injection Hk as <- _. auto.
  - injection Hk as <- <- _. auto 6.
  - injection Hk as _ _ Hk. discriminate.
Qed.

Lemma whole_accounts_start su con n p l :
  su_comm_connect su = Some con → nothing_yet p → accounts con n l →
  whole_accounts su n (calls (trace p) ++ l).
Proof.
  intros Hcon (Hs & Hc & Hr) (Hr' & Hs' & Hc'). unfold whole_accounts.
  rewrite releases_app, sent_app, closes_app.
  rewrite releases_calls, sent_calls, closes_calls, Hs, Hc, Hr.
  cbn [app]. split; [exact Hr' |]. split; [exact Hs' |].
  destruct Hc' as [-> | ->]; eauto.
Qed.

Lemma whole_accounts_nothing su n p :
  nothing_yet p → whole_accounts su n (calls (trace p)).
Proof.
  intros (Hs & Hc & Hr). unfold whole_accounts.
  rewrite releases_calls, sent_calls, closes_calls, Hs, Hc, Hr.
  split; [reflexivity |]. split; [cbn; lia | auto].
Qed.

(** However [main] ends: the status, the cause at start-up, and the calls
    made. *)
Lemma main_accounts su script fin :
  match main su script fin with
  | Returned st p =>
      st = EXIT_FAILURE ∧ startup_fails su ∧ nothing_yet p ∨
      st = EXIT_SUCCESS ∧ ¬ startup_fails su ∧
      ∃ l, calls (trace p) = l ++ [SessionFree; NcClose] ∧
           whole_accounts su (length script) l
  | Exited st p =>
      st = EXIT_FAILURE ∧
      ∃ l r, calls (trace p) = l ++ r ∧
             whole_accounts su (length script) l ∧
             r `prefix_of` [SessionFree; NcClose]
  | Killed _ p =>
      ∃ l r, calls (trace p) = l ++ r ∧
             whole_accounts su (length script) l ∧
             r `prefix_of` [SessionFree; NcClose]
  | Waiting p =>
      ¬ startup_fails su ∧ whole_accounts su (length script) (calls (trace p))
  | Crashed => tls_fault su
  end.
Proof.
  destruct (main_cases su script fin)
    as [(p & -> & Hfail & Hp) |
        [(con & s & p & -> & Hcon & Hok & Hp) |
         [(p & -> & Hp) | [(sig & p & -> & Hp) | (-> & Hf)]]]].
  - left. auto.
  - assert (H := session_loop_accounts script fin con s p).
    destruct (session_loop script fin con s p)
      as [st p' | st p' | sig p' | p' |]; cbn [run_accounts] in H.
    + destruct H as (-> & l & Hl & Ha). right.
      split; [reflexivity |]. split; [exact Hok |].
      exists (calls (trace p) ++ l). rewrite Hl, app_assoc.
      split; [reflexivity |]. eapply whole_accounts_start; eauto.
    + destruct H as (-> & l & r & Hl & Ha & Hr). split; [reflexivity |].
      exists (calls (trace p) ++ l), r. rewrite Hl, app_assoc.
      split; [reflexivity |]. split; [| exact Hr].
      eapply whole_accounts_start; eauto.
    + destruct H as (l & r & Hl & Ha & Hr).
      exists (calls (trace p) ++ l), r. rewrite Hl, app_assoc.
      split; [reflexivity |]. split; [| exact Hr].
      eapply whole_accounts_start; eauto.
    + destruct H as (l & Hl & Ha). split; [exact Hok |]. rewrite Hl.
      eapply whole_accounts_start; eauto.
    + contradiction.
  - split; [reflexivity |]. exists (calls (trace p)), [].
    rewrite app_nil_r. split; [reflexivity |].
    split; [apply whole_accounts_nothing, Hp | apply prefix_nil].
  - exists (calls (trace p)), []. rewrite app_nil_r. split; [reflexivity |].
    split; [apply whole_accounts_nothing, Hp | apply prefix_nil].
  - exact Hf.
Qed.

(** X16. At most one reply is sent per pass of the loop: however a run of
    [main] ends, whatever signals arrive and whenever, the replies sent are
    no more than the passes that took place.  A run that leaves defined
    behaviour does so in the TLS branch of the start-up. *)
Theorem replies_bounded_by_passes su script fin :
  match last_state (main su script fin) with
  | Some p => (length (sent (trace p)) ≤ length script)%nat
  | None => tls_fault su
  end.
Proof.
  assert (H := main_accounts su script fin).
  destruct (main su script fin) as [st p | st p | sig p | p |];
    cbn [last_state]; [| | | | exact H]; rewrite <- sent_calls.
  - destruct H as [(_ & _ & Hs & _) | (_ & _ & l & -> & _ & Hs & _)].
    + rewrite sent_calls, Hs. cbn. lia.
    + rewrite sent_app. cbn. rewrite app_nil_r. exact Hs.
  - destruct H as (_ & l & r & -> & (_ & Hs & _) & Hr).
    apply released_prefix in Hr as (Hr & _).
    rewrite sent_app, Hr, app_nil_r. exact Hs.
  - destruct H as (l & r & -> & (_ & Hs & _) & Hr).
    apply released_prefix in Hr as (Hr & _).
    rewrite sent_app, Hr, app_nil_r. exact Hs.
  - destruct H as (_ & _ & Hs & _). exact Hs.
Qed.

(** X17. The session is freed and the library closed at most once, in this
    order and as the last calls of the process.  When [main] returns with
    success both were made, as its last two calls; when it returns with
    failure and while the process is still in the loop neither was made;
    when the process ends in the signal handler or by a signal without
    handler, none, the first or both were made, as the signal can arrive
    during the clean-up. *)
Theorem session_released_once su script fin :
  match main su script fin with
  | Returned st p =>
      st = EXIT_SUCCESS ∧
      (∃ c, calls (trace p) = c ++ [SessionFree; NcClose] ∧ releases c = []) ∧
      releases (trace p) = [SessionFree; NcClose]
      ∨ st = EXIT_FAILURE ∧ releases (trace p) = []
  | Exited _ p | Killed _ p =>
      ∃ c r, calls (trace p) = c ++ r ∧ releases c = [] ∧
             releases (trace p) = r ∧
             (r = [] ∨ r = [SessionFree] ∨ r = [SessionFree; NcClose])
  | Waiting p => releases (trace p) = []
  | Crashed => tls_fault su
  end.
Proof.
  assert (H := main_accounts su script fin).
  destruct (main su script fin) as [st p | st p | sig p | p |];
    [| | | | exact H]; rewrite <- releases_calls.
  - destruct H as [(-> & _ & _ & _ & Hr) | (-> & _ & l & Hl & Hr & _)].
    + right. rewrite releases_calls. auto.
    + left. rewrite Hl, releases_app, Hr. eauto.
  - destruct H as (_ & l & r & -> & (Hl & _) & Hr).
    apply released_prefix in Hr as (_ & _ & Hr).
    exists l, r. split; [reflexivity |]. split; [exact Hl |].
    split; [| exact Hr]. rewrite releases_app, Hl.
    destruct Hr as [-> | [-> | ->]]; reflexivity.
  - destruct H as (l & r & -> & (Hl & _) & Hr).
    apply released_prefix in Hr as (_ & _ & Hr).
    exists l, r. split; [reflexivity |]. split; [exact Hl |].
    split; [| exact Hr]. rewrite releases_app, Hl.
    destruct Hr as [-> | [-> | ->]]; reflexivity.
  - destruct H as (_ & Hr & _). exact Hr.
Qed.

(** X18. In a whole run the backend is told to close at most once, and
    then on the connection obtained at start-up, whatever signals arrive
    and whenever: a hang-up and a close-session request both end the loop,
    so that no second call can follow.  A run that leaves defined behaviour
    does so in the TLS branch of the start-up. *)
Theorem backend_closed_at_most_once su script fin :
  match last_state (main su script fin) with
  | Some p =>
      closes (trace p) = [] ∨
      ∃ con, su_comm_connect su = Some con ∧ closes (trace p) = [con]
  | None => tls_fault su
  end.
Proof.
  assert (H := main_accounts su script fin).
  destruct (main su script fin) as [st p | st p | sig p | p |];
    cbn [last_state]; [| | | | exact H]; rewrite <- closes_calls.
  - destruct H as [(_ & _ & _ & Hc & _) | (_ & _ & l & -> & _ & _ & Hc)].
    + left. rewrite closes_calls. exact Hc.
    + rewrite closes_app. cbn. rewrite app_nil_r. exact Hc.
  - destruct H as (_ & l & r & -> & (_ & _ & Hc) & Hr).
    apply released_prefix in Hr as (_ & Hr & _).
    rewrite closes_app, Hr, app_nil_r. exact Hc.
  - destruct H as (l & r & -> & (_ & _ & Hc) & Hr).
    apply released_prefix in Hr as (_ & Hr & _).
    rewrite closes_app, Hr, app_nil_r. exact Hc.
  - destruct H as (_ & _ & _ & Hc). exact Hc.
Qed.

(** X24. The exit status under any signals.  When [main] returns, its
    status is [EXIT_FAILURE] if a start-up step failed, and then nothing
    was sent, and [EXIT_SUCCESS] if none did; the loop itself never makes
    [main] return another status than [EXIT_SUCCESS].  A process the
    handler ends exits with [EXIT_FAILURE]; a run leaves defined behaviour
    in the TLS branch of the start-up only.  With no signal during the
    start-up and no fault there, a failing start-up step does make [main]
    return [EXIT_FAILURE]. *)
Theorem exit_status_under_signals su script fin :
  match main su script fin with
  | Returned st p =>
      st = EXIT_FAILURE ∧ startup_fails su ∧ sent (trace p) = [] ∨
      st = EXIT_SUCCESS ∧ ¬ startup_fails su
  | Exited st _ => st = EXIT_FAILURE
  | Killed _ _ => True
  | Waiting _ => ¬ startup_fails su
  | Crashed => tls_fault su
  end ∧
  (∀ con s p st p',
     session_loop script fin con s p = Returned st p' → st = EXIT_SUCCESS) ∧
  (startup_fails su → su_signals su = [] → ¬ tls_fault su →
   ∃ p, main su script fin = Returned EXIT_FAILURE p ∧ sent (trace p) = []).
Proof.
  split; [| split].
  - assert (H := main_accounts su script fin).
    destruct (main su script fin) as [st p | st p | sig p | p |];
      [| | exact I | |].
    + destruct H as [(-> & Hf & Hs & _) | (-> & Hok & _)]; auto.
    + apply H.
    + apply H.
    + exact H.
  - intros con s p st p' Heq.
    assert (H := session_loop_accounts script fin con s p).
    rewrite Heq in H. apply H.
  - intros Hfail Hsig Hfault.
    assert (Hu := handshake_undisturbed su (World [] (su_signals su)) boot Hsig).
    assert (Ha := handshake_always su (World [] (su_signals su))).
    unfold main.
    destruct (handshake su _ boot) as [[st | [con s]] w p | o].
    + destruct Ha as [[-> _] (Hs & _)]. eauto.
    + destruct Ha as [[_ Hok] _]. contradiction.
    + destruct o; contradiction.
Qed.

(** ** The causes of a failure exit *)

Lemma signals_handled_app tr1 tr2 :
  signals_handled (tr1 ++ tr2) = signals_handled tr1 ++ signals_handled tr2.
Proof. apply omap_app. Qed.

Lemma accounted_grown K p p' l :
  trace p' = trace p ++ l → signals_handled l = [] →
  done p' = done p ∨ K → accounted K p → accounted K p'.
Proof.
  intros Ht Hl Hd [Hall Hc]. unfold accounted.
  rewrite Ht, signals_handled_app, Hl, app_nil_r.
  split; [exact Hall |]. destruct Hd as [-> | HK]; auto.
Qed.

(** Under the handlers of [installed] the handler knows every signal it is
    run for: it sets the flag, or finds it set and ends the process. *)
Lemma arrive_accounted K hs sig p :
  hs ⊆ installed → accounted K p →
  match arrive hs sig p with
  | Survived p' | Dies _ p' => accounted K p'
  | Exits st p' => st = EXIT_FAILURE ∧ accounted K p' ∧ impatient K p'
  end.
Proof.
  intros Hhs [Hall Hc]. unfold arrive. case_bool_decide as Hin.
  - apply Hhs in Hin. assert (Hin' := Hin).
    apply installed_spec in Hin' as [Ht Hk].
    unfold signal_handler. rewrite recognized_spec.
    rewrite bool_decide_eq_true_2 by exact Ht.
    cbn [done emit heap trace].
    assert (Hs : ∀ l, signals_handled l = [] →
              signals_handled
                (((trace p ++ [ClbPrint NC_VERB_VERBOSE "Signal received."])
                  ++ [StderrSignal sig]) ++ l)
              = signals_handled (trace p) ++ [sig]).
    { intros l Hl. rewrite !signals_handled_app, Hl. cbn.
      rewrite !app_nil_r. reflexivity. }
    assert (Hall' : Forall (λ sig, sig ∈ installed)
                      (signals_handled (trace p) ++ [sig]))
      by (apply Forall_app; split;
          [exact Hall | constructor; [exact Hin | constructor]]).
    destruct (done p =? 0) eqn:Hd.
    + unfold accounted. cbn [trace done].
      rewrite <- (app_nil_r (_ ++ [StderrSignal sig])), Hs by reflexivity.
      split; [exact Hall' |]. intros _. left.
      destruct (signals_handled (trace p)); discriminate.
    + apply Z.eqb_neq in Hd. split; [reflexivity |].
      unfold accounted, impatient. cbn [trace done emit].
      rewrite Hs by reflexivity. split.
      * split; [exact Hall' |]. intros _. left.
        destruct (signals_handled (trace p)); discriminate.
      * destruct (Hc Hd) as [Hne | HK].
        -- left. rewrite length_app. cbn.
           destruct (signals_handled (trace p)); [contradiction | cbn; lia].
        -- right. split; [exact HK |].
           destruct (signals_handled (trace p)); discriminate.
  - destruct (_ && _); split; assumption.
Qed.

Lemma arrive_all_accounted K hs sigs p :
  hs ⊆ installed → accounted K p →
  match arrive_all hs sigs p with
  | Survived p' | Dies _ p' => accounted K p'
  | Exits st p' => st = EXIT_FAILURE ∧ accounted K p' ∧ impatient K p'
  end.
Proof.
  intros Hhs. revert p.
  induction sigs as [| sig rest IH]; intros p Hp; cbn [arrive_all].
  - exact Hp.
  - assert (H := arrive_accounted K hs sig p Hhs Hp).
    destruct (arrive hs sig p) as [p1 | st p1 | s p1]; [| exact H | exact H].
    apply IH, H.
Qed.

(** *** Commands that leave the flag alone *)

Lemma steady_ret K {A} (a : A) : steady K (mret a).
Proof.
  intros p a' p' [= <- <-]. split; [| auto].
  exists []. rewrite app_nil_r. auto.
Qed.

Lemma steady_bind K {A B} (m : M A) (k : A → M B) :
  steady K m → (∀ a, steady K (k a)) → steady K (m ≫= k).
Proof.
  intros Hm Hk p b p'. unfold mbind, M_bind.
  destruct (m p) as [[a p1] |] eqn:Hp; [| discriminate].
  intros Hq. destruct (Hm p a p1 Hp) as [(l1 & Hl1 & Hs1) Hd1].
  destruct (Hk a p1 b p' Hq) as [(l2 & Hl2 & Hs2) Hd2]. split.
  - exists (l1 ++ l2). rewrite Hl2, Hl1, <- app_assoc.
    split; [reflexivity |]. rewrite signals_handled_app, Hs1, Hs2.
    reflexivity.
  - destruct Hd1 as [Hd1 | HK], Hd2 as [Hd2 | HK']; auto.
    left. congruence.
Qed.

Lemma steady_say K e : handled_signal e = None → steady K (say e).
Proof.
  intros He p a p' [= <- <-]. split; [| auto].
  exists [e]. split; [reflexivity |]. unfold signals_handled. cbn.
  rewrite He. reflexivity.
Qed.

Lemma steady_flag (K : Prop) v : K → steady K (set_done v).
Proof.
  intros HK p a p' [= <- <-]. split; [| auto].
  exists []. rewrite app_nil_r. auto.
Qed.

Lemma steady_new_object K o : steady K (new_object o).
Proof.
  intros p a p' [= <- <-]. split; [| auto].
  exists []. rewrite app_nil_r. auto.
Qed.

Lemma steady_store K a o : steady K (store a o).
Proof.
  intros p x p'. unfold store. destruct (heap p !! a); [| discriminate].
  intros [= <- <-]. split; [| auto]. exists []. rewrite app_nil_r. auto.
Qed.

Lemma steady_free K a : steady K (free a).
Proof.
  intros p x p'. unfold free. destruct (heap p !! a); [| discriminate].
  intros [= <- <-]. split; [| auto]. exists []. rewrite app_nil_r. auto.
Qed.

Lemma steady_load_reply K a : steady K (load_reply a).
Proof.
  intros p x p'. unfold load_reply.
  destruct (heap p !! a) as [[] |]; try discriminate.
  intros [= <- <-]. split; [| auto]. exists []. rewrite app_nil_r. auto.
Qed.

Lemma steady_undefined K {A} : steady K (@undefined A).
Proof. intros p a p'. discriminate. Qed.

Ltac steady_tac :=
  repeat first
    [ apply steady_ret
    | apply steady_say; reflexivity
    | apply steady_new_object
    | apply steady_store
    | apply steady_free
    | apply steady_load_reply
    | apply steady_undefined
    | apply steady_bind; [| intros ?]
    | progress unfold clb_print, nc_verb_error, nc_reply_ok, nc_reply_error,
        nc_reply_get_type, nc_reply_free, nc_rpc_dup, nc_session_send_reply,
        comm_close, comm_kill_session, comm_operation,
        ncntf_subscription_check, malloc, pthread_create, pthread_detach,
        get_server_capabilities, Tls.get_tls_username
    | progress cbv zeta
    | match goal with
      | |- steady _ (if ?c then _ else _) => destruct c
      | |- steady _ (match ?x with _ => _ end) => destruct x
      end ].

(** *** Programs of steps *)

Lemma accountable_ret K {A} (a : A) : accountable K (mret a : Steps A).
Proof. intros w p Hw Hp. split; assumption. Qed.

Lemma accountable_bind K {A B} (c : Steps A) (k : A → Steps B) :
  accountable K c → (∀ a, accountable K (k a)) → accountable K (c ≫= k).
Proof.
  intros Hc Hk w p Hw Hp. unfold mbind, Steps_bind.
  specialize (Hc w p Hw Hp).
  destruct (c w p) as [a w' p' | o]; [| exact Hc].
  destruct Hc as [Hw' Hp']. apply Hk; assumption.
Qed.

Lemma accountable_step K {A} (m : M A) : steady K m → accountable K (step m).
Proof.
  intros Hm w p Hw Hp. unfold step.
  destruct (due (coming w)) as [now later].
  assert (H := arrive_all_accounted K (handlers w) now p Hw Hp).
  destruct (arrive_all (handlers w) now p) as [p1 | st p1 | sig p1];
    [| exact H | exact H].
  destruct (m p1) as [[a p2] |] eqn:Hp1; [| exact I].
  split; [exact Hw |].
  destruct (Hm p1 a p2 Hp1) as [(l & Hl & Hs) Hd].
  eapply accounted_grown; eassumption.
Qed.

Lemma accountable_sigaction K sig :
  sig ∈ termination_signals → accountable K (Stepwise.sigaction sig).
Proof.
  intros Hsig w p Hw Hp. unfold Stepwise.sigaction.
  assert (H := accountable_step K (mret tt) (steady_ret K tt) w p Hw Hp).
  assert (Hh := keeps_handlers_step (mret tt) w p).
  destruct (step (mret tt) w p) as [[] w1 p1 | o]; [| exact H].
  destruct H as [Hw1 Hp1]. split; [| exact Hp1]. cbn [handlers].
  unfold sigaction. destruct (_ || _) eqn:Hb; [exact Hw1 |].
  intros x [-> | Hx]%elem_of_cons; [| apply Hw1, Hx].
  apply installed_spec. split; [exact Hsig |].
  rewrite !orb_false_iff in Hb. destruct Hb as [[_ Hb] _].
  apply Z.eqb_neq, Hb.
Qed.

(** A value that does not depend on the state. *)
Lemma accountable_bind_pure K {A B} (v : A) (k : A → Steps B) :
  accountable K (k v) → accountable K (step (mret v) ≫= k).
Proof.
  intros Hk w p Hw Hp. unfold mbind, Steps_bind.
  assert (H := accountable_step K (mret v) (steady_ret K v) w p Hw Hp).
  unfold step in *. destruct (due (coming w)) as [now later].
  destruct (arrive_all (handlers w) now p) as [p1 | st p1 | sig p1];
    [| exact H | exact H].
  cbn in *. apply Hk; apply H.
Qed.

Ltac accountable_tac :=
  repeat first
    [ apply accountable_ret
    | apply accountable_step; steady_tac
    | apply accountable_bind_pure
    | apply accountable_bind; [| intros ?]
    | match goal with
      | |- accountable _ (let '(_, _) := ?x in _) => destruct x
      | |- accountable _ (if ?c then _ else _) => destruct c
      | |- accountable _ (match ?x with _ => _ end) => destruct x
      end ].

Lemma build_reply_accountable (K : Prop) a s conn rpc :
  (nc_rpc_get_op rpc = NC_OP_CLOSESESSION → K) →
  accountable K (Stepwise.build_reply a s conn rpc).
Proof.
  intros HK. unfold Stepwise.build_reply.
  destruct (nc_rpc_get_op rpc) eqn:Hop;
    unfold Stepwise.comm_close, Stepwise.nc_reply_error, Stepwise.nc_reply_ok,
      Stepwise.set_done, Stepwise.clb_print, Stepwise.comm_kill_session,
      Stepwise.ncntf_subscription_check, Stepwise.nc_reply_get_type,
      Stepwise.malloc, Stepwise.nc_rpc_dup, Stepwise.store,
      Stepwise.pthread_create, Stepwise.nc_reply_free,
      Stepwise.pthread_detach, Stepwise.comm_operation;
    cbv zeta; accountable_tac.
  apply steady_flag, HK. reflexivity.
Qed.

Lemma process_message_accountable (K : Prop) a s conn rpc :
  (∀ r, rpc = Some r → nc_rpc_get_op r = NC_OP_CLOSESESSION → K) →
  accountable K (Stepwise.process_message a s conn rpc).
Proof.
  intros HK. unfold Stepwise.process_message.
  destruct rpc as [r |].
  - apply accountable_bind;
      [apply build_reply_accountable, HK; reflexivity | intros reply].
    unfold Stepwise.nc_session_send_reply, Stepwise.nc_reply_free.
    accountable_tac.
  - unfold Stepwise.nc_verb_error. accountable_tac.
Qed.

Lemma after_poll_accountable (K : Prop) e con s :
  (∀ r, recv_type e = NC_MSG_RPC → recv_rpc e = Some r →
        nc_rpc_get_op r = NC_OP_CLOSESESSION → K) →
  accountable K (after_poll e con s).
Proof.
  intros HK. unfold after_poll, again, Stepwise.clb_print,
    Stepwise.comm_close. cbv zeta.
  destruct (_ && _); [accountable_tac |].
  destruct (poll_ret e =? 0); [accountable_tac |].
  destruct (poll_ret e >? 0); [| accountable_tac].
  destruct (negb (Z.land (revents e) POLLHUP =? 0)); [accountable_tac |].
  destruct (negb (Z.land (revents e) POLLERR =? 0)); [accountable_tac |].
  destruct (negb (Z.land (revents e) POLLIN =? 0)); [| accountable_tac].
  apply accountable_bind_pure. unfold nc_session_recv_rpc.
  case_bool_decide as Hty; cbn [negb]; [| accountable_tac].
  apply accountable_bind; [accountable_tac | intros []].
  apply accountable_bind;
    [apply process_message_accountable; intros r; apply HK, Hty
    | intros z; accountable_tac].
Qed.

(** One pass keeps the accounts of the flag. *)
Lemma loop_body_accounted (K : Prop) e con s p :
  (∀ r, recv_type e = NC_MSG_RPC → recv_rpc e = Some r →
        nc_rpc_get_op r = NC_OP_CLOSESESSION → K) →
  accounted K p →
  match loop_body e con s p with
  | Continue _ p' | Cleanup _ p' | Kill _ p' => accounted K p'
  | Exit st p' => st = EXIT_FAILURE ∧ accounted K p' ∧ impatient K p'
  | Fault => True
  end.
Proof.
  intros HK Hp. unfold loop_body.
  assert (H := arrive_all_accounted K installed (signals e) p
                 (λ x Hx, Hx) Hp).
  destruct (arrive_all installed (signals e) p) as [p1 | st p1 | sig p1];
    [| exact H | exact H].
  assert (Ha := after_poll_accountable K e con s HK
                  (World installed (interrupts e)) p1 (λ x Hx, Hx) H).
  destruct (after_poll e con s _ p1) as [[s' | s'] w' p' | o].
  - apply Ha.
  - apply Ha.
  - destruct o; try exact I; try contradiction; exact Ha.
Qed.

Lemma cleanup_accounted (K : Prop) fin p :
  accounted K p →
  match cleanup fin p with
  | Returned _ p' | Killed _ p' | Waiting p' => accounted K p'
  | Exited st p' => st = EXIT_FAILURE ∧ accounted K p' ∧ impatient K p'
  | Crashed => True
  end.
Proof.
  intros Hp. unfold cleanup.
  assert (Ha : accountable K (Stepwise.nc_session_free;;
                              Stepwise.nc_close;;
                              step (mret EXIT_SUCCESS)))
    by (unfold Stepwise.nc_session_free, Stepwise.nc_close; accountable_tac).
  specialize (Ha (World installed fin) p (λ x Hx, Hx) Hp).
  match type of Ha with
  | match ?c with _ => _ end => destruct c as [st w' p' | o]
  end.
  - apply Ha.
  - destruct o; try exact I; try contradiction; exact Ha.
Qed.

Lemma session_loop_accounted (K : Prop) script fin con s p :
  (∀ e r, e ∈ script → recv_type e = NC_MSG_RPC → recv_rpc e = Some r →
          nc_rpc_get_op r = NC_OP_CLOSESESSION → K) →
  accounted K p →
  match session_loop script fin con s p with
  | Returned _ p' | Killed _ p' | Waiting p' => accounted K p'
  | Exited st p' => st = EXIT_FAILURE ∧ accounted K p' ∧ impatient K p'
  | Crashed => True
  end.
Proof.
  revert s p. induction script as [| e rest IH]; intros s p HK Hp;
    cbn [session_loop].
  - destruct (negb (done p =? 0)); [apply cleanup_accounted, Hp | exact Hp].
  - destruct (negb (done p =? 0)); [apply cleanup_accounted, Hp |].
    assert (H := loop_body_accounted K e con s p
                   (λ r, HK e r (proj2 (elem_of_cons rest e e) (or_introl eq_refl)))
                   Hp).
    destruct (loop_body e con s p) as [s' p' | s' p' | st p' | sig p' |];
      try exact H.
    + apply IH; [| exact H].
      intros e' r He'. apply HK. apply elem_of_cons. right. exact He'.
    + apply cleanup_accounted, H.
Qed.

Lemma handshake_accountable (K : Prop) su : accountable K (handshake su).
Proof.
  assert (Hsig : ∀ sig, sig ∈ termination_signals →
            ∀ {A} (k : Steps A), accountable K k →
              accountable K (Stepwise.sigaction sig;; k)).
  { intros sig Hin A k Hk. apply accountable_bind;
      [apply accountable_sigaction, Hin | intros _; exact Hk]. }
  unfold handshake.
  do 5 (apply Hsig;
        [apply (bool_decide_unpack _); vm_compute; exact I |]).
  unfold accept_session, fail_with, Stepwise.clb_print.
  accountable_tac.
Qed.

(** X25. The handler runs for the signals [main] has installed it for and
    for no other, so that its way out for an unknown signal is never taken;
    and it ends the process, with [EXIT_FAILURE], only when it finds the
    flag set: the handler has then run twice, or it has run once in a run in
    which a close-session request was received. *)
Theorem failure_exit_causes su script fin :
  match main su script fin with
  | Returned _ p | Killed _ p | Waiting p =>
      Forall (λ sig, sig ∈ installed) (signals_handled (trace p))
  | Exited st p =>
      st = EXIT_FAILURE ∧
      Forall (λ sig, sig ∈ installed) (signals_handled (trace p)) ∧
      ((2 ≤ length (signals_handled (trace p)))%nat ∨
       close_session_received script ∧ signals_handled (trace p) ≠ [])
  | Crashed => True
  end.
Proof.
  set (K := close_session_received script).
  assert (Hboot : accounted K boot)
    by (split; [constructor | intros H; contradiction H; reflexivity]).
  assert (Hh := handshake_accountable K su (World [] (su_signals su)) boot
                  (λ x Hx, False_ind _ (not_elem_of_nil x Hx)) Hboot).
  unfold main.
  destruct (handshake su _ boot) as [[st | [con s]] w p | o].
  - apply Hh.
  - destruct Hh as [_ Hp].
    assert (H := session_loop_accounted K script fin con s p
                   (λ e r He Hty Hr Hop,
                      ex_intro _ e (ex_intro _ r
                        (conj He (conj Hty (conj Hr Hop))))) Hp).
    destruct (session_loop script fin con s p); try exact H; try apply H.
    destruct H as (Hst & [Hall _] & Himp). auto.
  - destruct o; try exact I; try contradiction; try apply Hh.
    destruct Hh as (Hst & [Hall _] & Himp). auto.
Qed.

(** X26. When the handshake gets through, the handler is in place for
    [SIGINT], [SIGQUIT], [SIGABRT] and [SIGTERM] and for no other signal,
    whatever arrived meanwhile: the call of [sigaction] for [SIGKILL] has
    failed. *)
Theorem handlers_after_handshake su sigs p r w' p' :
  handshake su (World [] sigs) p = Value r w' p' →
  handlers w' = [SIGTERM; SIGABRT; SIGQUIT; SIGINT] ∧
  handlers w' = installed ∧ SIGKILL ∉ handlers w'.
Proof.
  intros H. apply handshake_installs in H. rewrite H.
  split; [reflexivity |]. split; [reflexivity |].
  intros [_ Hk]%installed_spec. apply Hk. reflexivity.
Qed.

(** ** The user name of a TLS client *)

Lemma strncpy_exact src n :
  (n ≤ String.length src)%nat →
  Tls.strncpy (replicate n None) src n
  = Some (Some <$> take n (String.list_ascii_of_string src)).
Proof.
  revert src. induction n as [| n IH]; intros src Hn; [reflexivity |].
  destruct src as [| c src]; cbn in Hn; [lia |].
  cbn. rewrite IH by lia. reflexivity.
Qed.

Lemma store_past_the_end (b : list (option Ascii.ascii)) n c :
  length b = n → Tls.store b n c = None.
Proof.
  intros H. unfold Tls.store. rewrite decide_False by lia. reflexivity.
Qed.

Lemma strchr_shorter s c aux :
  Tls.strchr s c = Some aux → (String.length aux ≤ String.length s)%nat.
Proof.
  revert aux. induction s as [| c' s IH]; intros aux; cbn; [discriminate |].
  case_decide.
  - intros [= <-]. cbn. lia.
  - intros Haux. apply IH in Haux. lia.
Qed.

Lemma get_tls_username_copies getenv subj cn p :
  getenv "SSL_CLIENT_DN" = Some subj → Tls.strstr subj "CN=" = Some cn →
  Tls.get_tls_username getenv true p =
    let cn := Tls.advance 3 cn in
    let len := match Tls.strchr cn Tls.slash with
               | Some aux => (String.length cn - String.length aux)%nat
               | None => String.length cn
               end in
    Some (Tls.OutOfBounds
            (Some <$> take len (String.list_ascii_of_string cn)) len, p).
Proof.
  intros Henv Hcn. unfold Tls.get_tls_username. rewrite Henv, Hcn.
  cbv zeta. unfold Tls.malloc.
  set (cn' := Tls.advance 3 cn).
  set (len := match Tls.strchr cn' Tls.slash with
              | Some aux => (String.length cn' - String.length aux)%nat
              | None => String.length cn'
              end).
  assert (Hlen : (len ≤ String.length cn')%nat).
  { unfold len. destruct (Tls.strchr cn' Tls.slash); lia. }
  rewrite (strncpy_exact cn' len Hlen).
  assert (Hsize : length (Some <$> take len (String.list_ascii_of_string cn'))
                  = len).
  { rewrite length_fmap, length_take.
    assert (length (String.list_ascii_of_string cn') = String.length cn').
    { clear. induction cn'; cbn; congruence. }
    lia. }
  rewrite (store_past_the_end _ len _ Hsize). reflexivity.
Qed.

(** X20. [get_tls_username] returns NULL, after logging one error, exactly
    when [SSL_CLIENT_DN] is not set or holds no [CN=].  In every other case
    it does not return: when [malloc] fails it copies through the NULL
    pointer, and when [malloc] succeeds, the block being as long as the
    name, the NUL that is to end the name is stored at the index that is
    the size of the block, one byte past its end.  The flag and the heap of
    the agent are not touched. *)
Theorem get_tls_username_outcomes getenv malloc_ok p :
  ∃ r p',
    Tls.get_tls_username getenv malloc_ok p = Some (r, p') ∧
    heap p' = heap p ∧ done p' = done p ∧
    match getenv "SSL_CLIENT_DN" ≫= λ subj, Tls.strstr subj "CN=" with
    | None =>
        r = Tls.Returns None ∧
        ∃ msg, trace p' = trace p ++ [ClbPrint NC_VERB_ERROR msg]
    | Some _ =>
        p' = p ∧
        if malloc_ok then ∃ aux, r = Tls.OutOfBounds aux (length aux)
        else r = Tls.NullDereference
    end.
Proof.
  destruct (getenv "SSL_CLIENT_DN") as [subj |] eqn:Henv; cbn.
  2: { unfold Tls.get_tls_username. rewrite Henv.
       eexists _, _. split; [reflexivity |]. cbn. eauto. }
  destruct (Tls.strstr subj "CN=") as [cn |] eqn:Hcn.
  2: { unfold Tls.get_tls_username. rewrite Henv, Hcn.
       eexists _, _. split; [reflexivity |]. cbn. eauto. }
  destruct malloc_ok.
  - rewrite (get_tls_username_copies getenv subj cn p Henv Hcn). cbv zeta.
    eexists _, p. split; [reflexivity |]. repeat split.
    eexists. f_equal.
    rewrite length_fmap, length_take.
    set (cn' := Tls.advance 3 cn).
    assert (length (String.list_ascii_of_string cn') = String.length cn').
    { clear. induction cn'; cbn; congruence. }
    destruct (Tls.strchr cn' Tls.slash); lia.
  - unfold Tls.get_tls_username. rewrite Henv, Hcn. cbn.
    eexists _, p. repeat split.
Qed.

Lemma prefix_empty s : String.prefix "" s = true.
Proof. destruct s; reflexivity. Qed.

Lemma string_app_nil b : "" +:+ b = b.
Proof. reflexivity. Qed.

Lemma string_app_cons c a b : String c a +:+ b = String c (a +:+ b).
Proof. reflexivity. Qed.

Lemma string_length_app a b :
  String.length (a +:+ b) = (String.length a + String.length b)%nat.
Proof.
  induction a as [| c a IH]; [reflexivity |].
  rewrite string_app_cons. cbn. rewrite IH. reflexivity.
Qed.

Lemma string_app_assoc a b c : (a +:+ b) +:+ c = a +:+ b +:+ c.
Proof.
  induction a as [| d a IH]; [reflexivity |].
  rewrite !string_app_cons, IH. reflexivity.
Qed.

Lemma prefix_app n a b :
  (String.length n ≤ String.length a)%nat →
  String.prefix n (a +:+ b) = String.prefix n a.
Proof.
  revert a. induction n as [| c n IH]; intros a Hlen.
  - rewrite !prefix_empty. reflexivity.
  - destruct a as [| d a]; cbn in Hlen; [lia |].
    rewrite string_app_cons. cbn.
    destruct (Ascii.ascii_dec c d); [apply IH; lia | reflexivity].
Qed.

(** The first [CN=] of a subject is the one that no [CN=] precedes. *)
Lemma strstr_first before tail :
  Tls.strstr (before +:+ "CN") "CN=" = None →
  Tls.strstr (before +:+ "CN=" +:+ tail) "CN=" = Some ("CN=" +:+ tail).
Proof.
  induction before as [| c before IH]; intros Hnone.
  - rewrite !string_app_cons, !string_app_nil.
    cbn. rewrite prefix_empty. reflexivity.
  - rewrite string_app_cons in *.
    change (Tls.strstr (String c (before +:+ "CN")) "CN=")
      with (if String.prefix "CN=" (String c (before +:+ "CN"))
            then Some (String c (before +:+ "CN"))
            else Tls.strstr (before +:+ "CN") "CN=") in Hnone.
    change (Tls.strstr (String c (before +:+ "CN=" +:+ tail)) "CN=")
      with (if String.prefix "CN=" (String c (before +:+ "CN=" +:+ tail))
            then Some (String c (before +:+ "CN=" +:+ tail))
            else Tls.strstr (before +:+ "CN=" +:+ tail) "CN=").
    replace (String c (before +:+ "CN=" +:+ tail))
      with (String c (before +:+ "CN") +:+ "=" +:+ tail) at 1
      by (rewrite string_app_cons, string_app_assoc; reflexivity).
    rewrite prefix_app
      by (cbn; rewrite string_length_app; cbn; lia).
    destruct (String.prefix "CN=" (String c (before +:+ "CN")));
      [discriminate |].
    exact (IH Hnone).
Qed.

Lemma strchr_app name c rest :
  Tls.strchr name c = None →
  Tls.strchr (name +:+ rest) c = Tls.strchr rest c.
Proof.
  induction name as [| d name IH]; [reflexivity |].
  rewrite string_app_cons. cbn.
  case_decide; [discriminate | exact IH].
Qed.

Lemma take_string_app name rest :
  take (String.length name) (String.list_ascii_of_string (name +:+ rest))
  = String.list_ascii_of_string name.
Proof.
  induction name as [| c name IH]; [apply take_0 |].
  rewrite string_app_cons. cbn. rewrite IH. reflexivity.
Qed.

(** X21. From a subject in which no [CN=] comes before the one that
    introduces the name, and in which the name, free of ['/'], runs to the
    end or to the next ['/'], [get_tls_username] copies the name and
    nothing else: the block holds the characters of the name, in order, and
    the store that fails is that of the final NUL, at the length of the
    name. *)
Theorem get_tls_username_common_name getenv before name rest p :
  getenv "SSL_CLIENT_DN" = Some (before +:+ "CN=" +:+ name +:+ rest) →
  Tls.strstr (before +:+ "CN") "CN=" = None →
  Tls.strchr name Tls.slash = None →
  rest = "" ∨ (∃ rest', rest = String Tls.slash rest') →
  Tls.get_tls_username getenv true p =
    Some (Tls.OutOfBounds (Tls.written name) (String.length name), p).
Proof.
  intros Henv Hfirst Hname Hrest.
  rewrite (get_tls_username_copies getenv _ _ p Henv
             (strstr_first before (name +:+ rest) Hfirst)).
  cbv zeta. change (Tls.advance 3 ("CN=" +:+ name +:+ rest))
    with (name +:+ rest).
  rewrite (strchr_app name Tls.slash rest Hname).
  assert (Hlen : match Tls.strchr rest Tls.slash with
                 | Some aux =>
                     (String.length (name +:+ rest) - String.length aux)%nat
                 | None => String.length (name +:+ rest)
                 end = String.length name).
  { rewrite string_length_app.
    destruct Hrest as [-> | [rest' ->]]; cbn.
    - lia.
    - rewrite decide_True by reflexivity. cbn. lia. }
  rewrite Hlen, take_string_app. reflexivity.
Qed.

(** ** The capability list in memory *)

Lemma free_entries_spec entries (m : gmap nat Caps.block) :
  NoDup entries → (∀ a, a ∈ entries → is_Some (m !! a)) →
  ∃ m', Caps.free_entries entries m = Some m' ∧
        ∀ b, m' !! b = if decide (b ∈ entries) then None else m !! b.
Proof.
  revert m. induction entries as [| a rest IH]; intros m Hnd Hlive.
  - exists m. split; [reflexivity |]. intros b.
    rewrite decide_False by apply not_elem_of_nil. reflexivity.
  - apply NoDup_cons in Hnd as [Hnotin Hnd].
    destruct (Hlive a) as [x Hx]; [apply list_elem_of_here |].
    cbn. unfold Caps.free. rewrite Hx.
    destruct (IH (delete a m) Hnd) as (m' & Hfree & Hm').
    { intros b Hb. rewrite lookup_delete_ne by (intros ->; contradiction).
      apply Hlive. apply list_elem_of_further, Hb. }
    exists m'. split; [exact Hfree |]. intros b. rewrite Hm'.
    destruct (decide (b = a)) as [-> | Hne].
    + rewrite decide_False by exact Hnotin.
      rewrite decide_True by apply list_elem_of_here.
      apply lookup_delete_eq.
    + rewrite lookup_delete_ne by congruence.
      destruct (decide (b ∈ rest)) as [Hin | Hout].
      * rewrite decide_True by (apply list_elem_of_further, Hin). reflexivity.
      * rewrite decide_False; [reflexivity |].
        rewrite elem_of_cons. tauto.
Qed.

(** X22. [get_server_capabilities] hands the strings of the backend's list
    to [nc_cpblts_new] in their order and then frees the list, every string
    once and the table itself, whether or not the capability structure
    could be built; the rest of the memory is not touched, and nothing is
    logged.  For this the entries must be distinct allocations. *)
Theorem capability_list_is_freed cpblts_list entries strings nc_cpblts_new
    (m : gmap nat Caps.block) :
  m !! cpblts_list = Some (Caps.Table entries) →
  NoDup entries →
  Forall2 (λ a s, m !! a = Some (Caps.Text s)) entries strings →
  ∃ m',
    Caps.get_server_capabilities (Some cpblts_list) nc_cpblts_new m
    = Some (nc_cpblts_new strings, m', []) ∧
    ∀ b, m' !! b = if decide (b = cpblts_list ∨ b ∈ entries) then None
                   else m !! b.
Proof.
  intros Htable Hnd Hstr.
  assert (Hmap : mapM (Caps.read_text m) entries = Some strings).
  { apply mapM_Some. eapply Forall2_impl; [exact Hstr |].
    intros a s Ha. unfold Caps.read_text. rewrite Ha. reflexivity. }
  assert (Hlive : ∀ a, a ∈ entries → is_Some (m !! a)).
  { intros a Ha. apply list_elem_of_lookup in Ha as [i Hi].
    destruct (Forall2_lookup_l _ _ _ _ _ Hstr Hi) as (s & _ & Hs). eauto. }
  assert (Hnot : cpblts_list ∉ entries).
  { intros Hin. apply list_elem_of_lookup in Hin as [i Hi].
    destruct (Forall2_lookup_l _ _ _ _ _ Hstr Hi) as (s & _ & Hs).
    congruence. }
  destruct (free_entries_spec entries m Hnd Hlive) as (m1 & Hfree & Hm1).
  exists (delete cpblts_list m1). split.
  - unfold Caps.get_server_capabilities. rewrite Htable, Hmap, Hfree.
    unfold Caps.free. rewrite Hm1, decide_False by exact Hnot.
    rewrite Htable. reflexivity.
  - intros b. destruct (decide (b = cpblts_list)) as [-> | Hne].
    + rewrite decide_True by auto. apply lookup_delete_eq.
    + rewrite lookup_delete_ne by congruence. rewrite Hm1.
      destruct (decide (b ∈ entries)).
      * rewrite decide_True by auto. reflexivity.
      * rewrite decide_False by tauto. reflexivity.
Qed.

(** ** These theorems at work *)

Lemma dispatch_restores_heap_witness :
  requested_op (Some kill_request) ≠ Some NC_OP_CREATESUBSCRIPTION ∧
  ∃ z p', process_message quiet_backend free_session 1%nat
            (Some kill_request) boot = Some (z, p') ∧
          heap p' = heap boot.
Proof.
  assert (H : requested_op (Some kill_request)
              ≠ Some NC_OP_CREATESUBSCRIPTION) by discriminate.
  split; [exact H |].
  exact (dispatch_restores_heap quiet_backend free_session 1%nat
           (Some kill_request) boot H).
Defined.

Lemma get_request_is_delegated : delegated (nc_rpc_get_op get_request).
Proof. repeat split; discriminate. Defined.

Lemma delegated_operation_witness :
  delegated (nc_rpc_get_op get_request) ∧
  ∃ reply,
    process_message quiet_backend free_session 1%nat (Some get_request) boot
    = Some (EXIT_SUCCESS,
            Process 0 ∅
              [CommOperation 1%nat get_request;
               SendReply get_request reply (ReplyData "<data/>");
               ReplyFree reply]).
Proof.
  split; [exact get_request_is_delegated |].
  exact (delegated_operation quiet_backend free_session 1%nat get_request
           boot get_request_is_delegated).
Defined.

Lemma free_session_has_notifications :
  NOTIFICATION_CAPABILITY ∈ capabilities free_session.
Proof. apply (bool_decide_unpack _). vm_compute. exact I. Defined.

Lemma subscribe_request_turned_down :
  turned_down strict_check free_session subscribe_request.
Proof.
  split; [reflexivity |]. split; [exact free_session_has_notifications |].
  split; discriminate.
Defined.

Lemma subscription_turned_down_witness :
  turned_down strict_check free_session subscribe_request ∧
  ∃ reply,
    process_message strict_check free_session 1%nat (Some subscribe_request)
      boot
    = Some (EXIT_SUCCESS,
            Process 0 ∅
              [SendReply subscribe_request reply
                 (ReplyError (nc_err_new NC_ERR_BAD_ELEM));
               ReplyFree reply]).
Proof.
  split; [exact subscribe_request_turned_down |].
  exact (subscription_turned_down strict_check free_session 1%nat
           subscribe_request boot subscribe_request_turned_down).
Defined.

Lemma subscribe_request_is_accepted a :
  reply_type (ans_ncntf_subscription_check a subscribe_request) = NC_REPLY_OK →
  accepted a free_session subscribe_request.
Proof.
  intros H. split; [reflexivity |].
  split; [exact free_session_has_notifications |].
  split; [discriminate | exact H].
Defined.

Lemma subscription_started_witness :
  accepted quiet_backend free_session subscribe_request ∧
  ans_malloc quiet_backend = true ∧ ans_pthread_create quiet_backend = 0 ∧
  ∃ p' ntf_config dup,
    dispatch_sends quiet_backend free_session 1%nat subscribe_request boot
      ReplyOk p' ∧
    done p' = 0 ∧ threads (trace p') = [ntf_config] ∧
    heap p' !! ntf_config
      = Some (ObjNtfConfig (NtfThreadConfig free_session dup)) ∧
    heap p' !! dup = Some (ObjRpc subscribe_request) ∧
    ∃ p'', notification_thread ntf_config p' = Some (tt, p'') ∧
           heap p'' = ∅ ∧ done p'' = 0 ∧
           trace p'' = trace p' ++ [NtfDispatchSend dup].
Proof.
  split; [exact (subscribe_request_is_accepted quiet_backend eq_refl) |].
  split; [reflexivity |]. split; [reflexivity |].
  exact (subscription_started quiet_backend free_session 1%nat
           subscribe_request boot
           (subscribe_request_is_accepted quiet_backend eq_refl)
           eq_refl eq_refl).
Defined.

Lemma allocation_failure_leaks_check_reply_witness :
  accepted no_memory free_session subscribe_request ∧
  ans_malloc no_memory = false ∧
  ∃ reply check,
    heap boot !! check = None ∧
    process_message no_memory free_session 1%nat (Some subscribe_request)
      boot
    = Some (EXIT_SUCCESS,
            Process 0 (<[check:=ObjReply ReplyOk]> ∅)
              [ClbPrint NC_VERB_ERROR "Memory allocation failed.";
               SendReply subscribe_request reply allocation_failed;
               ReplyFree reply]).
Proof.
  split; [exact (subscribe_request_is_accepted no_memory eq_refl) |].
  split; [reflexivity |].
  exact (allocation_failure_leaks_check_reply no_memory free_session 1%nat
           subscribe_request boot
           (subscribe_request_is_accepted no_memory eq_refl) eq_refl).
Defined.

Lemma kill_session_backend_calls_witness :
  nc_rpc_get_op kill_request_padded = NC_OP_KILLSESSION ∧
  session_id_child kill_request_padded = None ∧
  (∃ reply r msg,
     process_message quiet_backend free_session 1%nat
       (Some kill_request_padded) boot
     = Some (EXIT_SUCCESS,
             Process 0 ∅
               [ClbPrint NC_VERB_ERROR msg;
                SendReply kill_request_padded reply r; ReplyFree reply])) ∧
  nc_rpc_get_op kill_request = NC_OP_KILLSESSION ∧
  ¬ corrupted kill_request ∧
  ∃ reply,
    process_message quiet_backend free_session 1%nat (Some kill_request) boot
    = Some (EXIT_SUCCESS,
            Process 0 ∅
              [CommKillSession 1%nat (Some "12");
               SendReply kill_request reply ReplyOk; ReplyFree reply]).
Proof.
  assert (Hnc : ¬ corrupted kill_request) by (intros H; exact (H eq_refl)).
  split; [reflexivity |]. split; [reflexivity |]. split.
  - exact (proj1 (kill_session_backend_calls quiet_backend free_session 1%nat
                    kill_request_padded boot eq_refl) (or_intror eq_refl)).
  - split; [reflexivity |]. split; [exact Hnc |].
    exact (proj2 (kill_session_backend_calls quiet_backend free_session 1%nat
                    kill_request boot eq_refl) Hnc
             (XmlNode (Some "session-id") [] (Some "12")) eq_refl).
Defined.

Lemma notification_thread_once_witness :
  heap subscribed !! 1%nat
    = Some (ObjNtfConfig (NtfThreadConfig free_session 2)) ∧
  heap subscribed !! 2%nat = Some (ObjRpc subscribe_request) ∧
  ∃ p',
    notification_thread 1%nat subscribed = Some (tt, p') ∧
    heap p' = delete 1%nat (delete 2%nat (heap subscribed)) ∧
    done p' = 0 ∧ trace p' = [NtfDispatchSend 2] ∧
    notification_thread 1%nat p' = None.
Proof.
  assert (H1 : heap subscribed !! 1%nat
               = Some (ObjNtfConfig (NtfThreadConfig free_session 2)))
    by (vm_compute; reflexivity).
  assert (H2 : heap subscribed !! 2%nat = Some (ObjRpc subscribe_request))
    by (vm_compute; reflexivity).
  split; [exact H1 |]. split; [exact H2 |].
  exact (notification_thread_once 1%nat (NtfThreadConfig free_session 2)
           subscribe_request subscribed H1 H2).
Defined.

Lemma sigterm_is_a_termination_signal : SIGTERM ∈ termination_signals.
Proof. apply (bool_decide_unpack _). vm_compute. exact I. Defined.

Lemma deliver_survival_witness :
  (∃ p', deliver [SIGTERM] boot = Resumed p') ∧
  ¬ (∃ p', deliver [SIGTERM; SIGTERM] boot = Resumed p').
Proof.
  split.
  - apply (proj2 (deliver_survival [SIGTERM] boot)). right.
    exists SIGTERM. split; [reflexivity |].
    split; [exact sigterm_is_a_termination_signal | reflexivity].
  - intros H.
    apply (proj1 (deliver_survival [SIGTERM; SIGTERM] boot)) in H.
    destruct H as [H | (sig & H & _)]; discriminate H.
Defined.

Lemma data_is_ready e :
  poll_ret e = 1 → revents e = POLLIN → data_ready e.
Proof.
  intros Hret Hrev. unfold data_ready. rewrite Hret, Hrev.
  repeat split; discriminate.
Defined.

Lemma idle_passes : Forall idle_pass [timeout_pass; eintr_pass; malformed_pass].
Proof.
  constructor; [| constructor; [| constructor; [| constructor]]].
  - split; [split; reflexivity |]. left. reflexivity.
  - split; [split; reflexivity |]. right. left. split; reflexivity.
  - split; [split; reflexivity |]. right. right. right. split.
    + split; [apply data_is_ready; reflexivity | discriminate].
    + reflexivity.
Defined.

Lemma idle_passes_change_nothing_witness :
  Forall idle_pass [timeout_pass; eintr_pass; malformed_pass] ∧
  done boot = 0 ∧
  session_loop [timeout_pass; eintr_pass; malformed_pass] [] 1%nat
    free_session boot = Waiting boot.
Proof.
  split; [exact idle_passes |]. split; [reflexivity |].
  exact (idle_passes_change_nothing _ [] 1%nat free_session boot idle_passes
           eq_refl).
Defined.

Lemma hangup_closes_and_leaves_witness :
  done boot = 0 ∧
  arrive_all installed (signals hangup_pass) boot = Survived boot ∧
  interrupts hangup_pass = [] ∧
  0 < poll_ret hangup_pass ∧ Z.land (revents hangup_pass) POLLHUP ≠ 0 ∧
  session_loop [hangup_pass; request_pass get_request] [] 1%nat free_session
    boot
  = Returned EXIT_SUCCESS
      (Process 0 ∅
         [ClbPrint NC_VERB_VERBOSE "Connection closed by client";
          CommClose 1%nat; SessionFree; NcClose]).
Proof.
  assert (H : Z.land (revents hangup_pass) POLLHUP ≠ 0) by discriminate.
  split; [reflexivity |]. split; [reflexivity |]. split; [reflexivity |].
  split; [reflexivity |]. split; [exact H |].
  exact (hangup_closes_and_leaves hangup_pass [request_pass get_request]
           1%nat free_session boot boot eq_refl eq_refl eq_refl eq_refl H).
Defined.

Lemma error_exits_skip_backend_witness :
  (poll_ret poll_error_pass < 0 ∧ errno poll_error_pass ≠ EINTR ∧
   session_loop [poll_error_pass] [] 1%nat free_session boot
   = Returned EXIT_SUCCESS
       (Process 0 ∅
          [ClbPrint NC_VERB_ERROR "poll failed."; SessionFree; NcClose])) ∧
  (0 < poll_ret io_error_pass ∧
   Z.land (revents io_error_pass) POLLHUP = 0 ∧
   Z.land (revents io_error_pass) POLLERR ≠ 0 ∧
   session_loop [io_error_pass] [] 1%nat free_session boot
   = Returned EXIT_SUCCESS
       (Process 0 ∅
          [ClbPrint NC_VERB_ERROR "I/O error."; SessionFree; NcClose])).
Proof.
  assert (H1 : errno poll_error_pass ≠ EINTR) by discriminate.
  assert (H2 : Z.land (revents io_error_pass) POLLERR ≠ 0) by discriminate.
  split.
  - split; [reflexivity |]. split; [exact H1 |].
    exact (proj1 (error_exits_skip_backend poll_error_pass [] 1%nat
                    free_session boot boot eq_refl eq_refl eq_refl)
             eq_refl H1).
  - split; [reflexivity |]. split; [reflexivity |]. split; [exact H2 |].
    exact (proj2 (error_exits_skip_backend io_error_pass [] 1%nat
                    free_session boot boot eq_refl eq_refl eq_refl)
             eq_refl eq_refl H2).
Defined.

Lemma request_pass_brings rpc : request_of (request_pass rpc) rpc.
Proof.
  split; [split; reflexivity |].
  split; [apply data_is_ready; reflexivity | split; reflexivity].
Defined.

Lemma close_session_ends_loop_witness :
  request_of (request_pass close_request) close_request ∧
  nc_rpc_get_op close_request = NC_OP_CLOSESESSION ∧ done boot = 0 ∧
  ∃ reply r,
    session_loop [request_pass close_request; request_pass get_request] []
      1%nat free_session boot
    = Returned EXIT_SUCCESS
        (Process 1 ∅
           [ClbPrint NC_VERB_VERBOSE "Processing client message";
            CommClose 1%nat; SendReply close_request reply r;
            ReplyFree reply; SessionFree; NcClose]).
Proof.
  split; [exact (request_pass_brings close_request) |].
  split; [reflexivity |]. split; [reflexivity |].
  exact (close_session_ends_loop (request_pass close_request)
           [request_pass get_request] 1%nat free_session boot close_request
           (request_pass_brings close_request) eq_refl eq_refl).
Defined.

Lemma ordinary_passes :
  Forall ordinary_pass [request_pass get_request; request_pass kill_request].
Proof.
  constructor; [| constructor; [| constructor]].
  - exists get_request. split; [apply request_pass_brings | discriminate].
  - exists kill_request. split; [apply request_pass_brings | discriminate].
Defined.

Lemma replies_in_arrival_order_witness :
  Forall ordinary_pass [request_pass get_request; request_pass kill_request] ∧
  done boot = 0 ∧
  ∃ p',
    session_loop [request_pass get_request; request_pass kill_request] []
      1%nat free_session boot = Waiting p' ∧
    done p' = 0 ∧
    (sent (trace p')).*1.*1 = [get_request; kill_request].
Proof.
  split; [exact ordinary_passes |]. split; [reflexivity |].
  exact (replies_in_arrival_order _ [] 1%nat free_session boot
           ordinary_passes eq_refl).
Defined.

Lemma null_request_is_only_logged_witness :
  undisturbed null_pass ∧ data_ready null_pass ∧
  recv_type null_pass = NC_MSG_RPC ∧ recv_rpc null_pass = None ∧
  done boot = 0 ∧
  session_loop [null_pass] [] 1%nat free_session boot
  = session_loop [] [] 1%nat (recv_session null_pass)
      (Process 0 ∅
         [ClbPrint NC_VERB_VERBOSE "Processing client message";
          NcVerbError "Invalid RPC to process.";
          ClbPrint NC_VERB_WARNING "Message processing failed"]).
Proof.
  assert (H : data_ready null_pass) by (apply data_is_ready; reflexivity).
  assert (Hcalm : undisturbed null_pass) by (split; reflexivity).
  split; [exact Hcalm |]. split; [exact H |]. split; [reflexivity |].
  split; [reflexivity |]. split; [reflexivity |].
  exact (null_request_is_only_logged null_pass [] [] 1%nat free_session boot
           Hcalm H eq_refl eq_refl eq_refl).
Defined.

Lemma request_answered_before_shutdown_witness :
  signals last_request_pass = [SIGTERM] ∧
  interrupts last_request_pass = [] ∧
  SIGTERM ∈ termination_signals ∧ SIGTERM ≠ SIGKILL ∧
  done boot = 0 ∧ data_ready last_request_pass ∧
  recv_type last_request_pass = NC_MSG_RPC ∧
  recv_rpc last_request_pass = Some get_request ∧
  ∃ p' reply r,
    session_loop [last_request_pass; request_pass kill_request] [] 1%nat
      free_session boot = Returned EXIT_SUCCESS p' ∧
    sent (trace p') = [(get_request, reply, r)].
Proof.
  assert (H : data_ready last_request_pass)
    by (apply data_is_ready; reflexivity).
  assert (Hk : SIGTERM ≠ SIGKILL) by discriminate.
  split; [reflexivity |]. split; [reflexivity |].
  split; [exact sigterm_is_a_termination_signal |]. split; [exact Hk |].
  split; [reflexivity |]. split; [exact H |]. split; [reflexivity |].
  split; [reflexivity |].
  exact (request_answered_before_shutdown last_request_pass
           [request_pass kill_request] 1%nat free_session boot SIGTERM
           get_request eq_refl eq_refl sigterm_is_a_termination_signal Hk
           eq_refl H eq_refl eq_refl).
Defined.

Lemma exit_status_under_signals_witness :
  startup_fails no_backend ∧ su_signals no_backend = [] ∧
  ¬ tls_fault no_backend ∧
  ∃ p, main no_backend [hangup_pass] [(0%nat, SIGTERM)]
       = Returned EXIT_FAILURE p ∧ sent (trace p) = [].
Proof.
  assert (Hfail : startup_fails no_backend) by (right; left; reflexivity).
  assert (Hfault : ¬ tls_fault no_backend)
    by (intros (_ & H & _); exact (H eq_refl)).
  split; [exact Hfail |]. split; [reflexivity |]. split; [exact Hfault |].
  exact (proj2 (proj2 (exit_status_under_signals no_backend [hangup_pass]
                         [(0%nat, SIGTERM)])) Hfail eq_refl Hfault).
Defined.

Lemma handlers_after_handshake_witness :
  handshake good_startup (World [] [(7%nat, SIGTERM)]) boot
  = Value (inr (1%nat, NcSession "7"
                         ["urn:ietf:params:netconf:base:1.0";
                          NOTIFICATION_CAPABILITY]
                         1 NC_SESSION_STATUS_WORKING))
      (World installed [])
      (Process 1 ∅
         [ClbPrint NC_VERB_VERBOSE "Signal received."; StderrSignal SIGTERM;
          ClbPrint NC_VERB_VERBOSE "Connected with Netopeer server";
          ClbPrint NC_VERB_VERBOSE "Handshake finished"]) ∧
  SIGKILL ∉ installed.
Proof.
  assert (H : handshake good_startup (World [] [(7%nat, SIGTERM)]) boot
              = Value (inr (1%nat, NcSession "7"
                                     ["urn:ietf:params:netconf:base:1.0";
                                      NOTIFICATION_CAPABILITY]
                                     1 NC_SESSION_STATUS_WORKING))
                  (World installed [])
                  (Process 1 ∅
                     [ClbPrint NC_VERB_VERBOSE "Signal received.";
                      StderrSignal SIGTERM;
                      ClbPrint NC_VERB_VERBOSE
                        "Connected with Netopeer server";
                      ClbPrint NC_VERB_VERBOSE "Handshake finished"]))
    by (vm_compute; reflexivity).
  split; [exact H |].
  exact (proj2 (proj2 (handlers_after_handshake _ _ _ _ _ _ H))).
Defined.

Lemma get_tls_username_common_name_witness :
  stunnel_env "SSL_CLIENT_DN"
    = Some ("/C=CZ/O=CESNET/" +:+ "CN=" +:+ "john"
            +:+ "/emailAddress=john@example.org") ∧
  Tls.strstr ("/C=CZ/O=CESNET/" +:+ "CN") "CN=" = None ∧
  Tls.strchr "john" Tls.slash = None ∧
  Tls.get_tls_username stunnel_env true boot
  = Some (Tls.OutOfBounds (Tls.written "john") 4, boot).
Proof.
  split; [reflexivity |]. split; [reflexivity |]. split; [reflexivity |].
  exact (get_tls_username_common_name stunnel_env "/C=CZ/O=CESNET/" "john"
           "/emailAddress=john@example.org" boot eq_refl eq_refl eq_refl
           (or_intror (ex_intro _ "emailAddress=john@example.org" eq_refl))).
Defined.

Lemma two_capabilities_strings :
  Forall2 (λ a s, two_capabilities !! a = Some (Caps.Text s))
    [11%nat; 12%nat]
    ["urn:ietf:params:netconf:base:1.0"; NOTIFICATION_CAPABILITY].
Proof.
  constructor; [vm_compute; reflexivity |].
  constructor; [vm_compute; reflexivity | constructor].
Defined.

Lemma capability_list_is_freed_witness :
  two_capabilities !! 10%nat = Some (Caps.Table [11%nat; 12%nat]) ∧
  NoDup [11%nat; 12%nat] ∧
  ∃ m',
    Caps.get_server_capabilities (Some 10%nat) (λ _, None) two_capabilities
    = Some (None, m', []) ∧
    ∀ b, m' !! b = if decide (b = 10%nat ∨ b ∈ [11%nat; 12%nat]) then None
                   else two_capabilities !! b.
Proof.
  assert (H1 : two_capabilities !! 10%nat
               = Some (Caps.Table [11%nat; 12%nat]))
    by (vm_compute; reflexivity).
  assert (H2 : NoDup [11%nat; 12%nat])
    by (apply (bool_decide_unpack _); vm_compute; exact I).
  split; [exact H1 |]. split; [exact H2 |].
  exact (capability_list_is_freed 10%nat [11%nat; 12%nat] _ (λ _, None)
           two_capabilities H1 H2 two_capabilities_strings).
Defined.
